(** * CCF: a columnar file format, its writer and its reader

    Shallow embedding of [custom_columnar.py].  Python values are modelled
    as follows:
    - [bytes] objects are lists of integers (each in [0, 255] when produced
      by the program);
    - [str] objects are lists of Unicode code points;
    - Python exceptions are the [Err] branch of [result];
    - an open file or [io.BytesIO] being read is the list of bytes that
      remain after the cursor, passed from one [read] to the next;
    - [zlib] is an interface ([Zlib]); the two decimal conversions of
      doubles are an interface ([Float]) over IEEE-754 bit patterns; the
      Unicode tables and the limit on the length of numerals are an
      interface ([Interpreter]). *)

From Stdlib Require Import ZArith Lia Bool String Ascii.
From stdpp Require Import base tactics option list numbers.

Local Open Scope Z_scope.

(** ** Python values and exceptions *)

Abbreviation bytes := (list Z).
Abbreviation str := (list Z).

(** An ASCII literal as a Python [str]. *)
Definition py (s : string) : str :=
  map (fun a => Z.of_N (N_of_ascii a)) (list_ascii_of_string s).

Definition len {A} (l : list A) : Z := Z.of_nat (length l).

Inductive exn :=
  | ValueError
  | KeyError
  | IndexError
  | StructError
  | UnicodeEncodeError
  | UnicodeDecodeError
  | ZlibError.

Inductive result (A : Type) :=
  | OK (a : A)
  | Err (e : exn).
Arguments OK {A} a.
Arguments Err {A} e.

Definition bind {A B} (m : result A) (k : A -> result B) : result B :=
  match m with
  | OK a => k a
  | Err e => Err e
  end.

Notation "x <- m ;; k" := (bind m (fun x => k))
  (at level 100, m at next level, right associativity).

Definition is_ok {A} (m : result A) : bool :=
  match m with OK _ => true | Err _ => false end.

(** [for x in l: acc = f(acc, x)] where the body may raise. *)
Fixpoint foldM {A S} (f : S -> A -> result S) (l : list A) (s : S) : result S :=
  match l with
  | [] => OK s
  | x :: l' => s' <- f s x ;; foldM f l' s'
  end.

(** [[f(x) for x in l]] where [f] may raise. *)
Fixpoint mapM {A B} (f : A -> result B) (l : list A) : result (list B) :=
  match l with
  | [] => OK []
  | x :: l' => y <- f x ;; ys <- mapM f l' ;; OK (y :: ys)
  end.

(** Python slicing [l[a:b]] for non-negative [a], [b]: both ends are
    clamped to the length and an inverted range is empty. *)
Definition slice {A} (l : list A) (a b : nat) : list A :=
  take (b - a)%nat (drop a l).

(** ** [struct]: little-endian fixed-width packing *)

Fixpoint le_bytes (w : nat) (x : Z) : bytes :=
  match w with
  | O => []
  | S w' => x mod 256 :: le_bytes w' (x / 256)
  end.

Fixpoint le_val (bs : bytes) : Z :=
  match bs with
  | [] => 0
  | b :: bs' => b + 256 * le_val bs'
  end.

(** [struct.pack] of an unsigned format of [w] bytes raises [struct.error]
    outside [0, 256^w). *)
Definition pack_u (w : nat) (x : Z) : result bytes :=
  if (0 <=? x) && (x <? 256 ^ Z.of_nat w) then OK (le_bytes w x)
  else Err StructError.

Definition pack_u8 := pack_u 1.
Definition pack_u16 := pack_u 2.
Definition pack_u32 := pack_u 4.
Definition pack_u64 := pack_u 8.

(** [struct.pack('<i', x)]. *)
Definition pack_i32 (x : Z) : result bytes :=
  if (- 2 ^ 31 <=? x) && (x <? 2 ^ 31) then OK (le_bytes 4 (x mod 2 ^ 32))
  else Err StructError.

(** [struct.unpack] raises [struct.error] unless the buffer has exactly
    the size of the format. *)
Definition unpack_u (w : nat) (bs : bytes) : result Z :=
  if (length bs =? w)%nat then OK (le_val bs) else Err StructError.

Definition unpack_i32 (bs : bytes) : result Z :=
  u <- unpack_u 4 bs ;;
  OK (if u <? 2 ^ 31 then u else u - 2 ^ 32).

(** [struct.unpack_from(fmt, buf, p)]: needs [w] bytes at offset [p]. *)
Definition unpack_from_u (w : nat) (buf : bytes) (p : nat) : result Z :=
  unpack_u w (slice buf p (p + w)).

(** ** UTF-8 ([str.encode('utf-8')] and [bytes.decode('utf-8')], strict) *)

Definition is_surrogate (c : Z) : bool := (0xD800 <=? c) && (c <=? 0xDFFF).

Definition utf8_encode_cp (c : Z) : result bytes :=
  if (c <? 0) || (0x10FFFF <? c) || is_surrogate c then Err UnicodeEncodeError
  else if c <? 0x80 then OK [c]
  else if c <? 0x800 then OK [0xC0 + c / 64; 0x80 + c mod 64]
  else if c <? 0x10000 then
    OK [0xE0 + c / 4096; 0x80 + (c / 64) mod 64; 0x80 + c mod 64]
  else
    OK [0xF0 + c / 262144; 0x80 + (c / 4096) mod 64;
        0x80 + (c / 64) mod 64; 0x80 + c mod 64].

Fixpoint utf8_encode (s : str) : result bytes :=
  match s with
  | [] => OK []
  | c :: s' =>
      b <- utf8_encode_cp c ;;
      bs <- utf8_encode s' ;;
      OK (b ++ bs)
  end.

Definition is_cont (b : Z) : bool := (0x80 <=? b) && (b <=? 0xBF).

Fixpoint utf8_decode (bs : bytes) : result str :=
  match bs with
  | [] => OK []
  | b0 :: t0 =>
      if (0 <=? b0) && (b0 <? 0x80) then
        s <- utf8_decode t0 ;; OK (b0 :: s)
      else if (0xC2 <=? b0) && (b0 <=? 0xDF) then
        match t0 with
        | b1 :: t1 =>
            if is_cont b1 then
              s <- utf8_decode t1 ;;
              OK ((b0 - 0xC0) * 64 + (b1 - 0x80) :: s)
            else Err UnicodeDecodeError
        | _ => Err UnicodeDecodeError
        end
      else if (0xE0 <=? b0) && (b0 <=? 0xEF) then
        match t0 with
        | b1 :: b2 :: t2 =>
            let c := (b0 - 0xE0) * 4096 + (b1 - 0x80) * 64 + (b2 - 0x80) in
            if is_cont b1 && is_cont b2 && (0x800 <=? c)
               && negb (is_surrogate c) then
              s <- utf8_decode t2 ;; OK (c :: s)
            else Err UnicodeDecodeError
        | _ => Err UnicodeDecodeError
        end
      else if (0xF0 <=? b0) && (b0 <=? 0xF4) then
        match t0 with
        | b1 :: b2 :: b3 :: t3 =>
            let c := (b0 - 0xF0) * 262144 + (b1 - 0x80) * 4096
                     + (b2 - 0x80) * 64 + (b3 - 0x80) in
            if is_cont b1 && is_cont b2 && is_cont b3
               && (0x10000 <=? c) && (c <=? 0x10FFFF) then
              s <- utf8_decode t3 ;; OK (c :: s)
            else Err UnicodeDecodeError
        | _ => Err UnicodeDecodeError
        end
      else Err UnicodeDecodeError
  end.

(** ** [int(str)] and [str(int)]

    [int(v)] and [float(v)] first bring [v] to ASCII: a code point below
    128 stays, a Unicode space becomes a blank, a Unicode decimal digit
    becomes the ASCII digit of its value and anything else becomes a
    question mark, which no numeral contains.

    The ASCII text is then read in base 10: ASCII whitespace is stripped on
    both sides, one sign may precede the digits, and single underscores may
    separate digits.  [int] rejects a numeral of more than 640 digits when
    it exceeds the interpreter's limit ([sys.get_int_max_str_digits()],
    4300 by default since Python 3.11, 0 for no limit).

    The two tables of the Unicode database and the limit are what the
    interpreter brings; they form an interface. *)

Class Interpreter := {
  unicode_space : Z -> bool;
  unicode_decimal : Z -> option Z;
  int_max_str_digits : Z
}.

Definition to_ascii `{Interpreter} (c : Z) : Z :=
  if c <? 128 then c
  else if unicode_space c then 32
  else
    match unicode_decimal c with
    | Some d => if (0 <=? d) && (d <=? 9) then 48 + d else 63
    | None => 63
    end.

Definition ascii_form `{Interpreter} (v : str) : str := map to_ascii v.

Definition str_empty (v : str) : bool :=
  match v with [] => true | _ => false end.

Definition is_space (c : Z) : bool := ((9 <=? c) && (c <=? 13)) || (c =? 32).
Definition is_digit (c : Z) : bool := (48 <=? c) && (c <=? 57).

Fixpoint lstrip (s : str) : str :=
  match s with
  | c :: t => if is_space c then lstrip t else s
  | [] => []
  end.

Definition rstrip (s : str) : str := rev (lstrip (rev s)).
Definition strip (s : str) : str := rstrip (lstrip s).

(** An optional sign: is it a minus, and what follows. *)
Definition split_sign (s : str) : bool * str :=
  match s with
  | c :: t =>
      if c =? 43 then (false, t)
      else if c =? 45 then (true, t)
      else (false, s)
  | [] => (false, [])
  end.

(** An underscore needs a digit on both sides; [prev] is the character
    before [s] (0 at the start). *)
Fixpoint underscores_ok (prev : Z) (s : str) : bool :=
  match s with
  | [] => negb (prev =? 95)
  | c :: t =>
      (if c =? 95 then is_digit prev
       else if prev =? 95 then is_digit c else true)
      && underscores_ok c t
  end.

Definition remove_underscores (s : str) : str :=
  List.filter (fun c => negb (c =? 95)) s.

Definition digits_value (ds : str) : Z :=
  fold_left (fun a d => 10 * a + (d - 48)) ds 0.

Definition exceeds_limit (max_str_digits ndigits : Z) : bool :=
  (640 <? ndigits) && (0 <? max_str_digits) && (max_str_digits <? ndigits).

Definition int_from_ascii (max_str_digits : Z) (v : str) : option Z :=
  let '(neg, body) := split_sign (strip v) in
  let ds := remove_underscores body in
  if underscores_ok 0 body && negb (str_empty ds) && forallb is_digit ds
     && negb (exceeds_limit max_str_digits (len ds))
  then Some (if neg then - digits_value ds else digits_value ds)
  else None.

Definition py_int `{Interpreter} (v : str) : option Z :=
  int_from_ascii int_max_str_digits (ascii_form v).

Fixpoint digits_of (fuel : nat) (n : Z) (acc : str) : str :=
  match fuel with
  | O => acc
  | S f =>
      let acc' := (48 + n mod 10) :: acc in
      if n <? 10 then acc' else digits_of f (n / 10) acc'
  end.

Definition py_str_nat (n : Z) : str :=
  digits_of (S (Z.to_nat (Z.log2 n))) n [].

(** [str(n)] for an [int]. *)
Definition py_str (n : Z) : str :=
  if n <? 0 then 45 :: py_str_nat (- n) else py_str_nat n.

(** ** [float(str)]: the accepted syntax

    On the ASCII form, after stripping and removing (validated)
    underscores: an optional
    sign, then [inf], [infinity] or [nan] in any case, or a decimal
    numeral with at least one digit around an optional point and an
    optional exponent. *)

Fixpoint span_digits (s : str) : str * str :=
  match s with
  | c :: t =>
      if is_digit c then let '(ds, r) := span_digits t in (c :: ds, r)
      else ([], s)
  | [] => ([], [])
  end.

Definition to_lower (c : Z) : Z :=
  if (65 <=? c) && (c <=? 90) then c + 32 else c.

Definition str_eqb (a b : str) : bool := bool_decide (a = b).

Definition is_inf_or_nan (body : str) : bool :=
  let l := map to_lower body in
  str_eqb l (py "inf") || str_eqb l (py "infinity") || str_eqb l (py "nan").

Definition exponent_ok (r : str) : bool :=
  match r with
  | [] => true
  | e :: r1 =>
      if (e =? 101) || (e =? 69) then
        let '(ds, r2) := span_digits (snd (split_sign r1)) in
        negb (str_empty ds) && str_empty r2
      else false
  end.

Definition float_syntax (t : str) : bool :=
  let body := snd (split_sign t) in
  if is_inf_or_nan body then true
  else
    let '(ip, r1) := span_digits body in
    let '(fp, r2) := match r1 with
                     | c :: r => if c =? 46 then span_digits r else ([], r1)
                     | [] => ([], r1)
                     end in
    negb (str_empty ip && str_empty fp) && exponent_ok r2.

Definition float_ascii_ok (v : str) : bool :=
  let t := strip v in
  underscores_ok 0 t && float_syntax (remove_underscores t).

Definition py_float_ok `{Interpreter} (v : str) : bool :=
  float_ascii_ok (ascii_form v).

(** ** External libraries as interfaces *)

(** [zlib.compress] and [zlib.decompress].  The compressed bytes are
    opaque; what the library guarantees is that decompression inverts
    compression ([lossless]), which the theorems about reading back what
    was written assume.  Invalid input makes [decompress] raise
    [zlib.error]. *)
Class Zlib := {
  compress : bytes -> bytes;
  decompress : bytes -> result bytes
}.

Definition lossless `{Zlib} : Prop :=
  forall b, decompress (compress b) = OK b.

(** Doubles are modelled by their IEEE-754 binary64 bit pattern, an integer
    in [0, 2^64): [struct.pack('<d', x)] writes exactly these 8 bytes.
    [strtod] is the correctly rounded value of a numeral that [float]
    accepts and [float_repr] is [repr] on floats.  Python guarantees that
    [float(repr(x)) == x] for every finite [x]; the theorem that needs this
    law assumes it ([repr_law]). *)
Definition is_finite (b : Z) : bool := negb ((b / 2 ^ 52) mod 2 ^ 11 =? 2047).

Class Float := {
  strtod : str -> Z;
  float_repr : Z -> str
}.

(** [float(v)]; the pattern is kept within 64 bits. *)
Definition py_float `{Float, Interpreter} (v : str) : option Z :=
  if py_float_ok v then Some (strtod v mod 2 ^ 64) else None.

(** [struct.pack('<d', x)] and [struct.unpack('<d', bs)]. *)
Definition pack_d (b : Z) : bytes := le_bytes 8 b.
Definition unpack_d (bs : bytes) : result Z := unpack_u 8 bs.

(** ** The format *)

Definition MAGIC : bytes := [67; 67; 70; 118; 49; 0; 0].
Definition VERSION : Z := 1.

Definition DT_INT32 : Z := 0.
Definition DT_FLOAT64 : Z := 1.
Definition DT_STRING : Z := 2.

Definition infer_type `{Interpreter} (values : list str) : Z :=
  let '(is_int, is_float) :=
    fold_left
      (fun '(is_int, is_float) v =>
         if str_empty v then (is_int, is_float)
         else
           match py_int v with
           | Some _ => (is_int, is_float)
           | None => (false, if py_float_ok v then is_float else false)
           end)
      values (true, true) in
  if is_int then DT_INT32
  else if is_float then DT_FLOAT64
  else DT_STRING.

Record ColumnMeta := {
  name : str;
  dtype : Z;
  offset : Z;
  compressed_size : Z;
  uncompressed_size : Z
}.

(** ** Column blocks: encoding *)

(** The loop that sets bit [i % 8] of byte [i // 8] for every empty value;
    [i] is the index of the head of [values]. *)
Fixpoint mark_nulls (i : nat) (values : list str) (null_bitmap : bytes) : bytes :=
  match values with
  | [] => null_bitmap
  | v :: vs =>
      mark_nulls (S i) vs
        (if str_empty v then
           alter (fun b => Z.lor b (Z.shiftl 1 (Z.of_nat (i mod 8)))) (i / 8)%nat
                 null_bitmap
         else null_bitmap)
  end.

Definition build_null_bitmap (num_rows : nat) (values : list str) : bytes :=
  let nb_len := ((num_rows + 7) / 8)%nat in
  mark_nulls 0 values (replicate nb_len 0).

Definition int_or_raise `{Interpreter} (v : str) : result Z :=
  match py_int v with
  | Some n => OK n
  | None => Err ValueError
  end.

Definition float_or_raise `{Float, Interpreter} (v : str) : result Z :=
  match py_float v with
  | Some b => OK b
  | None => Err ValueError
  end.

Definition encode_int32 `{Interpreter} (v : str) : result bytes :=
  if str_empty v then pack_i32 0
  else n <- int_or_raise v ;; pack_i32 n.

Definition encode_float64 `{Float, Interpreter} (v : str) : result bytes :=
  if str_empty v then OK (pack_d 0)
  else b <- float_or_raise v ;; OK (pack_d b).

(** One iteration of the STRING loop on the pair [(offsets, strings_buf)]. *)
Definition string_step (st : list Z * bytes) (v : str) : result (list Z * bytes) :=
  let '(offsets, strings_buf) := st in
  if str_empty v then OK (offsets ++ [List.last offsets 0], strings_buf)
  else
    b <- utf8_encode v ;;
    OK (offsets ++ [List.last offsets 0 + len b], strings_buf ++ b).

Definition encode_strings (values : list str) : result bytes :=
  st <- foldM string_step values ([0], []) ;;
  offs <- mapM pack_u32 (fst st) ;;
  OK (concat offs ++ snd st).

(** The uncompressed buffer of one column. *)
Definition encode_column `{Float, Interpreter} (num_rows : nat) (dtype : Z)
    (values : list str) : result bytes :=
  let null_bitmap := build_null_bitmap num_rows values in
  nb <- pack_u32 (len null_bitmap) ;;
  payload <-
    (if dtype =? DT_INT32 then
       chunks <- mapM encode_int32 values ;; OK (concat chunks)
     else if dtype =? DT_FLOAT64 then
       chunks <- mapM encode_float64 values ;; OK (concat chunks)
     else if dtype =? DT_STRING then encode_strings values
     else Err ValueError) ;;
  OK (nb ++ null_bitmap ++ payload).

(** ** Writer *)

Module CCFWriter.
Section Write.
Context {zlib : Zlib} {fl : Float} {interp : Interpreter}.

(** [cols_values[i]] collects [r[i] if i < len(r) else ''] over the rows. *)
Definition cell (r : list str) (i : nat) : str :=
  match r !! i with
  | Some v => v
  | None => []
  end.

Definition transpose (num_cols : nat) (rows : list (list str)) : list (list str) :=
  map (fun i => map (fun r => cell r i) rows) (seq 0 num_cols).

(** The body of the loop over [zip(header_cols, cols_values)]: the
    compressed block and its metadata (the offset is assigned later). *)
Definition encode_block (num_rows : nat) (col : (str * Z) * list str)
    : result (bytes * ColumnMeta) :=
  let '((nm, dt), values) := col in
  uncompressed <- encode_column num_rows dt values ;;
  let compressed := compress uncompressed in
  OK (compressed,
      {| name := nm; dtype := dt; offset := 0;
         compressed_size := len compressed;
         uncompressed_size := len uncompressed |}).

(** One directory entry; [off] is what is written in the offset field. *)
Definition header_entry (col : str * Z) (off : Z) (meta : ColumnMeta)
    : result bytes :=
  name_b <- utf8_encode (fst col) ;;
  l <- pack_u16 (len name_b) ;;
  d <- pack_u8 (snd col) ;;
  o <- pack_u64 off ;;
  c <- pack_u64 (compressed_size meta) ;;
  u <- pack_u64 (uncompressed_size meta) ;;
  OK (l ++ name_b ++ d ++ o ++ c ++ u).

(** First pass: every offset field holds the placeholder 0. *)
Definition header_placeholder (header_cols : list (str * Z))
    (meta_list : list ColumnMeta) : result bytes :=
  es <- mapM (fun '(col, meta) => header_entry col 0 meta)
             (zip header_cols meta_list) ;;
  OK (concat es).

(** Second pass: the offsets assigned to the metadata. *)
Definition header_final (header_cols : list (str * Z))
    (meta_list : list ColumnMeta) : result bytes :=
  es <- mapM (fun '(col, meta) => header_entry col (offset meta) meta)
             (zip header_cols meta_list) ;;
  OK (concat es).

Definition set_offset (meta : ColumnMeta) (current : Z) : ColumnMeta :=
  {| name := name meta; dtype := dtype meta; offset := current;
     compressed_size := compressed_size meta;
     uncompressed_size := uncompressed_size meta |}.

Fixpoint assign_offsets (current : Z) (meta_list : list ColumnMeta)
    : list ColumnMeta :=
  match meta_list with
  | [] => []
  | meta :: ms =>
      set_offset meta current
      :: assign_offsets (current + compressed_size meta) ms
  end.

Definition prefix_size : Z := len MAGIC + 1 + 4 + 8 + 2.

(** [CCFWriter.write]: the bytes of the file, or the exception raised
    before the file is opened. *)
Definition write (header_cols : list (str * Z)) (rows : list (list str))
    : result bytes :=
  let num_rows := length rows in
  let num_cols := length header_cols in
  let cols_values := transpose num_cols rows in
  encoded <- mapM (encode_block num_rows) (zip header_cols cols_values) ;;
  let blocks := map fst encoded in
  let meta_list := map snd encoded in
  header_content <- header_placeholder header_cols meta_list ;;
  let header_size := len header_content in
  let meta_list := assign_offsets (prefix_size + header_size) meta_list in
  header_content <- header_final header_cols meta_list ;;
  let header_size := len header_content in
  v <- pack_u8 VERSION ;;
  hs <- pack_u32 header_size ;;
  nr <- pack_u64 (Z.of_nat num_rows) ;;
  nc <- pack_u16 (len meta_list) ;;
  OK (MAGIC ++ v ++ hs ++ nr ++ nc ++ header_content ++ concat blocks).
End Write.
End CCFWriter.

(** ** Column blocks: decoding *)

(** [f.read(n)] on a stream: what is read and what remains. *)
Definition read (n : nat) (buf : bytes) : bytes * bytes :=
  (take n buf, drop n buf).

(** The closure [is_null(i)] of [read_column]; indexing past the bitmap
    raises [IndexError]. *)
Definition is_null (null_bitmap : bytes) (i : nat) : result bool :=
  match null_bitmap !! (i / 8)%nat with
  | Some b => OK (Z.land (Z.shiftr b (Z.of_nat (i mod 8))) 1 =? 1)
  | None => Err IndexError
  end.

Section Decode.
Context {fl : Float}.

(** The INT32 loop, from row [i], for [n] more rows. *)
Fixpoint decode_int32 (null_bitmap : bytes) (i n : nat) (buf : bytes)
    : result (list (option str)) :=
  match n with
  | O => OK []
  | S n' =>
      let '(bs, buf') := read 4 buf in
      v <- unpack_i32 bs ;;
      nul <- is_null null_bitmap i ;;
      values <- decode_int32 null_bitmap (S i) n' buf' ;;
      OK ((if nul then None else Some (py_str v)) :: values)
  end.

Fixpoint decode_float64 (null_bitmap : bytes) (i n : nat) (buf : bytes)
    : result (list (option str)) :=
  match n with
  | O => OK []
  | S n' =>
      let '(bs, buf') := read 8 buf in
      v <- unpack_d bs ;;
      nul <- is_null null_bitmap i ;;
      values <- decode_float64 null_bitmap (S i) n' buf' ;;
      OK ((if nul then None else Some (float_repr v)) :: values)
  end.

(** The list comprehension that reads [n] offsets. *)
Fixpoint read_offsets (n : nat) (buf : bytes) : result (list Z * bytes) :=
  match n with
  | O => OK ([], buf)
  | S n' =>
      let '(bs, buf') := read 4 buf in
      off <- unpack_u 4 bs ;;
      r <- read_offsets n' buf' ;;
      OK (off :: fst r, snd r)
  end.

(** [offsets[i]]; out of range raises [IndexError]. *)
Definition index (offsets : list Z) (i : nat) : result Z :=
  match offsets !! i with
  | Some off => OK off
  | None => Err IndexError
  end.

Fixpoint decode_strings (null_bitmap : bytes) (offsets : list Z)
    (concat : bytes) (i n : nat) : result (list (option str)) :=
  match n with
  | O => OK []
  | S n' =>
      nul <- is_null null_bitmap i ;;
      v <- (if nul then OK None
            else
              a <- index offsets i ;;
              b <- index offsets (S i) ;;
              s <- utf8_decode (slice concat (Z.to_nat a) (Z.to_nat b)) ;;
              OK (Some s)) ;;
      values <- decode_strings null_bitmap offsets concat (S i) n' ;;
      OK (v :: values)
  end.

(** [read_column] after decompression: the buffer [un], the declared type
    and the row count of the file. *)
Definition decode_column (num_rows : nat) (dtype : Z) (un : bytes)
    : result (list (option str)) :=
  let '(bs, buf) := read 4 un in
  nb_len <- unpack_u 4 bs ;;
  let '(null_bitmap, buf) := read (Z.to_nat nb_len) buf in
  if dtype =? DT_INT32 then decode_int32 null_bitmap 0 num_rows buf
  else if dtype =? DT_FLOAT64 then decode_float64 null_bitmap 0 num_rows buf
  else if dtype =? DT_STRING then
    r <- read_offsets (num_rows + 1) buf ;;
    decode_strings null_bitmap (fst r) (snd r) 0 num_rows
  else Err ValueError.
End Decode.

(** ** Reader *)

Module CCFReader.

(** A reader: the bytes of the file at [path] and what [_read_header]
    stored. *)
Record t := {
  file : bytes;
  num_rows : Z;
  num_cols : Z;
  columns_meta : list ColumnMeta
}.

(** The loop over the directory, at position [p] of [header_bytes], for
    [n] more entries. *)
Fixpoint read_metas (header_bytes : bytes) (n : nat) (p : nat)
    : result (list ColumnMeta) :=
  match n with
  | O => OK []
  | S n' =>
      name_len <- unpack_from_u 2 header_bytes p ;;
      let p := (p + 2)%nat in
      nm <- utf8_decode (slice header_bytes p (p + Z.to_nat name_len)) ;;
      let p := (p + Z.to_nat name_len)%nat in
      dt <- unpack_from_u 1 header_bytes p ;;
      let p := (p + 1)%nat in
      off <- unpack_from_u 8 header_bytes p ;;
      let p := (p + 8)%nat in
      comp_size <- unpack_from_u 8 header_bytes p ;;
      let p := (p + 8)%nat in
      uncomp_size <- unpack_from_u 8 header_bytes p ;;
      let p := (p + 8)%nat in
      metas <- read_metas header_bytes n' p ;;
      OK ({| name := nm; dtype := dt; offset := off;
             compressed_size := comp_size;
             uncompressed_size := uncomp_size |} :: metas)
  end.

(** Construction: [__init__] followed by [_read_header]. *)
Definition _read_header (f : bytes) : result t :=
  let '(magic, f1) := read (length MAGIC) f in
  if negb (str_eqb magic MAGIC) then Err ValueError
  else
    let '(b, f2) := read 1 f1 in
    version <- unpack_u 1 b ;;
    let '(b, f3) := read 4 f2 in
    header_size <- unpack_u 4 b ;;
    let '(b, f4) := read 8 f3 in
    nrows <- unpack_u 8 b ;;
    let '(b, f5) := read 2 f4 in
    ncols <- unpack_u 2 b ;;
    let '(header_bytes, _) := read (Z.to_nat header_size) f5 in
    metas <- read_metas header_bytes (Z.to_nat ncols) 0 ;;
    OK {| file := f; num_rows := nrows; num_cols := ncols;
          columns_meta := metas |}.

Definition list_columns (r : t) : list (Z * str * Z) :=
  imap (fun i m => (Z.of_nat i, name m, dtype m)) (columns_meta r).

(** The first entry whose name is [col_name]. *)
Fixpoint find_meta (metas : list ColumnMeta) (col_name : str)
    : option ColumnMeta :=
  match metas with
  | [] => None
  | m :: ms => if str_eqb (name m) col_name then Some m else find_meta ms col_name
  end.

Section Read.
Context {zlib : Zlib} {fl : Float}.

Definition read_column (r : t) (col_name : str)
    : result (list (option str)) :=
  match find_meta (columns_meta r) col_name with
  | None => Err KeyError
  | Some meta =>
      let f := drop (Z.to_nat (offset meta)) (file r) in
      let '(comp, _) := read (Z.to_nat (compressed_size meta)) f in
      un <- decompress comp ;;
      decode_column (Z.to_nat (num_rows r)) (dtype meta) un
  end.

(** [read_table]: [columns = None] is the default argument. *)
Definition read_table (r : t) (columns : option (list str))
    : result (list str * list (list str)) :=
  let columns :=
    match columns with
    | None => map name (columns_meta r)
    | Some cs => cs
    end in
  data <- mapM (fun nm => read_column r nm) columns ;;
  rows <- mapM (fun i =>
                  mapM (fun col =>
                          match col !! i with
                          | Some None => OK []
                          | Some (Some val) => OK val
                          | None => Err IndexError
                          end) data)
               (seq 0 (Z.to_nat (num_rows r))) ;;
  OK (columns, rows).
End Read.
End CCFReader.


(** ** Instances used to run the model

    [stored_zlib] writes real zlib streams made of stored (uncompressed)
    deflate blocks, what [zlib.compress(data, 0)] produces, and reads such
    streams back; [toy_float] reads a numeral as the bit pattern itself;
    [sample_interpreter] knows a few non-ASCII spaces and digits.  They
    show that the interfaces and the assumed laws can be met and let the
    scenarios of the format be evaluated on concrete files. *)

Definition adler_step (st : Z * Z) (x : Z) : Z * Z :=
  let '(a, b) := st in
  let a' := (a + x) mod 65521 in
  (a', (b + a') mod 65521).

Definition adler32 (data : bytes) : Z :=
  let '(a, b) := fold_left adler_step data (1, 0) in
  b * 65536 + a.

(** Stored blocks of at most 65535 bytes: the header byte (1 on the last
    block), the length and its complement, then the bytes. *)
Definition block_max : nat := Z.to_nat 65535.

Fixpoint stored_blocks (fuel : nat) (data : bytes) : bytes :=
  match fuel with
  | O => []
  | S f =>
      if len data <=? 65535 then
        [1] ++ le_bytes 2 (len data) ++ le_bytes 2 (65535 - len data) ++ data
      else
        [0] ++ le_bytes 2 65535 ++ le_bytes 2 0 ++ take block_max data
        ++ stored_blocks f (drop block_max data)
  end.

Definition stored_compress (data : bytes) : bytes :=
  [0x78; 0x01]
  ++ stored_blocks (S (length data / block_max)) data
  ++ rev (le_bytes 4 (adler32 data)).

(** Inflating a sequence of stored blocks: the output and what follows the
    last block.  Blocks of the other two types are rejected. *)
Fixpoint inflate_stored (fuel : nat) (s : bytes) : result (bytes * bytes) :=
  match fuel with
  | O => Err ZlibError
  | S f =>
      let '(hdr, s1) := read 1 s in
      let '(lb, s2) := read 2 s1 in
      let '(nlb, s3) := read 2 s2 in
      if (length hdr =? 1)%nat && (length lb =? 2)%nat && (length nlb =? 2)%nat
         && ((le_val hdr / 2) mod 4 =? 0)
         && (le_val lb + le_val nlb =? 65535)
         && (Z.to_nat (le_val lb) <=? length s3)%nat
      then
        let '(chunk, s4) := read (Z.to_nat (le_val lb)) s3 in
        if le_val hdr mod 2 =? 1 then OK (chunk, s4)
        else r <- inflate_stored f s4 ;; OK (chunk ++ fst r, snd r)
      else Err ZlibError
  end.

Definition stored_decompress (s : bytes) : result bytes :=
  let '(h, body) := read 2 s in
  match h with
  | [cmf; flg] =>
      if (cmf mod 16 =? 8) && (cmf / 16 <=? 7)
         && ((cmf * 256 + flg) mod 31 =? 0) && ((flg / 32) mod 2 =? 0)
      then
        r <- inflate_stored (length body) body ;;
        let trailer := take 4 (snd r) in
        if (length trailer =? 4)%nat
           && (le_val (rev trailer) =? adler32 (fst r))
        then OK (fst r)
        else Err ZlibError
      else Err ZlibError
  | _ => Err ZlibError
  end.

Definition stored_zlib : Zlib :=
  {| compress := stored_compress; decompress := stored_decompress |}.

Definition toy_float : Float :=
  {| strtod s := match int_from_ascii 0 s with Some n => n | None => 0 end;
     float_repr b := py_str b |}.

(** The default limit on numerals and a few entries of the Unicode tables:
    the no-break and ideographic spaces, the Arabic-Indic and the fullwidth
    digits. *)
Definition sample_interpreter : Interpreter :=
  {| int_max_str_digits := 4300;
     unicode_space c := (c =? 0xA0) || (c =? 0x3000);
     unicode_decimal c :=
       if (0x660 <=? c) && (c <=? 0x669) then Some (c - 0x660)
       else if (0xFF10 <=? c) && (c <=? 0xFF19) then Some (c - 0xFF10)
       else None |}.

(** The writer and the reader on these instances. *)
Definition sample_write :=
  @CCFWriter.write stored_zlib toy_float sample_interpreter.
Definition sample_read_column := @CCFReader.read_column stored_zlib toy_float.

(** ** Vocabulary of the statements and scenarios of the format *)

Definition digit_step (a d : Z) : Z := 10 * a + (d - 48).

(** Bit [j] of a bitmap, false past its end. *)
Definition bitmap_bit (bm : bytes) (j : nat) : bool :=
  match bm !! (j / 8)%nat with
  | Some b => Z.testbit b (Z.of_nat (j mod 8))
  | None => false
  end.

(** What a reader gets back for the text [v] written under [dtype]. *)
Definition decoded `{Float, Interpreter} (dtype : Z) (v : str) : option str :=
  if str_empty v then None
  else if dtype =? DT_INT32 then option_map py_str (py_int v)
  else if dtype =? DT_FLOAT64 then option_map float_repr (py_float v)
  else Some v.

(** The UTF-8 bytes of a name that can be encoded. *)
Definition name_utf8 (nm : str) : bytes :=
  match utf8_encode nm with
  | OK b => b
  | Err _ => []
  end.

Definition entry_size (col : str * Z) : Z :=
  2 + len (name_utf8 (fst col)) + 1 + 8 + 8 + 8.

Definition directory_size (header_cols : list (str * Z)) : Z :=
  fold_right (fun col acc => entry_size col + acc) 0 header_cols.

(** Consecutive byte ranges starting at [start]. *)
Fixpoint chained (start : Z) (metas : list ColumnMeta) : Prop :=
  match metas with
  | [] => True
  | m :: ms => offset m = start /\ chained (start + compressed_size m) ms
  end.

(** The metadata agrees with the schema on names and types. *)
Definition same_columns (header_cols : list (str * Z))
    (metas : list ColumnMeta) : Prop :=
  Forall2 (fun col m => name m = fst col /\ dtype m = snd col)
          header_cols metas.

(** [v] is empty or [int(v)] succeeds; [v] is empty or [float(v)] succeeds. *)
Definition int_or_empty `{Interpreter} (v : str) : bool :=
  str_empty v || match py_int v with Some _ => true | None => false end.

Definition float_or_empty `{Interpreter} (v : str) : bool :=
  str_empty v || py_float_ok v.

(** [int(v)] succeeds; [float(v)] succeeds. *)
Definition parses_int `{Interpreter} (v : str) : Prop :=
  exists n, py_int v = Some n.
Definition parses_float `{Interpreter} (v : str) : Prop :=
  py_float_ok v = true.

(** Every non-empty value is accepted by [int]; by [float]. *)
Definition all_int `{Interpreter} (values : list str) : Prop :=
  Forall (fun v => v <> [] -> parses_int v) values.
Definition all_float `{Interpreter} (values : list str) : Prop :=
  Forall (fun v => v <> [] -> parses_float v) values.

(** Columns of each inferred type, and a column of nulls. *)
Definition int_values : list str := [py "1"; py ""; py "+5"].
Definition float_values : list str := [py "1"; py "2.5"; py ""].
Definition text_values : list str := [py "1"; py "x"].
Definition null_values : list str := [py ""; py ""].

(** Scenario S1: one INT32 column with a null. *)
Definition S1_schema : list (str * Z) := [(py "age", DT_INT32)].
Definition S1_rows : list (list str) := [[py "30"]; [py ""]; [py "42"]; [py "7"]].

Definition S1_file : bytes :=
  Eval vm_compute in
    match sample_write S1_schema S1_rows with
    | OK f => f
    | Err _ => []
    end.

(** A table whose INT32 cells are written in non-canonical forms. *)
Definition noncanonical_rows : list (list str) :=
  [[py "+5"]; [py " 7 "]; [py "1_000"]; [py ""]].

Definition noncanonical_file : bytes :=
  Eval vm_compute in
    match sample_write S1_schema noncanonical_rows with
    | OK f => f
    | Err _ => []
    end.

(** Scenario S2: one STRING column with an empty value. *)
Definition S2_values : list str := [py "alice"; py ""; py "bob"; py "carol"].

Definition S2_file : bytes :=
  Eval vm_compute in
    match sample_write [(py "name", DT_STRING)]
            (map (fun v => [v]) S2_values) with
    | OK f => f
    | Err _ => []
    end.

(** A row cut or right-padded with empty strings to exactly [n] cells. *)
Definition fit (n : nat) (r : list str) : list str :=
  take n r ++ replicate (n - length r) [].

Definition S6_schema : list (str * Z) := [(py "a", DT_INT32); (py "b", DT_STRING)].
Definition S6_rows : list (list str) :=
  [[py "1"]; [py "2"; py "hello"]; [py "3"; py "hi"; py "extra"]].

Definition S6_file : bytes :=
  Eval vm_compute in
    match sample_write S6_schema S6_rows with
    | OK f => f
    | Err _ => []
    end.

(** Scenario S3: one FLOAT64 column with a null. *)
Definition S3_rows : list (list str) := [[py "1.5"]; [py "2"]; [py ""]; [py "-3.25"]].

(** [sample_float] knows the doubles of scenario S3 by their bit patterns
    and their shortest renderings; any other numeral is read as the bit
    pattern itself, which is rendered with a leading zero. *)
Definition sample_float : Float :=
  {| strtod s :=
       if str_eqb s (py "1.5") then 0x3FF8000000000000
       else if str_eqb s (py "2") || str_eqb s (py "2.0")
       then 0x4000000000000000
       else if str_eqb s (py "-3.25") then 0xC00A000000000000
       else match int_from_ascii 0 s with Some n => n | None => 0 end;
     float_repr b :=
       if b =? 0x3FF8000000000000 then py "1.5"
       else if b =? 0x4000000000000000 then py "2.0"
       else if b =? 0xC00A000000000000 then py "-3.25"
       else 48 :: py_str b |}.

Definition S3_file : bytes :=
  Eval vm_compute in
    match @CCFWriter.write stored_zlib sample_float sample_interpreter
            [(py "x", DT_FLOAT64)] S3_rows with
    | OK f => f
    | Err _ => []
    end.

(** What construction leaves in the reader, apart from the file itself. *)
Definition header_view (m : result CCFReader.t)
    : result (Z * Z * list ColumnMeta) :=
  r <- m ;;
  OK (CCFReader.num_rows r, CCFReader.num_cols r, CCFReader.columns_meta r).

(** The file of scenario S1 with its VERSION byte set to 2. *)
Definition version2_file : bytes := Eval vm_compute in <[7%nat := 2]> S1_file.

Definition S1_meta : ColumnMeta :=
  {| name := py "age"; dtype := 0; offset := 52;
     compressed_size := 32; uncompressed_size := 21 |}.

Definition S1_reader : CCFReader.t :=
  {| CCFReader.file := S1_file; CCFReader.num_rows := 4;
     CCFReader.num_cols := 1; CCFReader.columns_meta := [S1_meta] |}.

(** A file of two rows and one STRING column [s] whose block carries the
    offsets [offs] and the payload [payload], no row being null. *)
Definition string_block (offs : list Z) (payload : bytes) : bytes :=
  le_bytes 4 1 ++ [0] ++ concat (map (le_bytes 4) offs) ++ payload.

Definition string_file (offs : list Z) (payload : bytes) : bytes :=
  let un := string_block offs payload in
  let block := stored_compress un in
  MAGIC ++ le_bytes 1 VERSION ++ le_bytes 4 28 ++ le_bytes 8 2 ++ le_bytes 2 1
  ++ (le_bytes 2 1 ++ [115] ++ le_bytes 1 DT_STRING ++ le_bytes 8 50
      ++ le_bytes 8 (len block) ++ le_bytes 8 (len un))
  ++ block.

(** Offsets that decrease, and a last offset past the end of the payload. *)
Definition decreasing_offsets_file : bytes :=
  Eval vm_compute in string_file [0; 3; 1] [97; 98; 99].
Definition overlong_offsets_file : bytes :=
  Eval vm_compute in string_file [0; 2; 9] [97; 98; 99].

(** ** The command line and the scripts

    [csv.reader], [csv.writer], [argparse] and the file system stay outside:
    a CSV file is the list of rows that [csv.reader] yields, an option of
    the command line is [None] when absent, and the result of a conversion
    is what is handed to the file or to [csv.writer].

    [run_roundtrip] of [tests/test_roundtrip.py] has no definition here:
    the [import csv] inside its body makes [csv] a local name of the whole
    function, so its first use, [csv.reader(f)], raises [UnboundLocalError]
    on every call, before a row is read.  What the script was written to
    do, a conversion followed by the conversion back, is what the two
    functions of the command line do in a row. *)

(** [s.split(sep)] for a separator of one character. *)
Fixpoint split (sep : Z) (s : str) : list str :=
  match s with
  | [] => [[]]
  | c :: t =>
      if c =? sep then [] :: split sep t
      else
        match split sep t with
        | w :: ws => (c :: w) :: ws
        | [] => [[c]]
        end
  end.

(** The type word of a [--schema] entry; any unknown word means STRING. *)
Definition schema_type (typ : str) : Z :=
  if str_eqb typ (py "int") || str_eqb typ (py "int32") then DT_INT32
  else if str_eqb typ (py "float") || str_eqb typ (py "float64") then DT_FLOAT64
  else DT_STRING.

(** [name, typ = p.split(':')] raises [ValueError] unless there are exactly
    two parts. *)
Definition schema_entry (p : str) : result (str * Z) :=
  match split 58 p with
  | [nm; typ] => OK (nm, schema_type typ)
  | _ => Err ValueError
  end.

(** The loop over [args.schema.split(',')]. *)
Definition parse_schema (schema : str) : result (list (str * Z)) :=
  mapM schema_entry (split 44 schema).

(** One step of [zip]: [next] on every iterator in turn; [None] as soon as
    one is exhausted. *)
Fixpoint heads {A} (its : list (list A)) : option (list A * list (list A)) :=
  match its with
  | [] => Some ([], [])
  | [] :: _ => None
  | (x :: t) :: its' =>
      match heads its' with
      | Some (hs, ts) => Some (x :: hs, t :: ts)
      | None => None
      end
  end.

Fixpoint zip_rows {A} (fuel : nat) (its : list (list A)) : list (list A) :=
  match fuel with
  | O => []
  | S fuel' =>
      match heads its with
      | Some (hs, ts) => hs :: zip_rows fuel' ts
      | None => []
      end
  end.

(** [zip] unpacked over the rows, as a list; without arguments [zip]
    yields nothing.  The first row is exhausted after as many steps as it
    has cells. *)
Definition zip_star {A} (rows : list (list A)) : list (list A) :=
  match rows with
  | [] => []
  | r :: _ => zip_rows (length r) rows
  end.

(** The inference of a schema from the header and the data rows, as
    [csv_to_custom_cli] does it; the test script repeats the same lines. *)
Definition infer_schema `{Interpreter} (header : list str)
    (data_rows : list (list str)) : list (str * Z) :=
  let cols_values :=
    match data_rows with
    | [] => replicate (length header) (replicate (length header) [])
    | _ => zip_star data_rows
    end in
  map (fun '(nm, colvals) => (nm, infer_type colvals)) (zip header cols_values).

(** [header.index(COLUMN)]: the first position, [ValueError] if there is
    none. *)
Fixpoint list_index (l : list str) (x : str) : result nat :=
  match l with
  | [] => Err ValueError
  | y :: l' =>
      if str_eqb y x then OK 0%nat else i <- list_index l' x ;; OK (S i)
  end.

(** The CSV side of [benchmark.py], once [next(rdr)] has given [header]:
    the cells of column [COLUMN] in the rows that remain. *)
Definition csv_column (header : list str) (rows : list (list str))
    (COLUMN : str) : result (list str) :=
  idx <- list_index header COLUMN ;;
  OK (map (fun row => match row !! idx with Some v => v | None => [] end) rows).

Section Scripts.
Context {zlib : Zlib} {fl : Float} {interp : Interpreter}.

(** [csv_to_custom_cli] on the rows of the input and the [--schema]
    option: the bytes written to [--out], or [None] when the input is empty
    and nothing is written. *)
Definition csv_to_custom_cli (rows : list (list str)) (schema_arg : option str)
    : result (option bytes) :=
  match rows with
  | [] => OK None
  | header :: data_rows =>
      schema <- match schema_arg with
                | Some (c :: s) => parse_schema (c :: s)
                | _ => OK (infer_schema header data_rows)
                end ;;
      f <- CCFWriter.write schema data_rows ;;
      OK (Some f)
  end.

(** [custom_to_csv_cli] on the bytes of the input and the [--columns]
    option: the rows given to [csv.writer], the names first. *)
Definition custom_to_csv_cli (f : bytes) (columns_arg : option str)
    : result (list (list str)) :=
  reader <- CCFReader._read_header f ;;
  let cols := match columns_arg with
              | Some (c :: s) => Some (split 44 (c :: s))
              | _ => None
              end in
  t <- CCFReader.read_table reader cols ;;
  OK (fst t :: snd t).
End Scripts.

(** ** Vocabulary for tables *)

(** A value read back, as [read_table] puts it in a row. *)
Definition text (o : option str) : str :=
  match o with
  | Some v => v
  | None => []
  end.

(** The first column of the schema that carries the name [nm]: its index
    (counted from [j]) and its type. *)
Fixpoint first_named (header_cols : list (str * Z)) (nm : str) (j : nat)
    : option (nat * Z) :=
  match header_cols with
  | [] => None
  | col :: cols =>
      if str_eqb (fst col) nm then Some (j, snd col)
      else first_named cols nm (S j)
  end.

(** What comes back for the row [row] under the name [nm]. *)
Definition read_back `{Float, Interpreter} (header_cols : list (str * Z))
    (row : list str) (nm : str) : str :=
  match first_named header_cols nm 0 with
  | Some (j, dt) => text (decoded dt (CCFWriter.cell row j))
  | None => []
  end.

(** A file with two columns named [a]: an INT32 one, then a STRING one. *)
Definition twice_schema : list (str * Z) :=
  [(py "a", DT_INT32); (py "a", DT_STRING)].
Definition twice_rows : list (list str) := [[py "1"; py "x"]; [py "2"; py "y"]].

Definition twice_file : bytes :=
  Eval vm_compute in
    match sample_write twice_schema twice_rows with
    | OK f => f
    | Err _ => []
    end.

(** The signed 32-bit range of [struct.pack('<i', n)]. *)
Definition int32_range (n : Z) : bool := (- 2 ^ 31 <=? n) && (n <? 2 ^ 31).

(** The writer can encode the cell [v] in a column of type [dtype]. *)
Definition cell_ok `{Interpreter} (dtype : Z) (v : str) : bool :=
  str_empty v ||
  (if dtype =? DT_INT32 then
     match py_int v with
     | Some n => int32_range n
     | None => false
     end
   else if dtype =? DT_FLOAT64 then py_float_ok v
   else is_ok (utf8_encode v)).

(** The number of UTF-8 bytes of the values of a column. *)
Definition utf8_size (values : list str) : Z :=
  fold_right (fun v acc => len (name_utf8 v) + acc) 0 values.

(** The running sums of the UTF-8 lengths of the values, from [start]. *)
Fixpoint string_offsets (start : Z) (values : list str) : list Z :=
  start :: match values with
           | [] => []
           | v :: vs => string_offsets (start + len (name_utf8 v)) vs
           end.

(** The size of what follows the bitmap in the block of a column. *)
Definition payload_size (dtype : Z) (values : list str) : Z :=
  if dtype =? DT_INT32 then 4 * len values
  else if dtype =? DT_FLOAT64 then 8 * len values
  else 4 * (len values + 1) + utf8_size values.

(** The sum of the recorded compressed sizes. *)
Definition total_compressed (metas : list ColumnMeta) : Z :=
  fold_right (fun m acc => compressed_size m + acc) 0 metas.

(** What the writer needs of column [j] of the schema, given the rows. *)
Definition writable_column `{Interpreter} (rows : list (list str)) (j : nat)
    (col : str * Z) : Prop :=
  Z.of_nat ((length rows + 7) / 8) < 2 ^ 32 /\
  (snd col = DT_INT32 \/ snd col = DT_FLOAT64 \/ snd col = DT_STRING) /\
  (exists b, utf8_encode (fst col) = OK b /\ len b < 2 ^ 16) /\
  Forall (fun row => cell_ok (snd col) (CCFWriter.cell row j) = true) rows /\
  (snd col = DT_STRING ->
   utf8_size (map (fun row => CCFWriter.cell row j) rows) < 2 ^ 32).

(** The bound that zlib gives on the size of its output ([compressBound]). *)
Definition compress_bound `{Zlib} : Prop :=
  forall b, len (compress b)
            <= len b + len b / 2 ^ 12 + len b / 2 ^ 14 + len b / 2 ^ 25 + 13.

(** [sep.join(parts)] for a separator of one character. *)
Definition join (sep : Z) (parts : list str) : str :=
  match parts with
  | [] => []
  | p :: ps => p ++ concat (map (fun q => sep :: q) ps)
  end.

(** A [--schema] entry as it is typed: the name, a colon, the type word. *)
Definition render_entry (e : str * str) : str := fst e ++ [58] ++ snd e.

(** A text without comma and without colon. *)
Definition plain (s : str) : bool :=
  forallb (fun c => negb (c =? 44) && negb (c =? 58)) s.

(** The number of cells of the shortest row. *)
Definition shortest (rows : list (list str)) : nat :=
  match rows with
  | [] => 0%nat
  | r :: rs => fold_right (fun r' acc => Nat.min (length r') acc) (length r) rs
  end.

(** A small CSV input: a header and three data rows. *)
Definition sample_csv : list (list str) :=
  [[py "name"; py "age"]; [py "alice"; py "30"]; [py ""; py "42"];
   [py "carol"; py "+7"]].

Definition sample_ccf : bytes :=
  Eval vm_compute in
    match @csv_to_custom_cli stored_zlib toy_float sample_interpreter
            sample_csv None with
    | OK (Some f) => f
    | _ => []
    end.

(** A table with a column of each type and a row of nulls. *)
Definition mixed_schema : list (str * Z) :=
  [(py "n", DT_INT32); (py "x", DT_FLOAT64); (py "s", DT_STRING)].
Definition mixed_rows : list (list str) :=
  [[py "+5"; py "2"; py "hi"]; [py ""; py ""; py ""];
   [py "7"; py "10"; py "yo"]].

Definition mixed_file : bytes :=
  Eval vm_compute in
    match sample_write mixed_schema mixed_rows with
    | OK f => f
    | Err _ => []
    end.

(** * Properties *)

(** ** The exception monad *)

Lemma bind_OK {A B} (m : result A) (k : A -> result B) (b : B) :
  bind m k = OK b -> exists a, m = OK a /\ k a = OK b.
Proof. destruct m as [a|e]; simpl; [eauto | discriminate]. Qed.

(** Decompose a hypothesis [x <- m ;; k = OK b] into its steps. *)
Ltac inv_bind H :=
  let a := fresh "a" in
  let Ha := fresh "Ha" in
  apply bind_OK in H; destruct H as (a & Ha & H).

Ltac inv_binds :=
  repeat match goal with
         | H : bind _ _ = OK _ |- _ => inv_bind H
         | H : OK _ = OK _ |- _ => injection H as H; try subst
         | H : Err _ = OK _ |- _ => discriminate H
         end.

Lemma mapM_lookup {A B} (f : A -> result B) l ys i x :
  mapM f l = OK ys -> l !! i = Some x ->
  exists y, ys !! i = Some y /\ f x = OK y.
Proof.
  revert ys i; induction l as [|x' l IH]; simpl; intros ys i Hm Hi.
  - discriminate.
  - inv_binds. destruct i as [|i]; simpl in *.
    + injection Hi as ->. eauto.
    + eauto.
Qed.

(** ** Little-endian packing *)

Lemma length_le_bytes w x : length (le_bytes w x) = w.
Proof. revert x; induction w; simpl; intros; [done | by rewrite IHw]. Qed.

Lemma le_val_le_bytes w x :
  0 <= x < 256 ^ Z.of_nat w -> le_val (le_bytes w x) = x.
Proof.
  revert x; induction w as [|w IH]; intros x Hx.
  - simpl in *. lia.
  - cbn [le_bytes le_val]. rewrite IH.
    + pose proof (Z.div_mod x 256). lia.
    + rewrite Nat2Z.inj_succ, Z.pow_succ_r in Hx by lia.
      split; [apply Z.div_pos; lia | apply Z.div_lt_upper_bound; lia].
Qed.

Lemma pack_u_OK w x bs :
  pack_u w x = OK bs ->
  bs = le_bytes w x /\ 0 <= x < 256 ^ Z.of_nat w.
Proof.
  unfold pack_u. destruct (0 <=? x) eqn:H1; destruct (x <? 256 ^ Z.of_nat w) eqn:H2;
    simpl; intros Hp; try discriminate.
  injection Hp as <-. split; [done | lia].
Qed.

Lemma pack_u_length w x bs : pack_u w x = OK bs -> length bs = w.
Proof. intros (-> & _)%pack_u_OK. apply length_le_bytes. Qed.

Lemma unpack_pack_u w x bs : pack_u w x = OK bs -> unpack_u w bs = OK x.
Proof.
  intros (-> & Hx)%pack_u_OK. unfold unpack_u.
  rewrite length_le_bytes, Nat.eqb_refl. by rewrite le_val_le_bytes.
Qed.

Lemma unpack_le_bytes w y :
  0 <= y < 256 ^ Z.of_nat w -> unpack_u w (le_bytes w y) = OK y.
Proof.
  intros Hy. unfold unpack_u.
  rewrite length_le_bytes, Nat.eqb_refl. by rewrite le_val_le_bytes.
Qed.

Lemma unpack_pack_i32 x bs : pack_i32 x = OK bs -> unpack_i32 bs = OK x.
Proof.
  unfold pack_i32, unpack_i32.
  destruct (- 2 ^ 31 <=? x) eqn:H1; destruct (x <? 2 ^ 31) eqn:H2;
    cbn [andb]; intros Hp; try discriminate.
  assert (bs = le_bytes 4 (x mod 2 ^ 32)) as -> by congruence.
  rewrite unpack_le_bytes by (apply Z.mod_pos_bound; lia).
  cbn [bind]. f_equal.
  destruct (Z.ltb_spec (x mod 2 ^ 32) (2 ^ 31)) as [Hlt|Hge].
  - destruct (Z.le_gt_cases 0 x) as [Hx|Hx].
    + rewrite Z.mod_small; lia.
    + rewrite <- (Z.mod_add x 1) in Hlt by lia.
      rewrite Z.mod_small in Hlt; lia.
  - destruct (Z.le_gt_cases 0 x) as [Hx|Hx].
    + rewrite Z.mod_small in Hge; lia.
    + rewrite <- (Z.mod_add x 1) by lia.
      rewrite Z.mod_small; lia.
Qed.

Lemma pack_i32_length x bs : pack_i32 x = OK bs -> length bs = 4%nat.
Proof.
  unfold pack_i32. destruct (_ && _); intros Hp; [|discriminate].
  injection Hp as <-. reflexivity.
Qed.

Lemma unpack_pack_d b : 0 <= b < 2 ^ 64 -> unpack_d (pack_d b) = OK b.
Proof.
  intros Hb. unfold unpack_d, pack_d. by apply unpack_le_bytes.
Qed.

(** ** Slices and reads *)

Lemma read_app n (a b : bytes) :
  length a = n -> read n (a ++ b) = (a, b).
Proof.
  intros <-. unfold read. by rewrite take_app_length, drop_app_length.
Qed.

Lemma slice_app_mid {A} (pre x post : list A) :
  slice (pre ++ x ++ post) (length pre) (length pre + length x) = x.
Proof.
  unfold slice. rewrite drop_app_length.
  replace (length pre + length x - length pre)%nat with (length x) by lia.
  by rewrite take_app_length.
Qed.

Lemma unpack_from_at w x bs pre post :
  pack_u w x = OK bs ->
  unpack_from_u w (pre ++ bs ++ post) (length pre) = OK x.
Proof.
  intros Hp. unfold unpack_from_u.
  replace (length pre + w)%nat with (length pre + length bs)%nat
    by (by rewrite (pack_u_length _ _ _ Hp)).
  rewrite slice_app_mid. by apply unpack_pack_u.
Qed.

(** ** UTF-8 *)

(** Decide the comparisons of the goal one at a time, discarding the
    impossible branches by linear arithmetic over quotients and remainders. *)
Ltac zcases :=
  repeat match goal with
         | |- context [?a <=? ?b] =>
             destruct (Z.leb_spec a b);
             try (exfalso; Z.div_mod_to_equations; lia)
         | |- context [?a <? ?b] =>
             destruct (Z.ltb_spec a b);
             try (exfalso; Z.div_mod_to_equations; lia)
         end.

Lemma utf8_decode_cp c b rest :
  utf8_encode_cp c = OK b ->
  utf8_decode (b ++ rest) = (s <- utf8_decode rest ;; OK (c :: s)).
Proof.
  unfold utf8_encode_cp, is_surrogate.
  destruct (Z.ltb_spec c 0); [discriminate|].
  destruct (Z.ltb_spec 0x10FFFF c); [discriminate|].
  destruct (Z.leb_spec 0xD800 c); destruct (Z.leb_spec c 0xDFFF);
    cbn [orb andb]; try discriminate.
  all: destruct (Z.ltb_spec c 0x80);
    [|destruct (Z.ltb_spec c 0x800); [|destruct (Z.ltb_spec c 0x10000)]];
    intros [= <-]; cbn [app utf8_decode is_cont is_surrogate]; unfold is_cont, is_surrogate.
  all: zcases; cbn [andb negb orb].
  all: try (exfalso; Z.div_mod_to_equations; lia).
  all: try reflexivity.
  all: destruct (utf8_decode rest); cbn [bind]; try reflexivity.
  all: do 2 f_equal; Z.div_mod_to_equations; lia.
Qed.

Lemma utf8_decode_encode s b : utf8_encode s = OK b -> utf8_decode b = OK s.
Proof.
  revert b; induction s as [|c s IH]; simpl; intros b Hb.
  - by injection Hb as <-.
  - inv_binds. erewrite utf8_decode_cp by eassumption.
    by erewrite IH by eassumption.
Qed.

(** ** Decimal numerals *)

Lemma digits_value_fold ds : digits_value ds = fold_left digit_step ds 0.
Proof. reflexivity. Qed.

(** With enough fuel [digits_of] prepends to [acc] the digits of [n]: at
    least one, all of them digits, and read back they give [n]. *)
Lemma single_digit n acc :
  0 <= n < 10 ->
  let ds := [48 + n mod 10] in
  (48 + n mod 10) :: acc = ds ++ acc /\ ds <> [] /\
  forallb is_digit ds = true /\
  (forall a, fold_left digit_step ds a = a * 10 ^ len ds + n) /\
  length ds = 1%nat.
Proof.
  intros Hn ds. subst ds. rewrite Z.mod_small by lia.
  repeat split; [done| |].
  - cbn [forallb]. unfold is_digit.
    destruct (Z.leb_spec 48 (48 + n)), (Z.leb_spec (48 + n) 57); try lia; done.
  - intros a. change (len [48 + n]) with 1. cbn [fold_left].
    unfold digit_step. lia.
Qed.

Lemma digits_of_spec f n acc :
  0 <= n < 2 ^ Z.of_nat (S f) ->
  exists ds,
    digits_of (S f) n acc = ds ++ acc /\ ds <> [] /\
    forallb is_digit ds = true /\
    (forall a, fold_left digit_step ds a = a * 10 ^ len ds + n) /\
    (length ds <= S f)%nat.
Proof.
  revert n acc; induction f as [|f IH]; intros n acc Hn.
  - assert (n < 10) as Hlt by (change (2 ^ Z.of_nat 1) with 2 in Hn; lia).
    exists [48 + n mod 10]. cbn [digits_of].
    destruct (Z.ltb_spec n 10); [|lia].
    destruct (single_digit n acc) as (? & ? & ? & ? & ?); [lia|].
    repeat split; try done; cbn [length]; lia.
  - cbn [digits_of]. destruct (Z.ltb_spec n 10) as [Hlt|Hge].
    + exists [48 + n mod 10].
      destruct (single_digit n acc) as (? & ? & ? & ? & ?); [lia|].
      repeat split; try done; cbn [length]; lia.
    + destruct (IH (n / 10) ((48 + n mod 10) :: acc))
        as (ds & Hds & Hne & Hdig & Hval & Hlen).
      { rewrite Nat2Z.inj_succ, Z.pow_succ_r in Hn by lia.
        split; [apply Z.div_pos; lia | apply Z.div_lt_upper_bound; lia]. }
      exists (ds ++ [48 + n mod 10]). repeat split.
      * change (digits_of (S f) (n / 10) ((48 + n mod 10) :: acc)
                = (ds ++ [48 + n mod 10]) ++ acc).
        by rewrite Hds, <- app_assoc.
      * by destruct ds.
      * rewrite forallb_app, Hdig. cbn [forallb andb]. unfold is_digit.
        pose proof (Z.mod_pos_bound n 10).
        destruct (Z.leb_spec 48 (48 + n mod 10)), (Z.leb_spec (48 + n mod 10) 57);
          try lia; done.
      * intros a. rewrite fold_left_app, Hval. cbn [fold_left].
        unfold digit_step, len.
        rewrite length_app, Nat2Z.inj_add. cbn [length].
        rewrite Z.pow_add_r by lia. change (10 ^ Z.of_nat 1) with 10.
        pose proof (Z.div_mod n 10). lia.
      * rewrite length_app. cbn [length]. lia.
Qed.

Lemma py_str_nat_spec n :
  0 <= n ->
  py_str_nat n <> [] /\ forallb is_digit (py_str_nat n) = true /\
  digits_value (py_str_nat n) = n /\
  len (py_str_nat n) <= Z.log2 n + 1.
Proof.
  intros Hn. unfold py_str_nat.
  destruct (digits_of_spec (Z.to_nat (Z.log2 n)) n [])
    as (ds & Hds & Hne & Hdig & Hval & Hlen).
  { rewrite Nat2Z.inj_succ, Z2Nat.id by apply Z.log2_nonneg.
    split; [done|]. destruct (Z.eq_dec n 0) as [->|]; [done|].
    apply Z.log2_spec. lia. }
  rewrite Hds, app_nil_r. repeat split; try done.
  - rewrite digits_value_fold, Hval. lia.
  - pose proof (Z.log2_nonneg n). unfold len. lia.
Qed.

Lemma digit_not_space c : is_digit c = true -> is_space c = false.
Proof. unfold is_digit, is_space. zcases; try done. destruct (Z.eqb_spec c 32); [lia|done]. Qed.

Lemma digit_not_underscore c : is_digit c = true -> (c =? 95) = false.
Proof. unfold is_digit. zcases; try done. intros _. apply Z.eqb_neq. lia. Qed.

Lemma lstrip_id s :
  forallb (fun c => negb (is_space c)) s = true -> lstrip s = s.
Proof. destruct s as [|c s]; simpl; [done|]. by destruct (is_space c). Qed.

Lemma strip_id s :
  forallb (fun c => negb (is_space c)) s = true -> strip s = s.
Proof.
  intros Hs. unfold strip, rstrip. rewrite (lstrip_id s Hs).
  rewrite lstrip_id; [apply rev_involutive|].
  rewrite forallb_forall in *. intros c Hc. apply Hs. by apply in_rev.
Qed.

Lemma underscores_ok_digits prev ds :
  (prev =? 95) = false -> forallb is_digit ds = true ->
  underscores_ok prev ds = true.
Proof.
  revert prev; induction ds as [|d ds IH]; simpl; intros prev Hp Hd.
  - by rewrite Hp.
  - apply andb_prop in Hd as [Hd Hds].
    rewrite (digit_not_underscore d Hd), Hp. simpl.
    apply IH; [by apply digit_not_underscore | done].
Qed.

Lemma remove_underscores_digits ds :
  forallb is_digit ds = true -> remove_underscores ds = ds.
Proof.
  induction ds as [|d ds IH]; simpl; intros Hd; [done|].
  apply andb_prop in Hd as [Hd Hds].
  rewrite (digit_not_underscore d Hd). simpl. by rewrite IH.
Qed.

Lemma within_limit m (ds : str) :
  len ds <= 640 -> negb (exceeds_limit m (len ds)) = true.
Proof.
  intros Hl. unfold exceeds_limit.
  by destruct (Z.ltb_spec 640 (len ds)); [lia|].
Qed.

(** Parsing an unsigned run of digits. *)
Lemma int_from_ascii_digits m ds :
  ds <> [] -> forallb is_digit ds = true -> len ds <= 640 ->
  int_from_ascii m ds = Some (digits_value ds).
Proof.
  intros Hne Hd Hl. unfold int_from_ascii.
  rewrite strip_id.
  2:{ rewrite forallb_forall in *. intros c Hc.
      by rewrite digit_not_space by auto. }
  destruct ds as [|d ds]; [done|]. cbn [split_sign].
  pose proof Hd as Hd'. cbn [forallb] in Hd'. apply andb_prop in Hd' as [Hd0 _].
  assert ((d =? 43) = false /\ (d =? 45) = false) as [-> ->].
  { unfold is_digit in Hd0. split; apply Z.eqb_neq; lia. }
  rewrite underscores_ok_digits, remove_underscores_digits by done.
  rewrite Hd, within_limit by done. reflexivity.
Qed.

Lemma int_from_ascii_neg_digits m ds :
  ds <> [] -> forallb is_digit ds = true -> len ds <= 640 ->
  int_from_ascii m (45 :: ds) = Some (- digits_value ds).
Proof.
  intros Hne Hd Hl. unfold int_from_ascii.
  rewrite strip_id.
  2:{ cbn [forallb]. apply andb_true_intro; split; [done|].
      rewrite forallb_forall in *. intros c Hc.
      by rewrite digit_not_space by auto. }
  cbn [split_sign]. change (45 =? 43) with false. change (45 =? 45) with true.
  cbv iota.
  rewrite underscores_ok_digits, remove_underscores_digits by done.
  rewrite Hd, within_limit by done. by destruct ds.
Qed.

(** Numerals of at most 640 digits are never rejected for their length;
    [str(n)] is that short when [|n| < 2^639]. *)
Lemma int_from_ascii_py_str m n :
  Z.log2 (Z.abs n) < 639 -> int_from_ascii m (py_str n) = Some n.
Proof.
  intros Hlog. unfold py_str. destruct (Z.ltb_spec n 0) as [Hneg|Hpos].
  - destruct (py_str_nat_spec (- n)) as (Hne & Hd & Hv & Hl); [lia|].
    rewrite int_from_ascii_neg_digits, Hv; try done; [f_equal; lia|].
    assert (Z.log2 (- n) = Z.log2 (Z.abs n)) as E by (f_equal; lia). lia.
  - destruct (py_str_nat_spec n) as (Hne & Hd & Hv & Hl); [lia|].
    rewrite int_from_ascii_digits, Hv; try done.
    assert (Z.log2 n = Z.log2 (Z.abs n)) as E by (f_equal; lia). lia.
Qed.

Lemma ascii_form_digits `{Interpreter} ds :
  forallb is_digit ds = true -> ascii_form ds = ds.
Proof.
  induction ds as [|d ds IH]; cbn [forallb ascii_form map]; [done|].
  intros [Hd Hds]%andb_prop. fold (ascii_form ds). rewrite IH by done.
  f_equal. unfold to_ascii, is_digit in *.
  destruct (Z.ltb_spec d 128); [done | lia].
Qed.

(** [str(n)] is ASCII. *)
Lemma ascii_form_py_str `{Interpreter} n : ascii_form (py_str n) = py_str n.
Proof.
  unfold py_str. destruct (Z.ltb_spec n 0) as [Hneg|Hpos].
  - destruct (py_str_nat_spec (- n)) as (_ & Hd & _); [lia|].
    cbn [ascii_form map]. fold (ascii_form (py_str_nat (- n))).
    by rewrite ascii_form_digits.
  - destruct (py_str_nat_spec n) as (_ & Hd & _); [lia|].
    by apply ascii_form_digits.
Qed.

(** [int(str(n)) == n]. *)
Lemma py_int_py_str `{Interpreter} n :
  Z.log2 (Z.abs n) < 639 -> py_int (py_str n) = Some n.
Proof.
  intros Hlog. unfold py_int. rewrite ascii_form_py_str.
  by apply int_from_ascii_py_str.
Qed.

Lemma log2_abs_int32 n : - 2 ^ 31 <= n < 2 ^ 31 -> Z.log2 (Z.abs n) < 639.
Proof.
  intros Hn. apply Z.le_lt_trans with (Z.log2 (2 ^ 31)); [|by rewrite Z.log2_pow2].
  apply Z.log2_le_mono. lia.
Qed.

Lemma log2_abs_u64 b : 0 <= b < 2 ^ 64 -> Z.log2 (Z.abs b) < 639.
Proof.
  intros Hb. apply Z.le_lt_trans with (Z.log2 (2 ^ 64)); [|by rewrite Z.log2_pow2].
  apply Z.log2_le_mono. lia.
Qed.

Lemma py_str_nonempty n : str_empty (py_str n) = false.
Proof.
  unfold py_str. destruct (n <? 0) eqn:Hn; [done|].
  destruct (py_str_nat_spec n) as (Hne & _); [lia|].
  by destruct (py_str_nat n).
Qed.

(** ** The null bitmap *)

Lemma land_shiftr_1 b k :
  0 <= k -> (Z.land (Z.shiftr b k) 1 =? 1) = Z.testbit b k.
Proof.
  intros Hk. change 1 with (Z.ones 1) at 1.
  rewrite Z.land_ones by lia. change (2 ^ 1) with 2.
  rewrite <- Z.bit0_mod, Z.shiftr_spec by lia. rewrite Z.add_0_l.
  by destruct (Z.testbit b k).
Qed.

Lemma is_null_bit bm j :
  (j / 8 < length bm)%nat -> is_null bm j = OK (bitmap_bit bm j).
Proof.
  intros Hj. unfold is_null, bitmap_bit.
  destruct (lookup_lt_is_Some_2 bm (j / 8)%nat Hj) as [b ->].
  by rewrite land_shiftr_1 by lia.
Qed.

Lemma testbit_set b k m :
  0 <= k -> 0 <= m ->
  Z.testbit (Z.lor b (Z.shiftl 1 k)) m = Z.testbit b m || (m =? k).
Proof.
  intros Hk Hm. rewrite Z.lor_spec, Z.shiftl_1_l, Z.pow2_bits_eqb by lia.
  by rewrite (Z.eqb_sym k m).
Qed.

Lemma div_mod_8_inj (i j : nat) :
  (i / 8 = j / 8)%nat -> (i mod 8 = j mod 8)%nat -> i = j.
Proof.
  intros Hd Hm. rewrite (Nat.div_mod_eq i 8), (Nat.div_mod_eq j 8). lia.
Qed.

Lemma bitmap_bit_set bm i j :
  (i / 8 < length bm)%nat ->
  bitmap_bit
    (alter (fun b => Z.lor b (Z.shiftl 1 (Z.of_nat (i mod 8)))) (i / 8)%nat bm) j
  = bitmap_bit bm j || (j =? i)%nat.
Proof.
  intros Hi. unfold bitmap_bit.
  destruct (decide (i / 8 = j / 8)%nat) as [Heq|Hne].
  - rewrite <- Heq, list_lookup_alter_eq.
    destruct (lookup_lt_is_Some_2 bm (i / 8)%nat Hi) as [b ->].
    cbn [fmap option_fmap option_map].
    rewrite testbit_set by lia. f_equal.
    destruct (Nat.eqb_spec j i) as [->|Hji].
    + apply Z.eqb_refl.
    + apply Z.eqb_neq. intros Hm. apply Hji. symmetry.
      apply div_mod_8_inj; [done | lia].
  - rewrite list_lookup_alter_ne by done.
    destruct (Nat.eqb_spec j i) as [->|Hji]; [done|].
    by rewrite orb_false_r.
Qed.

(** What [mark_nulls] leaves in the bitmap: the bits that were set, and one
    more for every empty value. *)
Lemma mark_nulls_bit values i bm j :
  (i + length values <= 8 * length bm)%nat ->
  bitmap_bit (mark_nulls i values bm) j
  = bitmap_bit bm j
    || (if decide (i <= j)%nat then
          match values !! (j - i)%nat with
          | Some v => str_empty v
          | None => false
          end
        else false).
Proof.
  revert i bm; induction values as [|v vs IH]; intros i bm Hlen.
  - simpl. destruct (decide _); by rewrite orb_false_r.
  - cbn [mark_nulls]. cbn [length] in Hlen. rewrite IH.
    2:{ destruct (str_empty v); [rewrite length_alter|]; lia. }
    assert (i / 8 < length bm)%nat as Hi
      by (apply Nat.Div0.div_lt_upper_bound; lia).
    destruct (decide (i <= j)%nat) as [Hij|Hij].
    + destruct (decide (S i <= j)%nat) as [Hsij|Hsij].
      * replace (j - i)%nat with (S (j - S i)) by lia. cbn [lookup list_lookup].
        destruct (str_empty v); [|done].
        rewrite bitmap_bit_set by done.
        destruct (Nat.eqb_spec j i); [lia|]. by rewrite orb_false_r.
      * assert (j = i) as -> by lia. rewrite Nat.sub_diag. cbn [lookup list_lookup].
        rewrite orb_false_r.
        destruct (str_empty v); [|by rewrite orb_false_r].
        rewrite bitmap_bit_set by done. by rewrite Nat.eqb_refl.
    + destruct (decide (S i <= j)%nat); [lia|]. rewrite !orb_false_r.
      destruct (str_empty v); [|done].
      rewrite bitmap_bit_set by done.
      destruct (Nat.eqb_spec j i); [lia|]. by rewrite orb_false_r.
Qed.

Lemma length_mark_nulls values i bm :
  length (mark_nulls i values bm) = length bm.
Proof.
  revert i bm; induction values as [|v vs IH]; intros i bm; simpl; [done|].
  rewrite IH. destruct (str_empty v); [apply length_alter | done].
Qed.

Lemma length_build_null_bitmap n values :
  length (build_null_bitmap n values) = ((n + 7) / 8)%nat.
Proof.
  unfold build_null_bitmap. by rewrite length_mark_nulls, length_replicate.
Qed.

Lemma bitmap_bit_zero n j : bitmap_bit (replicate n 0) j = false.
Proof.
  unfold bitmap_bit. destruct (replicate n 0 !! (j / 8)%nat) as [b|] eqn:Hb; [|done].
  apply lookup_replicate in Hb as [-> _]. apply Z.bits_0.
Qed.

(** Bit [i] of the bitmap of a column says whether value [i] is empty. *)
Lemma is_null_build values i v :
  values !! i = Some v ->
  is_null (build_null_bitmap (length values) values) i = OK (str_empty v).
Proof.
  intros Hv. pose proof (lookup_lt_Some _ _ _ Hv) as Hi.
  assert (length values <= 8 * ((length values + 7) / 8))%nat as Hle.
  { pose proof (Nat.div_mod_eq (length values + 7) 8).
    pose proof (Nat.mod_upper_bound (length values + 7) 8). lia. }
  rewrite is_null_bit.
  2:{ rewrite length_build_null_bitmap.
      apply Nat.Div0.div_lt_upper_bound. lia. }
  unfold build_null_bitmap. rewrite mark_nulls_bit.
  2:{ rewrite length_replicate. lia. }
  rewrite bitmap_bit_zero. cbn [orb].
  destruct (decide (0 <= i)%nat); [|lia].
  by rewrite Nat.sub_0_r, Hv.
Qed.

(** ** Column blocks: decoding inverts encoding *)

Section BlockRoundTrip.
Context {fl : Float} {interp : Interpreter}.

Lemma py_float_range v b : py_float v = Some b -> 0 <= b < 2 ^ 64.
Proof.
  unfold py_float. destruct (py_float_ok v); [|discriminate].
  intros [= <-]. apply Z.mod_pos_bound. lia.
Qed.

Lemma encode_int32_OK v c :
  encode_int32 v = OK c ->
  length c = 4%nat /\
  exists x, unpack_i32 c = OK x /\
    (if str_empty v then None else Some (py_str x)) = decoded DT_INT32 v.
Proof.
  unfold encode_int32, decoded, int_or_raise.
  destruct (str_empty v).
  - intros Hp. split; [by eapply pack_i32_length|].
    exists 0. split; [by apply unpack_pack_i32 | done].
  - destruct (py_int v) as [n|]; [|discriminate]. cbn [bind].
    intros Hp. split; [by eapply pack_i32_length|].
    exists n. split; [by apply unpack_pack_i32 | done].
Qed.

Lemma encode_float64_OK v c :
  encode_float64 v = OK c ->
  length c = 8%nat /\
  exists x, unpack_d c = OK x /\
    (if str_empty v then None else Some (float_repr x)) = decoded DT_FLOAT64 v.
Proof.
  unfold encode_float64, decoded, float_or_raise.
  destruct (str_empty v).
  - intros [= <-]. split; [apply length_le_bytes|].
    exists 0. split; [by apply unpack_pack_d | done].
  - destruct (py_float v) as [b|] eqn:Hb; [|discriminate]. cbn [bind].
    intros [= <-]. split; [apply length_le_bytes|].
    exists b. split; [|done].
    apply unpack_pack_d. by eapply py_float_range.
Qed.

Lemma decode_int32_encode bm values : forall i chunks,
  mapM encode_int32 values = OK chunks ->
  (forall k v, values !! k = Some v ->
     is_null bm (i + k) = OK (str_empty v)) ->
  decode_int32 bm i (length values) (concat chunks)
  = OK (map (decoded DT_INT32) values).
Proof.
  induction values as [|v vs IH]; intros i chunks Hm Hnull.
  - reflexivity.
  - cbn [mapM] in Hm. inv_binds.
    destruct (encode_int32_OK _ _ Ha) as (Hlen & x & Hx & Hdec).
    cbn [length decode_int32 concat map]. rewrite read_app by done.
    rewrite Hx. cbn [bind].
    specialize (Hnull 0%nat v eq_refl) as Hn0. rewrite Nat.add_0_r in Hn0.
    rewrite Hn0. cbn [bind]. rewrite (IH (S i) a0 Ha0).
    + cbn [bind]. by rewrite Hdec.
    + intros k v' Hk. rewrite <- (Hnull (S k) v' Hk). f_equal. lia.
Qed.

Lemma decode_float64_encode bm values : forall i chunks,
  mapM encode_float64 values = OK chunks ->
  (forall k v, values !! k = Some v ->
     is_null bm (i + k) = OK (str_empty v)) ->
  decode_float64 bm i (length values) (concat chunks)
  = OK (map (decoded DT_FLOAT64) values).
Proof.
  induction values as [|v vs IH]; intros i chunks Hm Hnull.
  - reflexivity.
  - cbn [mapM] in Hm. inv_binds.
    destruct (encode_float64_OK _ _ Ha) as (Hlen & x & Hx & Hdec).
    cbn [length decode_float64 concat map]. rewrite read_app by done.
    rewrite Hx. cbn [bind].
    specialize (Hnull 0%nat v eq_refl) as Hn0. rewrite Nat.add_0_r in Hn0.
    rewrite Hn0. cbn [bind]. rewrite (IH (S i) a0 Ha0).
    + cbn [bind]. by rewrite Hdec.
    + intros k v' Hk. rewrite <- (Hnull (S k) v' Hk). f_equal. lia.
Qed.

(** Reading back a packed offsets array. *)
Lemma read_offsets_pack offsets : forall offs rest,
  mapM pack_u32 offsets = OK offs ->
  read_offsets (length offsets) (concat offs ++ rest) = OK (offsets, rest).
Proof.
  induction offsets as [|o os IH]; intros offs rest Hm.
  - cbn [mapM] in Hm. by injection Hm as <-.
  - cbn [mapM] in Hm. inv_binds.
    cbn [length read_offsets concat]. rewrite <- app_assoc.
    rewrite read_app by (by eapply pack_u_length).
    rewrite (unpack_pack_u _ _ _ Ha). cbn [bind].
    by rewrite (IH _ _ Ha0).
Qed.
End BlockRoundTrip.

(** The STRING loop: the offsets it appends delimit, in the payload, the
    UTF-8 bytes of each non-empty value. *)
Lemma string_fold values : forall pre x buf0 offs buf,
  x = len buf0 ->
  foldM string_step values (pre ++ [x], buf0) = OK (offs, buf) ->
  exists new nb,
    offs = pre ++ x :: new /\ length new = length values /\
    buf = buf0 ++ nb /\
    forall k v, values !! k = Some v ->
      exists a b,
        (x :: new) !! k = Some a /\ new !! k = Some b /\
        (str_empty v = false ->
         exists bv, utf8_encode v = OK bv /\
                    slice buf (Z.to_nat a) (Z.to_nat b) = bv).
Proof.
  induction values as [|v vs IH]; intros pre x buf0 offs buf Hx Hf.
  - cbn [foldM] in Hf. injection Hf as <- <-.
    exists [], []. rewrite app_nil_r. repeat split; try done.
  - cbn [foldM] in Hf. inv_bind Hf. destruct a as [offs1 buf1].
    unfold string_step in Ha. rewrite last_last in Ha.
    destruct (str_empty v) eqn:Hv.
    + injection Ha as <- <-.
      destruct (IH (pre ++ [x]) x buf0 offs buf Hx Hf)
        as (new & nb & -> & Hlen & -> & Hk).
      exists (x :: new), nb. rewrite <- app_assoc.
      repeat split; [by cbn [length]; rewrite Hlen|].
      intros [|k] v' Hv'.
      * injection Hv' as <-. exists x, x. repeat split; try done.
        by rewrite Hv.
      * apply (Hk k v' Hv').
    + inv_bind Ha. injection Ha as <- <-. rename a into bv.
      destruct (IH (pre ++ [x]) (x + len bv) (buf0 ++ bv) offs buf)
        as (new & nb & -> & Hlen & -> & Hk); [|done|].
      { subst x. unfold len. rewrite length_app. lia. }
      exists (x + len bv :: new), (bv ++ nb). rewrite <- !app_assoc.
      repeat split; [by cbn [length]; rewrite Hlen|].
      intros [|k] v' Hv'.
      * injection Hv' as <-. exists x, (x + len bv). repeat split; try done.
        intros _. exists bv. split; [done|]. subst x. unfold len.
        rewrite <- Nat2Z.inj_add, !Nat2Z.id. apply slice_app_mid.
      * destruct (Hk k v' Hv') as (a & b & Ha' & Hb' & Hs).
        exists a, b. repeat split; try done.
        by rewrite <- app_assoc in Hs.
Qed.

Section StringRoundTrip.
Context {fl : Float} {interp : Interpreter}.

Lemma decode_strings_layout bm offsets payload values : forall i,
  (forall k v, values !! k = Some v ->
     is_null bm (i + k) = OK (str_empty v)) ->
  (forall k v, values !! k = Some v ->
     exists a b,
       offsets !! (i + k)%nat = Some a /\ offsets !! S (i + k) = Some b /\
       (str_empty v = false ->
        exists bv, utf8_encode v = OK bv /\
                   slice payload (Z.to_nat a) (Z.to_nat b) = bv)) ->
  decode_strings bm offsets payload i (length values)
  = OK (map (decoded DT_STRING) values).
Proof.
  induction values as [|v vs IH]; intros i Hnull Hoff.
  - reflexivity.
  - cbn [length decode_strings map].
    specialize (Hnull 0%nat v eq_refl) as Hn0. rewrite Nat.add_0_r in Hn0.
    rewrite Hn0. cbn [bind].
    destruct (Hoff 0%nat v eq_refl) as (a & b & Ha & Hb & Hs).
    rewrite Nat.add_0_r in Ha, Hb.
    rewrite (IH (S i)).
    + unfold decoded. destruct (str_empty v) eqn:Hv; cbn [bind]; [done|].
      unfold index. rewrite Ha, Hb. cbn [bind].
      destruct (Hs eq_refl) as (bv & Hbv & ->).
      by rewrite (utf8_decode_encode _ _ Hbv).
    + intros k v' Hk. rewrite <- (Hnull (S k) v' Hk). f_equal. lia.
    + intros k v' Hk. destruct (Hoff (S k) v' Hk) as (a' & b' & ? & ? & ?).
      exists a', b'. by replace (S i + k)%nat with (i + S k)%nat by lia.
Qed.

Lemma decode_strings_encode bm values payload :
  encode_strings values = OK payload ->
  (forall k v, values !! k = Some v -> is_null bm k = OK (str_empty v)) ->
  (r <- read_offsets (length values + 1) payload ;;
   decode_strings bm (fst r) (snd r) 0 (length values))
  = OK (map (decoded DT_STRING) values).
Proof.
  unfold encode_strings. intros He Hnull. inv_binds.
  destruct a as [offs buf]. cbn [fst snd] in *.
  destruct (string_fold values [] 0 [] offs buf eq_refl Ha)
    as (new & nb & -> & Hlen & -> & Hk).
  cbn [app] in *.
  replace (length values + 1)%nat with (length (0 :: new))
    by (cbn [length]; lia).
  rewrite (read_offsets_pack _ _ _ Ha0). cbn [bind fst snd].
  apply decode_strings_layout; [done|].
  intros k v Hv. destruct (Hk k v Hv) as (a & b & ? & ? & ?).
  exists a, b. by cbn [Nat.add lookup list_lookup].
Qed.

(** Decoding a column block gives, row by row, what was encoded. *)
Lemma decode_encode_column dt values un :
  encode_column (length values) dt values = OK un ->
  decode_column (length values) dt un = OK (map (decoded dt) values).
Proof.
  unfold encode_column, decode_column. intros He. inv_binds.
  rename a into nb, a0 into payload.
  set (bm := build_null_bitmap (length values) values) in *.
  rewrite read_app by (by eapply pack_u_length).
  rewrite (unpack_pack_u _ _ _ Ha). cbn [bind].
  unfold len. rewrite Nat2Z.id. rewrite read_app by done.
  assert (forall k v, values !! k = Some v -> is_null bm k = OK (str_empty v))
    as Hnull by (intros; by apply is_null_build).
  destruct (dt =? DT_INT32) eqn:E0.
  { inv_binds. apply Z.eqb_eq in E0 as ->.
    by apply decode_int32_encode. }
  destruct (dt =? DT_FLOAT64) eqn:E1.
  { inv_binds. apply Z.eqb_eq in E1 as ->.
    by apply decode_float64_encode. }
  destruct (dt =? DT_STRING) eqn:E2; [|discriminate].
  apply Z.eqb_eq in E2 as ->. by apply decode_strings_encode.
Qed.
End StringRoundTrip.

(** ** The header directory *)

Lemma field_at w x bs (buf pre post : bytes) p :
  pack_u w x = OK bs -> buf = pre ++ bs ++ post -> p = length pre ->
  unpack_from_u w buf p = OK x.
Proof. intros Hp -> ->. by apply unpack_from_at. Qed.

Lemma slice_at {A} (buf pre x post : list A) p q :
  buf = pre ++ x ++ post -> p = length pre -> q = (p + length x)%nat ->
  slice buf p q = x.
Proof. intros -> -> ->. apply slice_app_mid. Qed.

Section Header.
Context {zlib : Zlib} {fl : Float} {interp : Interpreter}.
Import CCFWriter CCFReader.

Lemma header_entry_size col off m e :
  header_entry col off m = OK e -> len e = entry_size col.
Proof.
  unfold header_entry, entry_size, name_utf8. intros He. inv_binds.
  rewrite Ha. unfold len. rewrite !length_app.
  rewrite (pack_u_length _ _ _ Ha0), (pack_u_length _ _ _ Ha1),
    (pack_u_length _ _ _ Ha2), (pack_u_length _ _ _ Ha3),
    (pack_u_length _ _ _ Ha4). lia.
Qed.

Lemma directory_size_entries (f : str * Z -> ColumnMeta -> Z) cols : forall ms es,
  length ms = length cols ->
  mapM (fun '(col, m) => header_entry col (f col m) m) (zip cols ms) = OK es ->
  len (concat es) = directory_size cols.
Proof.
  induction cols as [|col cols IH]; intros ms es Hlen Hm.
  - cbn in Hm. by injection Hm as <-.
  - destruct ms as [|m ms]; [discriminate|].
    cbn [zip zip_with mapM] in Hm. inv_binds.
    cbn [concat directory_size fold_right]. fold (directory_size cols).
    pose proof (header_entry_size _ _ _ _ Ha) as He.
    unfold len in *. rewrite length_app, Nat2Z.inj_add, He.
    rewrite (IH ms a0); [done | by injection Hlen | done].
Qed.

(** Parsing one directory entry that the writer produced. *)
Lemma read_metas_entry col m e pre post n :
  header_entry col (offset m) m = OK e ->
  name m = fst col -> dtype m = snd col ->
  read_metas (pre ++ e ++ post) (S n) (length pre)
  = (metas <- read_metas (pre ++ e ++ post) n (length pre + length e) ;;
     OK (m :: metas)).
Proof.
  unfold header_entry. intros He Hname Hdtype. inv_binds.
  rename a into nb, a0 into l, a1 into d, a2 into o, a3 into c, a4 into u.
  pose proof (pack_u_length _ _ _ Ha0) as Ll.
  pose proof (pack_u_length _ _ _ Ha1) as Ld.
  pose proof (pack_u_length _ _ _ Ha2) as Lo.
  pose proof (pack_u_length _ _ _ Ha3) as Lc.
  pose proof (pack_u_length _ _ _ Ha4) as Lu.
  set (buf := pre ++ (l ++ nb ++ d ++ o ++ c ++ u) ++ post).
  set (p := length pre).
  assert (unpack_from_u 2 buf p = OK (len nb)) as E1.
  { apply (field_at _ _ _ _ pre (nb ++ d ++ o ++ c ++ u ++ post) _ Ha0);
      [subst buf; by rewrite <- !app_assoc | done]. }
  assert (slice buf (p + 2) (p + 2 + length nb) = nb) as E2.
  { apply (slice_at _ (pre ++ l) _ (d ++ o ++ c ++ u ++ post));
      [subst buf; by rewrite <- !app_assoc | rewrite length_app; lia | done]. }
  assert (unpack_from_u 1 buf (p + 2 + length nb) = OK (snd col)) as E3.
  { apply (field_at _ _ _ _ (pre ++ l ++ nb) (o ++ c ++ u ++ post) _ Ha1);
      [subst buf; by rewrite <- !app_assoc | rewrite !length_app; lia]. }
  assert (unpack_from_u 8 buf (p + 2 + length nb + 1) = OK (offset m)) as E4.
  { apply (field_at _ _ _ _ (pre ++ l ++ nb ++ d) (c ++ u ++ post) _ Ha2);
      [subst buf; by rewrite <- !app_assoc | rewrite !length_app; lia]. }
  assert (unpack_from_u 8 buf (p + 2 + length nb + 1 + 8)
          = OK (compressed_size m)) as E5.
  { apply (field_at _ _ _ _ (pre ++ l ++ nb ++ d ++ o) (u ++ post) _ Ha3);
      [subst buf; by rewrite <- !app_assoc | rewrite !length_app; lia]. }
  assert (unpack_from_u 8 buf (p + 2 + length nb + 1 + 8 + 8)
          = OK (uncompressed_size m)) as E6.
  { apply (field_at _ _ _ _ (pre ++ l ++ nb ++ d ++ o ++ c) post _ Ha4);
      [subst buf; by rewrite <- !app_assoc | rewrite !length_app; lia]. }
  cbn [read_metas]. rewrite E1. cbn [bind]. unfold len. rewrite Nat2Z.id.
  rewrite E2, (utf8_decode_encode _ _ Ha). cbn [bind].
  rewrite E3. cbn [bind]. rewrite E4. cbn [bind]. rewrite E5. cbn [bind].
  rewrite E6. cbn [bind].
  replace (p + length (l ++ nb ++ d ++ o ++ c ++ u))%nat
    with (p + 2 + length nb + 1 + 8 + 8 + 8)%nat
    by (rewrite !length_app; lia).
  rewrite <- Hname, <- Hdtype. by destruct m.
Qed.

Lemma read_metas_written cols metas :
  same_columns cols metas ->
  forall es pre post,
    mapM (fun '(col, m) => header_entry col (offset m) m) (zip cols metas)
    = OK es ->
    read_metas (pre ++ concat es ++ post) (length metas) (length pre)
    = OK metas.
Proof.
  induction 1 as [|col m cols metas [Hn Hd] _ IH]; intros es pre post Hm.
  - reflexivity.
  - cbn [zip zip_with mapM] in Hm. inv_binds. rename a into e, a0 into es.
    cbn [length concat]. rewrite <- (app_assoc e).
    rewrite (read_metas_entry col m e) by done.
    rewrite <- length_app.
    replace (pre ++ e ++ concat es ++ post)
      with ((pre ++ e) ++ concat es ++ post) by (by rewrite <- app_assoc).
    by rewrite (IH es (pre ++ e) post Ha0).
Qed.
End Header.

(** ** What the writer produces *)

Section Written.
Context {zlib : Zlib} {fl : Float} {interp : Interpreter}.
Import CCFWriter CCFReader.

Lemma length_transpose n rows : length (transpose n rows) = n.
Proof. unfold transpose. by rewrite length_map, length_seq. Qed.

Lemma transpose_lookup n rows j :
  (j < n)%nat -> transpose n rows !! j = Some (map (fun r => cell r j) rows).
Proof.
  intros Hj. unfold transpose. rewrite list_lookup_fmap.
  by rewrite lookup_seq_lt.
Qed.

Lemma encode_block_OK R nm dt values blk m :
  encode_block R ((nm, dt), values) = OK (blk, m) ->
  name m = nm /\ dtype m = dt /\ compressed_size m = len blk /\
  exists un, encode_column R dt values = OK un /\ blk = compress un.
Proof.
  unfold encode_block. intros He. inv_bind He.
  injection He as <- <-. cbn. eauto 6.
Qed.

Lemma length_assign_offsets cur ms : length (assign_offsets cur ms) = length ms.
Proof. revert cur; induction ms; intros; simpl; [done | by rewrite IHms]. Qed.

Lemma chained_assign_offsets cur ms : chained cur (assign_offsets cur ms).
Proof.
  revert cur; induction ms as [|m ms IH]; intros cur; cbn; [done|].
  split; [done | apply IH].
Qed.

Lemma same_columns_assign cols cur ms :
  same_columns cols ms -> same_columns cols (assign_offsets cur ms).
Proof.
  intros Hs. revert cur. induction Hs as [|col m cols ms Hm _ IH]; intros cur.
  - constructor.
  - cbn [assign_offsets]. constructor; [done | apply IH].
Qed.

Lemma same_columns_encoded R cols : forall vals encoded,
  length vals = length cols ->
  mapM (encode_block R) (zip cols vals) = OK encoded ->
  same_columns cols (map snd encoded).
Proof.
  induction cols as [|[nm dt] cols IH]; intros vals encoded Hlen Hm.
  - cbn in Hm. injection Hm as <-. constructor.
  - destruct vals as [|v vals]; [discriminate|].
    cbn [zip zip_with mapM] in Hm. inv_binds. destruct a as [blk m].
    destruct (encode_block_OK _ _ _ _ _ _ Ha) as (Hn & Hd & _).
    cbn [map snd]. constructor; [done|].
    eapply IH; [|done]. by injection Hlen.
Qed.

(** The anatomy of a written file. *)
Lemma write_inv header_cols rows f :
  write header_cols rows = OK f ->
  exists encoded hc,
    let metas := assign_offsets (prefix_size + len hc) (map snd encoded) in
    mapM (encode_block (length rows))
         (zip header_cols (transpose (length header_cols) rows)) = OK encoded /\
    header_final header_cols metas = OK hc /\
    len hc = directory_size header_cols /\
    same_columns header_cols metas /\
    0 <= len hc < 2 ^ 32 /\
    0 <= Z.of_nat (length rows) < 2 ^ 64 /\
    0 <= len metas < 2 ^ 16 /\
    f = MAGIC ++ le_bytes 1 VERSION ++ le_bytes 4 (len hc)
        ++ le_bytes 8 (Z.of_nat (length rows)) ++ le_bytes 2 (len metas)
        ++ hc ++ concat (map fst encoded).
Proof.
  unfold write. intros Hw. inv_binds.
  rename a into encoded, a0 into hc0, a1 into hc.
  pose proof (same_columns_encoded _ _ _ _ (length_transpose _ _) Ha) as Hsame.
  pose proof (Forall2_length Hsame) as Hlen.
  assert (len hc0 = directory_size header_cols) as Hs0.
  { unfold header_placeholder in Ha0. inv_binds.
    by apply (directory_size_entries (fun _ _ => 0) _ (map snd encoded)). }
  assert (len hc = directory_size header_cols) as Hs1.
  { unfold header_final in Ha1. inv_binds.
    eapply (directory_size_entries (fun _ m => offset m)); [|done].
    by rewrite length_assign_offsets. }
  apply pack_u_OK in Ha2 as [-> _], Ha3 as [-> ?], Ha4 as [-> ?], Ha5 as [-> ?].
  assert (len hc0 = len hc) as E by congruence. rewrite E in *. clear E Hs0.
  exists encoded, hc. cbn zeta.
  repeat split; try done; try lia.
  by apply same_columns_assign.
Qed.

Lemma magic_eqb : str_eqb MAGIC MAGIC = true.
Proof. reflexivity. Qed.

(** Constructing a reader on a written file recovers the row count and the
    metadata, offsets included. *)
Lemma read_written_header header_cols rows f :
  write header_cols rows = OK f ->
  exists encoded hc,
    let metas := assign_offsets (prefix_size + len hc) (map snd encoded) in
    mapM (encode_block (length rows))
         (zip header_cols (transpose (length header_cols) rows)) = OK encoded /\
    len hc = directory_size header_cols /\
    same_columns header_cols metas /\
    f = (MAGIC ++ le_bytes 1 VERSION ++ le_bytes 4 (len hc)
         ++ le_bytes 8 (Z.of_nat (length rows)) ++ le_bytes 2 (len metas) ++ hc)
        ++ concat (map fst encoded) /\
    _read_header f
    = OK {| file := f; num_rows := Z.of_nat (length rows);
            num_cols := len metas; columns_meta := metas |}.
Proof.
  intros Hw. destruct (write_inv _ _ _ Hw)
    as (encoded & hc & Henc & Hhc & Hsize & Hsame & Bh & Br & Bc & Hf).
  exists encoded, hc. cbn zeta in *.
  set (metas := assign_offsets (prefix_size + len hc) (map snd encoded)) in *.
  repeat split; try done.
  unfold _read_header. rewrite Hf at 1.
  rewrite read_app by done. rewrite magic_eqb. cbn [negb].
  rewrite read_app by apply length_le_bytes.
  rewrite unpack_le_bytes by done. cbn [bind].
  rewrite read_app by apply length_le_bytes.
  rewrite unpack_le_bytes by done. cbn [bind].
  rewrite read_app by apply length_le_bytes.
  rewrite unpack_le_bytes by done. cbn [bind].
  rewrite read_app by apply length_le_bytes.
  rewrite unpack_le_bytes by done. cbn [bind].
  unfold len at 1. rewrite Nat2Z.id. rewrite read_app by done.
  unfold header_final in Hhc. inv_binds.
  unfold len at 1. rewrite Nat2Z.id.
  pose proof (read_metas_written _ _ Hsame a [] [] Ha) as Hr.
  cbn [app length] in Hr. rewrite app_nil_r in Hr. rewrite Hr. reflexivity.
Qed.
End Written.

(** ** The zlib that stores *)

Lemma block_max_Z : Z.of_nat block_max = 65535.
Proof. unfold block_max. by rewrite Z2Nat.id. Qed.

Lemma block_max_def : Z.to_nat 65535 = block_max.
Proof. reflexivity. Qed.

#[local] Opaque block_max.

Lemma inflate_stored_blocks f : forall data fuel rest,
  (length data / block_max < f)%nat -> (f <= fuel)%nat ->
  inflate_stored fuel (stored_blocks f data ++ rest) = OK (data, rest).
Proof.
  pose proof block_max_Z as HN.
  induction f as [|f IH]; intros data fuel rest Hf Hfuel; [lia|].
  destruct fuel as [|fuel]; [lia|].
  cbn [stored_blocks inflate_stored].
  destruct (Z.leb_spec (len data) 65535) as [Hle|Hgt].
  - assert (0 <= len data < 256 ^ Z.of_nat 2) as Hlen
      by (unfold len in *; change (256 ^ Z.of_nat 2) with 65536; lia).
    assert (0 <= 65535 - len data < 256 ^ Z.of_nat 2) as Hnlen
      by (unfold len in *; change (256 ^ Z.of_nat 2) with 65536; lia).
    rewrite <- !app_assoc.
    rewrite (read_app 1 [1]) by done.
    rewrite read_app by apply length_le_bytes.
    rewrite read_app by apply length_le_bytes.
    rewrite !length_le_bytes, !le_val_le_bytes by done.
    change (le_val [1]) with 1. unfold len. rewrite !Nat2Z.id.
    rewrite read_app by done. rewrite length_app.
    replace (Z.of_nat (length data) + (65535 - Z.of_nat (length data))
             =? 65535) with true
      by (symmetry; apply Z.eqb_eq; lia).
    replace (length data <=? length data + length rest)%nat with true
      by (symmetry; apply Nat.leb_le; lia).
    reflexivity.
  - unfold len in Hgt. rewrite <- !app_assoc.
    rewrite (read_app 1 [0]) by done.
    rewrite read_app by apply length_le_bytes.
    rewrite read_app by apply length_le_bytes.
    rewrite !length_le_bytes.
    rewrite !le_val_le_bytes by (change (256 ^ Z.of_nat 2) with 65536; lia).
    change (le_val [0]) with 0. rewrite block_max_def.
    assert (length (take block_max data) = block_max) as Htake
      by (rewrite length_take; lia).
    rewrite read_app by done. rewrite !length_app, Htake.
    replace (block_max <=? block_max
                           + (length (stored_blocks f (drop block_max data))
                              + length rest))%nat
      with true by (symmetry; apply Nat.leb_le; lia).
    change ((0 / 2) mod 4 =? 0) with true. change (65535 + 0 =? 65535) with true.
    change (0 mod 2 =? 1) with false. cbn [Nat.eqb andb]. cbv iota.
    rewrite IH.
    + cbn [bind fst snd]. by rewrite take_drop.
    + rewrite length_drop.
      assert (length data / block_max
              = S ((length data - block_max) / block_max))%nat as Hd.
      { replace (length data)
          with ((length data - block_max) + 1 * block_max)%nat at 1 by lia.
        rewrite Nat.div_add by lia. lia. }
      lia.
    + lia.
Qed.

Lemma length_stored_blocks f : forall data,
  (f <= S (length data / block_max))%nat ->
  (f <= length (stored_blocks f data))%nat.
Proof.
  pose proof block_max_Z as HN.
  induction f as [|f IH]; intros data Hf; [lia|].
  cbn [stored_blocks].
  destruct (Z.leb_spec (len data) 65535) as [Hle|Hgt]; unfold len in *.
  - rewrite !length_app, !length_le_bytes. cbn [length].
    assert (length data / block_max <= 1)%nat
      by (apply Nat.Div0.div_le_upper_bound; lia). lia.
  - rewrite !length_app, !length_le_bytes. cbn [length].
    assert (length data / block_max
            = S ((length data - block_max) / block_max))%nat as Hd.
    { replace (length data)
        with ((length data - block_max) + 1 * block_max)%nat at 1 by lia.
      rewrite Nat.div_add by lia. lia. }
    specialize (IH (drop block_max data)). rewrite length_drop in IH. lia.
Qed.

Lemma adler32_range data : 0 <= adler32 data < 256 ^ Z.of_nat 4.
Proof.
  unfold adler32.
  assert (forall st, 0 <= fst st < 65521 -> 0 <= snd st < 65521 ->
            0 <= fst (fold_left adler_step data st) < 65521 /\
            0 <= snd (fold_left adler_step data st) < 65521) as Hfold.
  { induction data as [|x data IH]; intros [a b] Ha Hb; [done|].
    cbn [fold_left]. apply IH; cbn [adler_step fst snd];
      apply Z.mod_pos_bound; lia. }
  destruct (Hfold (1, 0)) as [Ha Hb]; [cbn; lia | cbn; lia |].
  destruct (fold_left adler_step data (1, 0)) as [a b]. cbn [fst snd] in *.
  change (256 ^ Z.of_nat 4) with 4294967296. lia.
Qed.

(** Decompression inverts compression for [stored_zlib]. *)
Lemma stored_lossless : @lossless stored_zlib.
Proof.
  intros data. cbn [decompress compress stored_zlib].
  unfold stored_decompress, stored_compress.
  rewrite (read_app 2 [0x78; 0x01]) by done.
  change ((0x78 mod 16 =? 8) && (0x78 / 16 <=? 7)
          && ((0x78 * 256 + 0x01) mod 31 =? 0) && ((0x01 / 32) mod 2 =? 0))
    with true. cbv iota.
  pose proof block_max_Z as HN.
  rewrite inflate_stored_blocks; [| lia |].
  - cbn [bind fst snd].
    rewrite firstn_all2 by (by rewrite length_rev, length_le_bytes).
    rewrite length_rev, length_le_bytes, rev_involutive.
    rewrite le_val_le_bytes by apply adler32_range.
    by rewrite Z.eqb_refl.
  - rewrite length_app.
    pose proof (length_stored_blocks (S (length data / block_max)) data).
    lia.
Qed.

(** ** The version byte is read and dropped *)

Lemma read_header_file f r : CCFReader._read_header f = OK r -> CCFReader.file r = f.
Proof.
  unfold CCFReader._read_header, read.
  destruct (negb _); [discriminate|]. intros Hr. inv_binds. done.
Qed.

Lemma unpack_u_same_length {B} w (b b' : bytes) (k : result B) :
  length b' = length b ->
  (x <- unpack_u w b' ;; k) = (x <- unpack_u w b ;; k).
Proof. intros Hl. unfold unpack_u. rewrite Hl. by destruct (_ =? _)%nat. Qed.

Lemma read_header_any_version f v :
  header_view (CCFReader._read_header (<[7%nat := v]> f))
  = header_view (CCFReader._read_header f).
Proof.
  unfold CCFReader._read_header, read. change (length MAGIC) with 7%nat.
  rewrite take_insert_ge by lia.
  destruct (negb (str_eqb (take 7 f) MAGIC)); [done|].
  rewrite (unpack_u_same_length 1 (take 1 (drop 7 f))
             (take 1 (drop 7 (<[7%nat:=v]> f))))
    by (by rewrite !length_take, !length_drop, length_insert).
  rewrite !drop_drop. rewrite !(drop_insert_lt _ _ 7) by lia.
  destruct (unpack_u 1 (take 1 (drop 7 f))); [|done]. cbn [bind].
  destruct (unpack_u 4 _); [|done]. cbn [bind].
  destruct (unpack_u 8 _); [|done]. cbn [bind].
  destruct (unpack_u 2 _); [|done]. cbn [bind].
  by destruct (CCFReader.read_metas _ _ _).
Qed.

(** ** Reading a column of a written file *)

Section ReadBack.
Context {zlib : Zlib} {fl : Float} {interp : Interpreter}.
Hypothesis zlib_lossless : lossless.
Import CCFWriter CCFReader.

(** The column read under a name is the first one that carries it. *)
Lemma find_meta_first metas nm j m :
  metas !! j = Some m -> name m = nm ->
  (forall k m', (k < j)%nat -> metas !! k = Some m' -> name m' <> nm) ->
  find_meta metas nm = Some m.
Proof.
  revert j; induction metas as [|m0 ms IH]; intros j Hj Hn Hfirst.
  - discriminate.
  - cbn [find_meta]. unfold str_eqb. destruct j as [|j].
    + injection Hj as ->. by rewrite bool_decide_eq_true_2.
    + rewrite bool_decide_eq_false_2
        by (apply (Hfirst 0%nat); [lia | done]).
      apply (IH j); [done | done |].
      intros k m' Hk Hm'. apply (Hfirst (S k)); [lia | done].
Qed.

(** The offset and size recorded for block [j] select exactly its bytes. *)
Lemma block_at encoded : forall cur (pre : bytes) j blk m0,
  cur = len pre ->
  Forall (fun bm => compressed_size (snd bm) = len (fst bm)) encoded ->
  encoded !! j = Some (blk, m0) ->
  exists m rest,
    assign_offsets cur (map snd encoded) !! j = Some m /\
    name m = name m0 /\ dtype m = dtype m0 /\
    drop (Z.to_nat (offset m)) (pre ++ concat (map fst encoded))
    = blk ++ rest /\
    Z.to_nat (compressed_size m) = length blk /\
    cur <= offset m.
Proof.
  induction encoded as [|[b0 m'] encoded IH];
    intros cur pre j blk m0 Hcur Hsz Hj.
  - discriminate.
  - apply Forall_cons_1 in Hsz as [Hsz0 Hsz]. cbn [fst snd] in Hsz0.
    cbn [map fst snd assign_offsets concat]. destruct j as [|j].
    + injection Hj as -> ->.
      exists (set_offset m0 cur), (concat (map fst encoded)).
      repeat split.
      * cbn. subst cur. unfold len. rewrite Nat2Z.id. apply drop_app_length.
      * cbn. rewrite Hsz0. unfold len. apply Nat2Z.id.
      * cbn. lia.
    + destruct (IH (cur + compressed_size m') (pre ++ b0) j blk m0)
        as (m & rest & Hm & Hn & Hd & Hdrop & Hlen & Hle); [|done|done|].
      { subst cur. rewrite Hsz0. unfold len. rewrite length_app. lia. }
      exists m, rest. repeat split; try done.
      * by rewrite <- app_assoc in Hdrop.
      * rewrite Hsz0 in Hle. unfold len in Hle. lia.
Qed.

Lemma encoded_sizes R : forall cols encoded,
  mapM (encode_block R) cols = OK encoded ->
  Forall (fun bm => compressed_size (snd bm) = len (fst bm)) encoded.
Proof.
  induction cols as [|[[nm dt] values] cols IH]; intros encoded Hm.
  - cbn in Hm. injection Hm as <-. constructor.
  - cbn [mapM] in Hm. inv_binds. destruct a as [blk m].
    destruct (encode_block_OK _ _ _ _ _ _ Ha) as (_ & _ & Hc & _).
    constructor; [done | by apply IH].
Qed.

(** Writing a table, setting the VERSION byte of the file to any value and
    reading back the column declared at position [j], under a name that no
    earlier column carries, gives the decoded form of every cell of that
    column, in row order. *)
Lemma read_written_column_version header_cols rows f j nm dt v :
  write header_cols rows = OK f ->
  header_cols !! j = Some (nm, dt) ->
  (forall k col, (k < j)%nat -> header_cols !! k = Some col -> fst col <> nm) ->
  exists r,
    _read_header (<[7%nat := v]> f) = OK r /\
    num_rows r = Z.of_nat (length rows) /\
    read_column r nm = OK (map (fun row => decoded dt (cell row j)) rows).
Proof.
  intros Hw Hj Hfirst.
  destruct (read_written_header _ _ _ Hw)
    as (encoded & hc & Henc & Hsize & Hsame & Hf & Hr).
  cbn zeta in *.
  set (metas := assign_offsets (prefix_size + len hc) (map snd encoded)) in *.
  pose proof (read_header_any_version f v) as Hview. rewrite Hr in Hview.
  destruct (_read_header (<[7%nat := v]> f)) as [r|] eqn:Hr'; [|discriminate].
  cbn in Hview. injection Hview as Hrows Hcols Hmetas.
  exists r. split; [done|]. split; [done|].
  pose proof (lookup_lt_Some _ _ _ Hj) as Hjlt.
  destruct (mapM_lookup _ _ _ j ((nm, dt), map (fun r => cell r j) rows) Henc)
    as ([blk m0] & Hblk & Hb).
  { rewrite lookup_zip_with, Hj. cbn. by rewrite transpose_lookup. }
  destruct (encode_block_OK _ _ _ _ _ _ Hb) as (Hn0 & Hd0 & _ & un & Hun & ->).
  set (pre := MAGIC ++ le_bytes 1 VERSION ++ le_bytes 4 (len hc)
              ++ le_bytes 8 (Z.of_nat (length rows))
              ++ le_bytes 2 (len metas) ++ hc) in *.
  destruct (block_at encoded (prefix_size + len hc) pre j (compress un) m0)
    as (m & rest & Hm & Hn & Hd & Hdrop & Hlen & Hoff);
    [| by eapply encoded_sizes | exact Hblk |].
  { subst pre. unfold prefix_size. change (len MAGIC) with 7.
    unfold len. rewrite !length_app, !length_le_bytes.
    change (length MAGIC) with 7%nat. lia. }
  unfold read_column. rewrite Hmetas, Hrows, (read_header_file _ _ Hr').
  rewrite (find_meta_first metas nm j m); [|done|congruence|].
  2:{ intros k m' Hk Hm' Hname.
      destruct (Forall2_lookup_r _ _ _ _ _ Hsame Hm') as (col & Hcol & Hn' & _).
      apply (Hfirst k col Hk Hcol). congruence. }
  rewrite drop_insert_lt.
  2:{ unfold prefix_size in Hoff. change (len MAGIC) with 7 in Hoff.
      unfold len in Hoff. lia. }
  rewrite Hf, Hdrop, Hlen, read_app by done.
  rewrite zlib_lossless. cbn [bind].
  rewrite Nat2Z.id, Hd, Hd0.
  pose proof (decode_encode_column dt (map (fun r => cell r j) rows) un)
    as Hdec.
  rewrite length_map in Hdec. rewrite (Hdec Hun).
  by rewrite map_map.
Qed.

Lemma written_version header_cols rows f :
  write header_cols rows = OK f -> <[7%nat := VERSION]> f = f.
Proof.
  intros Hw. destruct (write_inv _ _ _ Hw)
    as (encoded & hc & _ & _ & _ & _ & _ & _ & _ & ->).
  reflexivity.
Qed.

(** Writing a table and reading back the column declared at position [j],
    under a name that no earlier column carries, gives the decoded form of
    every cell of that column, in row order. *)
Lemma read_written_column header_cols rows f j nm dt :
  write header_cols rows = OK f ->
  header_cols !! j = Some (nm, dt) ->
  (forall k col, (k < j)%nat -> header_cols !! k = Some col -> fst col <> nm) ->
  exists r,
    _read_header f = OK r /\
    num_rows r = Z.of_nat (length rows) /\
    read_column r nm = OK (map (fun row => decoded dt (cell row j)) rows).
Proof.
  intros Hw Hj Hfirst.
  destruct (read_written_column_version _ _ _ _ _ _ VERSION Hw Hj Hfirst)
    as (r & Hr & Hn & Hc).
  rewrite (written_version _ _ _ Hw) in Hr. by exists r.
Qed.
End ReadBack.

(** ** Type inference *)

Lemma span_digits_all ds :
  forallb is_digit ds = true -> span_digits ds = (ds, []).
Proof.
  induction ds as [|d ds IH]; cbn [span_digits forallb]; [done|].
  intros [Hd Hds]%andb_prop. by rewrite Hd, IH.
Qed.

Lemma float_syntax_digits ds :
  ds <> [] -> forallb is_digit ds = true ->
  float_syntax ds = true /\ float_syntax (43 :: ds) = true
  /\ float_syntax (45 :: ds) = true.
Proof.
  intros Hne Hd.
  assert (forall body, body = ds ->
            (if is_inf_or_nan body then true
             else
               let '(ip, r1) := span_digits body in
               let '(fp, r2) :=
                 match r1 with
                 | c :: r => if c =? 46 then span_digits r else ([], r1)
                 | [] => ([], r1)
                 end in
               negb (str_empty ip && str_empty fp) && exponent_ok r2) = true)
    as Hbody.
  { intros body ->. destruct (is_inf_or_nan ds); [done|].
    rewrite span_digits_all by done. by destruct ds. }
  repeat split.
  - unfold float_syntax. destruct ds as [|d ds]; [done|].
    pose proof Hd as Hd'. cbn [forallb] in Hd'. apply andb_prop in Hd' as [Hd0 _].
    cbn [split_sign].
    assert ((d =? 43) = false /\ (d =? 45) = false) as [-> ->].
    { unfold is_digit in Hd0. split; apply Z.eqb_neq; lia. }
    by apply Hbody.
  - unfold float_syntax. cbn [split_sign]. change (43 =? 43) with true.
    cbv iota. cbn [snd]. by apply Hbody.
  - unfold float_syntax. cbn [split_sign]. change (45 =? 43) with false.
    change (45 =? 45) with true. cbv iota. cbn [snd]. by apply Hbody.
Qed.

Lemma underscores_ok_after_sign c body :
  (c =? 95) = false -> underscores_ok 0 body = true ->
  underscores_ok 0 (c :: body) = true.
Proof.
  intros Hc Hb. cbn [underscores_ok]. rewrite Hc. change (0 =? 95) with false.
  cbv iota. cbn [andb]. destruct body as [|d t]; cbn [underscores_ok] in *.
  - by rewrite Hc.
  - rewrite Hc. destruct (d =? 95); [|done]. by rewrite andb_false_l in Hb.
Qed.

Lemma int_from_ascii_float_ok m v n :
  int_from_ascii m v = Some n -> float_ascii_ok v = true.
Proof.
  unfold int_from_ascii, float_ascii_ok.
  destruct (strip v) as [|c t] eqn:Hs.
  { cbn. discriminate. }
  cbn [split_sign].
  destruct (Z.eqb_spec c 43) as [->|H43];
    [|destruct (Z.eqb_spec c 45) as [->|H45]].
  - destruct (underscores_ok 0 t) eqn:Hu; [|discriminate].
    destruct (remove_underscores t) as [|d ds] eqn:Hr; [discriminate|].
    cbn [andb negb str_empty]. destruct (forallb is_digit (d :: ds)) eqn:Hd;
      [|discriminate].
    intros _. rewrite underscores_ok_after_sign by done.
    cbn [remove_underscores List.filter]. change (43 =? 95) with false.
    cbn [negb]. fold (remove_underscores t). rewrite Hr.
    by apply float_syntax_digits.
  - destruct (underscores_ok 0 t) eqn:Hu; [|discriminate].
    destruct (remove_underscores t) as [|d ds] eqn:Hr; [discriminate|].
    cbn [andb negb str_empty]. destruct (forallb is_digit (d :: ds)) eqn:Hd;
      [|discriminate].
    intros _. rewrite underscores_ok_after_sign by done.
    cbn [remove_underscores List.filter]. change (45 =? 95) with false.
    cbn [negb]. fold (remove_underscores t). rewrite Hr.
    by apply float_syntax_digits.
  - destruct (underscores_ok 0 (c :: t)) eqn:Hu; [|discriminate].
    destruct (remove_underscores (c :: t)) as [|d ds] eqn:Hr; [discriminate|].
    cbn [andb negb str_empty]. destruct (forallb is_digit (d :: ds)) eqn:Hd;
      [|discriminate].
    intros _. by destruct (float_syntax_digits (d :: ds)) as (-> & _).
Qed.

(** Whatever [int] accepts, [float] accepts. *)
Lemma py_int_float_ok `{Interpreter} v n : py_int v = Some n -> py_float_ok v = true.
Proof. apply int_from_ascii_float_ok. Qed.

Section Inference.
Context {interp : Interpreter}.

(** The two flags after the loop, from any starting flags. *)
Lemma infer_flags values : forall is_int is_float,
  fold_left
    (fun '(is_int, is_float) v =>
       if str_empty v then (is_int, is_float)
       else
         match py_int v with
         | Some _ => (is_int, is_float)
         | None => (false, if py_float_ok v then is_float else false)
         end)
    values (is_int, is_float)
  = (is_int && forallb int_or_empty values,
     is_float && forallb (fun v => int_or_empty v || float_or_empty v) values).
Proof.
  induction values as [|v vs IH]; intros is_int is_float.
  - cbn. by rewrite !andb_true_r.
  - cbn [fold_left forallb].
    assert (int_or_empty v
            = str_empty v
              || match py_int v with Some _ => true | None => false end)
      as -> by done.
    assert (float_or_empty v = str_empty v || py_float_ok v) as -> by done.
    destruct (str_empty v); cbn [orb]; [by rewrite IH|].
    destruct (py_int v); cbn [orb]; [by rewrite IH|].
    rewrite IH. cbn [andb]. rewrite andb_false_r.
    by destruct (py_float_ok v), is_float.
Qed.

Lemma int_or_float_or_empty v :
  int_or_empty v || float_or_empty v = float_or_empty v.
Proof.
  unfold int_or_empty, float_or_empty. destruct (str_empty v); [done|].
  cbn [orb]. destruct (py_int v) eqn:Hi; [|done].
  by rewrite (py_int_float_ok _ _ Hi).
Qed.

Lemma forallb_pointwise {A} (f g : A -> bool) l :
  (forall x, f x = g x) -> forallb f l = forallb g l.
Proof.
  intros Hfg. induction l as [|x l IH]; cbn; [done|]. by rewrite Hfg, IH.
Qed.

Lemma infer_type_spec values :
  infer_type values =
  if forallb int_or_empty values then DT_INT32
  else if forallb float_or_empty values then DT_FLOAT64
  else DT_STRING.
Proof.
  unfold infer_type. rewrite infer_flags. cbn [andb].
  destruct (forallb int_or_empty values); [done|].
  by rewrite (forallb_pointwise _ float_or_empty _ int_or_float_or_empty).
Qed.

Lemma int_or_empty_iff v :
  int_or_empty v = true <-> (v <> [] -> parses_int v).
Proof.
  unfold int_or_empty, parses_int. destruct v as [|c t]; cbn [str_empty orb].
  - split; [by intros _ []|done].
  - destruct (py_int (c :: t)) as [n|].
    + split; [by eauto | done].
    + split; [done|]. intros Hp. by destruct Hp as [n Hn].
Qed.

Lemma float_or_empty_iff v :
  float_or_empty v = true <-> (v <> [] -> parses_float v).
Proof.
  unfold float_or_empty, parses_float. destruct v as [|c t]; cbn [str_empty orb].
  - split; [by intros _ []|done].
  - split; [done|]. intros Hp. by apply Hp.
Qed.

End Inference.

Lemma forallb_Forall {A} (f : A -> bool) (P : A -> Prop) l :
  (forall x, f x = true <-> P x) -> forallb f l = true <-> Forall P l.
Proof.
  intros Hf. induction l as [|x l IH]; cbn [forallb].
  - split; [constructor | done].
  - split.
    + intros [Hx Hl]%andb_prop. constructor; [by apply Hf | by apply IH].
    + intros [Hx Hl]%Forall_cons_1. apply andb_true_intro.
      split; [by apply Hf | by apply IH].
Qed.

(** C4.  [infer_type] returns INT32 when every non-empty value is accepted
    by [int]; otherwise FLOAT64 when every non-empty value is accepted by
    [float]; otherwise STRING.  A sequence of empty strings gives INT32. *)
Theorem infer_type_rule `{Interpreter} (values : list str) :
  (all_int values -> infer_type values = DT_INT32) /\
  (~ all_int values -> all_float values -> infer_type values = DT_FLOAT64) /\
  (~ all_int values -> ~ all_float values -> infer_type values = DT_STRING) /\
  (Forall (fun v => v = []) values -> infer_type values = DT_INT32).
Proof.
  pose proof (forallb_Forall _ _ values int_or_empty_iff) as Hi.
  pose proof (forallb_Forall _ _ values float_or_empty_iff) as Hf.
  fold (all_int values) in Hi. fold (all_float values) in Hf.
  assert (Forall (fun v => v = []) values -> all_int values) as Hempty.
  { intros He. eapply Forall_impl; [|exact He]. by intros v -> []. }
  rewrite infer_type_spec.
  destruct (forallb int_or_empty values).
  - assert (all_int values) as Ha by (by apply Hi).
    repeat split; try done; intros Hn; by destruct (Hn Ha).
  - assert (~ all_int values) as Hna by (intros Ha; by apply Hi in Ha).
    destruct (forallb float_or_empty values).
    + repeat split; try done.
      * intros _ Hnf. destruct Hnf. by apply Hf.
      * intros He. by destruct (Hna (Hempty He)).
    + repeat split; try done.
      * intros _ Ha. by apply Hf in Ha.
      * intros He. by destruct (Hna (Hempty He)).
Qed.

(** Split a [Forall] over a literal list into one goal per element. *)
Ltac forall_list := repeat first [apply Forall_nil_2 | apply Forall_cons_2].

(** The second element of a literal list fails a [Forall]. *)
Ltac second_fails Hall Hx :=
  apply Forall_cons_1 in Hall as [_ Hall];
  apply Forall_cons_1 in Hall as [Hx _].

Lemma infer_type_rule_witness :
  (@all_int sample_interpreter int_values
   /\ @infer_type sample_interpreter int_values = DT_INT32) /\
  (~ @all_int sample_interpreter float_values
   /\ @all_float sample_interpreter float_values
   /\ @infer_type sample_interpreter float_values = DT_FLOAT64) /\
  (~ @all_int sample_interpreter text_values
   /\ ~ @all_float sample_interpreter text_values
   /\ @infer_type sample_interpreter text_values = DT_STRING) /\
  (Forall (fun v => v = []) null_values
   /\ @infer_type sample_interpreter null_values = DT_INT32).
Proof.
  assert (@all_int sample_interpreter int_values) as H1.
  { unfold all_int, int_values.
    forall_list; intros Hne; [by exists 1 | done | by exists 5]. }
  assert (~ @all_int sample_interpreter float_values) as H2.
  { intros Hall. second_fails Hall Hx.
    destruct Hx as [n Hn]; [done | discriminate Hn]. }
  assert (@all_float sample_interpreter float_values) as H3
    by (unfold all_float, float_values; forall_list; done).
  assert (~ @all_int sample_interpreter text_values) as H4.
  { intros Hall. second_fails Hall Hx.
    destruct Hx as [n Hn]; [done | discriminate Hn]. }
  assert (~ @all_float sample_interpreter text_values) as H5.
  { intros Hall. second_fails Hall Hx.
    assert (@parses_float sample_interpreter (py "x")) as Hp by (by apply Hx).
    discriminate Hp. }
  assert (Forall (fun v : str => v = []) null_values) as H6
    by (unfold null_values; forall_list; done).
  pose proof (@infer_type_rule sample_interpreter int_values) as (R1 & _).
  pose proof (@infer_type_rule sample_interpreter float_values) as (_ & R2 & _).
  pose proof (@infer_type_rule sample_interpreter text_values)
    as (_ & _ & R3 & _).
  pose proof (@infer_type_rule sample_interpreter null_values)
    as (_ & _ & _ & R4).
  split; [|split; [|split]].
  - split; [exact H1 | exact (R1 H1)].
  - split; [exact H2 | split; [exact H3 | exact (R2 H2 H3)]].
  - split; [exact H4 | split; [exact H5 | exact (R3 H4 H5)]].
  - split; [exact H6 | exact (R4 H6)].
Defined.

(** ** Round trips through a file *)

(** Case analysis on membership in a literal list. *)
Ltac elem_cases H :=
  repeat (apply elem_of_cons in H as [->|H]); [..| by apply elem_of_nil in H].

Section RoundTrips.
Context {zlib : Zlib} {fl : Float} {interp : Interpreter}.
Hypothesis zlib_lossless : lossless.
Import CCFWriter CCFReader.

(** What is read back from an INT32 column is [str(int(v))] for every
    non-empty cell [v]. *)
Lemma read_int32_column header_cols rows f j nm :
  write header_cols rows = OK f ->
  header_cols !! j = Some (nm, DT_INT32) ->
  (forall k col, (k < j)%nat -> header_cols !! k = Some col -> fst col <> nm) ->
  exists r,
    _read_header f = OK r /\
    read_column r nm
    = OK (map (fun row =>
                 if str_empty (cell row j) then None
                 else option_map py_str (py_int (cell row j))) rows).
Proof.
  intros Hw Hj Hfirst.
  destruct (read_written_column zlib_lossless _ _ _ _ _ _ Hw Hj Hfirst)
    as (r & Hr & _ & Hc).
  by exists r.
Qed.
End RoundTrips.



(** C10.  An INT32 column keeps the integer, not the text.  With a
    lossless zlib: when a table is written and every non-empty cell of the
    column (the row's cell at the column's index, the empty string in a
    row too short) is accepted by [int] with a value in the signed 32-bit
    range, reading the column back under its name (the first column to
    carry it) gives null for an empty cell and the canonical rendering
    [str(n)] of the parsed value [n] for any other.  The cells
    ["+5", " 7 ", "1_000", ""] come back as ["5", "7", "1000", null]: the
    parser accepts "+5", " 7 " and "1_000", which are rendered as "5", "7"
    and "1000". *)
Theorem int32_text_normalized `{Zlib, Float, Interpreter}
    (zlib_lossless : lossless) :
  (forall header_cols rows f j nm,
     CCFWriter.write header_cols rows = OK f ->
     header_cols !! j = Some (nm, DT_INT32) ->
     (forall k col, (k < j)%nat -> header_cols !! k = Some col -> fst col <> nm) ->
     (forall row, row ∈ rows -> default [] (row !! j) <> [] ->
        exists n, py_int (default [] (row !! j)) = Some n /\
                  - 2 ^ 31 <= n < 2 ^ 31) ->
     exists r out,
       CCFReader._read_header f = OK r /\
       CCFReader.read_column r nm = OK out /\
       Forall2 (fun row o =>
                  (default [] (row !! j) = [] /\ o = None) \/
                  exists n, default [] (row !! j) <> [] /\
                            py_int (default [] (row !! j)) = Some n /\
                            o = Some (py_str n))
               rows out) /\
  (forall f,
     CCFWriter.write S1_schema noncanonical_rows = OK f ->
     exists r,
       CCFReader._read_header f = OK r /\
       CCFReader.read_column r (py "age")
       = OK [Some (py "5"); Some (py "7"); Some (py "1000"); None]) /\
  (py_int (py "+5") = Some 5 /\ py_str 5 = py "5") /\
  (py_int (py " 7 ") = Some 7 /\ py_str 7 = py "7") /\
  (py_int (py "1_000") = Some 1000 /\ py_str 1000 = py "1000").
Proof.
  split; [|split; [|by repeat split]].
  - intros header_cols rows f j nm Hw Hj Hfirst Hparse.
    destruct (read_int32_column zlib_lossless _ _ _ _ _ Hw Hj Hfirst)
      as (r & Hr & Hc).
    exists r. eexists. split; [exact Hr|]. split; [exact Hc|].
    apply Forall2_fmap_r, Forall_Forall2_diag, Forall_forall.
    intros row Hrow%list_elem_of_In. unfold compose. cbn beta.
    specialize (Hparse row Hrow).
    change (CCFWriter.cell row j) with (default [] (row !! j)).
    destruct (default [] (row !! j)) as [|c t].
    + by left.
    + right. destruct Hparse as (n & Hn & _); [done|].
      exists n. by rewrite Hn.
  - intros f Hw.
    destruct (read_int32_column zlib_lossless S1_schema noncanonical_rows f 0
                (py "age") Hw eq_refl)
      as (r & Hr & Hc); [intros; lia|].
    by exists r.
Qed.

Lemma int32_text_normalized_witness :
  sample_write S1_schema noncanonical_rows = OK noncanonical_file /\
  S1_schema !! 0%nat = Some (py "age", DT_INT32) /\
  (forall row, row ∈ noncanonical_rows -> default [] (row !! 0%nat) <> [] ->
     exists n, @py_int sample_interpreter (default [] (row !! 0%nat)) = Some n /\
               - 2 ^ 31 <= n < 2 ^ 31) /\
  exists r out,
    CCFReader._read_header noncanonical_file = OK r /\
    sample_read_column r (py "age") = OK out /\
    out = [Some (py "5"); Some (py "7"); Some (py "1000"); None] /\
    Forall2 (fun row o =>
               (default [] (row !! 0%nat) = [] /\ o = None) \/
               exists n, default [] (row !! 0%nat) <> [] /\
                         @py_int sample_interpreter (default [] (row !! 0%nat))
                         = Some n /\
                         o = Some (py_str n))
            noncanonical_rows out.
Proof.
  assert (forall row, row ∈ noncanonical_rows ->
            default [] (row !! 0%nat) <> [] ->
            exists n, @py_int sample_interpreter (default [] (row !! 0%nat))
                      = Some n /\ - 2 ^ 31 <= n < 2 ^ 31) as Hparse.
  { intros row Hrow Hne. unfold noncanonical_rows in Hrow. elem_cases Hrow.
    - exists 5. split; [reflexivity | lia].
    - exists 7. split; [reflexivity | lia].
    - exists 1000. split; [reflexivity | lia].
    - by destruct Hne. }
  split; [reflexivity|]. split; [reflexivity|]. split; [exact Hparse|].
  destruct (proj1 (@int32_text_normalized stored_zlib toy_float
                     sample_interpreter stored_lossless)
              S1_schema noncanonical_rows noncanonical_file 0%nat (py "age")
              eq_refl eq_refl)
    as (r & out & Hr & Hc & Hrows); [intros; lia | exact Hparse |].
  destruct (proj1 (proj2 (@int32_text_normalized stored_zlib toy_float
                            sample_interpreter stored_lossless))
              noncanonical_file eq_refl)
    as (r' & Hr' & Hc').
  assert (r' = r) as -> by congruence.
  exists r, out. split; [exact Hr|]. split; [exact Hc|].
  split; [|exact Hrows].
  unfold sample_read_column in Hc. congruence.
Defined.



(** ** Rows shorter or longer than the schema *)

Lemma cell_fit n r i : (i < n)%nat -> CCFWriter.cell (fit n r) i = CCFWriter.cell r i.
Proof.
  intros Hi. unfold CCFWriter.cell, fit.
  destruct (decide (i < length r)%nat) as [Hlt|Hge].
  - rewrite lookup_app_l by (rewrite length_take; lia).
    by rewrite lookup_take_lt.
  - rewrite lookup_app_r by (rewrite length_take; lia).
    rewrite (lookup_ge_None_2 r i) by lia.
    destruct (replicate (n - length r) ([] : str) !! (i - length (take n r))%nat)
      as [v|] eqn:Hv; [|done].
    by apply lookup_replicate in Hv as [-> _].
Qed.

Lemma transpose_fit n rows :
  CCFWriter.transpose n (map (fit n) rows) = CCFWriter.transpose n rows.
Proof.
  unfold CCFWriter.transpose. apply map_ext_in. intros i Hi%in_seq.
  rewrite map_map. apply map_ext. intros r. apply cell_fit. lia.
Qed.

(** C8.  The writer treats every row as if it were cut or right-padded
    with empty strings to the number of columns of the schema: cells past
    the last column are ignored and missing cells are null.  With a
    lossless zlib, for the schema [(a, INT32), (b, STRING)] and the rows
    [["1"], ["2", "hello"], ["3", "hi", "extra"]], column [a] of the written
    file decodes to ["1", "2", "3"] and column [b] to
    [null, "hello", "hi"]. *)
Theorem write_fits_rows `{Zlib, Float, Interpreter}
    (zlib_lossless : lossless) :
  (forall header_cols rows,
     CCFWriter.write header_cols rows
     = CCFWriter.write header_cols (map (fit (length header_cols)) rows)) /\
  (forall f,
     CCFWriter.write S6_schema S6_rows = OK f ->
     exists r,
       CCFReader._read_header f = OK r /\
       CCFReader.read_column r (py "a")
       = OK [Some (py "1"); Some (py "2"); Some (py "3")] /\
       CCFReader.read_column r (py "b")
       = OK [None; Some (py "hello"); Some (py "hi")]).
Proof.
  split.
  - intros header_cols rows. unfold CCFWriter.write.
    by rewrite length_map, transpose_fit.
  - intros f Hw.
    destruct (read_written_column zlib_lossless S6_schema S6_rows f 0 (py "a") DT_INT32
                Hw eq_refl) as (r & Hr & _ & Ha); [intros; lia|].
    destruct (read_written_column zlib_lossless S6_schema S6_rows f 1 (py "b") DT_STRING
                Hw eq_refl) as (r' & Hr' & _ & Hb).
    { intros k col Hk Hcol. assert (k = 0%nat) as -> by lia.
      injection Hcol as <-. done. }
    assert (r' = r) as -> by congruence.
    exists r. split; [done|]. split; [exact Ha | exact Hb].
Qed.

Lemma write_fits_rows_witness :
  sample_write S6_schema S6_rows = OK S6_file /\
  exists r,
    CCFReader._read_header S6_file = OK r /\
    sample_read_column r (py "a")
    = OK [Some (py "1"); Some (py "2"); Some (py "3")] /\
    sample_read_column r (py "b")
    = OK [None; Some (py "hello"); Some (py "hi")].
Proof.
  split; [reflexivity|].
  apply (proj2 (@write_fits_rows stored_zlib toy_float sample_interpreter
                  stored_lossless) S6_file).
  reflexivity.
Defined.

(** ** FLOAT64 columns *)

Lemma toy_repr_law `{Interpreter} b :
  0 <= b < 2 ^ 64 -> is_finite b = true ->
  @py_float toy_float _ (@float_repr toy_float b) = Some b.
Proof.
  intros Hb _. unfold py_float. cbn [float_repr strtod toy_float].
  pose proof (log2_abs_u64 b Hb) as Hlog.
  rewrite (py_int_float_ok _ _ (py_int_py_str b Hlog)),
    int_from_ascii_py_str by done.
  by rewrite Z.mod_small.
Qed.

Lemma sample_repr_law `{Interpreter} b :
  0 <= b < 2 ^ 64 -> is_finite b = true ->
  @py_float sample_float _ (@float_repr sample_float b) = Some b.
Proof.
  intros Hb _. cbn [float_repr sample_float].
  destruct (Z.eqb_spec b 0x3FF8000000000000) as [->|H1]; [reflexivity|].
  destruct (Z.eqb_spec b 0x4000000000000000) as [->|H2]; [reflexivity|].
  destruct (Z.eqb_spec b 0xC00A000000000000) as [->|H3]; [reflexivity|].
  pose proof (log2_abs_u64 b Hb) as Hlog.
  unfold py_str. destruct (Z.ltb_spec b 0) as [|_]; [lia|].
  destruct (py_str_nat_spec b) as (Hne & Hd & Hv & Hl); [lia|].
  assert (forallb is_digit (48 :: py_str_nat b) = true) as Hd'.
  { cbn [forallb]. by rewrite Hd. }
  assert (int_from_ascii 0 (48 :: py_str_nat b) = Some b) as Hi0.
  { rewrite int_from_ascii_digits; try done.
    - unfold digits_value in *. cbn [fold_left]. by rewrite <- Hv at 2.
    - unfold len in *. cbn [length]. assert (Z.log2 b = Z.log2 (Z.abs b)) by (f_equal; lia). lia. }
  assert (py_int (48 :: py_str_nat b) = Some b) as Hi.
  { unfold py_int. rewrite ascii_form_digits by done.
    rewrite int_from_ascii_digits; try done.
    - unfold digits_value in *. cbn [fold_left]. by rewrite <- Hv at 2.
    - unfold len in *. cbn [length]. assert (Z.log2 b = Z.log2 (Z.abs b)) by (f_equal; lia). lia. }
  unfold py_float. rewrite (py_int_float_ok _ _ Hi).
  cbn [strtod sample_float]. unfold str_eqb.
  rewrite !bool_decide_eq_false_2 by (intros [=]).
  cbn [orb]. rewrite Hi0. by rewrite Z.mod_small.
Qed.

(** C9.  With a lossless zlib: when a table is written, a FLOAT64 column
    whose non-empty cells (the row's cell at the column's index, the empty
    string in a row too short) parse to finite doubles, read back under its
    name (the first column to carry it), comes back with null for every
    empty cell and, for every other cell, the rendering [repr] of the double
    the cell parsed to; with the guarantee of the language that
    [float(repr(x)) == x] for every finite double [x], that text parses to
    exactly this double.  The cells ["1.5", "2", "", "-3.25"] come back as
    the renderings of the doubles of "1.5", "2" and "-3.25", with null in
    the third place. *)
Theorem float64_round_trip `{Zlib, Float, Interpreter}
    (zlib_lossless : lossless) :
  (forall header_cols rows f j nm,
     (forall b, 0 <= b < 2 ^ 64 -> is_finite b = true ->
                py_float (float_repr b) = Some b) ->
     CCFWriter.write header_cols rows = OK f ->
     header_cols !! j = Some (nm, DT_FLOAT64) ->
     (forall k col, (k < j)%nat -> header_cols !! k = Some col -> fst col <> nm) ->
     (forall row, row ∈ rows -> default [] (row !! j) <> [] ->
        exists b, py_float (default [] (row !! j)) = Some b /\
                  is_finite b = true) ->
     exists r out,
       CCFReader._read_header f = OK r /\
       CCFReader.read_column r nm = OK out /\
       Forall2 (fun row o =>
                  (default [] (row !! j) = [] /\ o = None) \/
                  exists b, default [] (row !! j) <> [] /\
                            py_float (default [] (row !! j)) = Some b /\
                            o = Some (float_repr b) /\
                            py_float (float_repr b) = Some b)
               rows out) /\
  (forall f,
     CCFWriter.write [(py "x", DT_FLOAT64)] S3_rows = OK f ->
     exists r x1 x2 x3,
       py_float (py "1.5") = Some x1 /\
       py_float (py "2") = Some x2 /\
       py_float (py "-3.25") = Some x3 /\
       CCFReader._read_header f = OK r /\
       CCFReader.read_column r (py "x")
       = OK [Some (float_repr x1); Some (float_repr x2); None;
             Some (float_repr x3)]).
Proof.
  split.
  - intros header_cols rows f j nm repr_law Hw Hj Hfirst Hparse.
    destruct (read_written_column zlib_lossless _ _ _ _ _ _ Hw Hj Hfirst)
      as (r & Hr & _ & Hc).
    exists r. eexists. split; [exact Hr|]. split; [exact Hc|].
    apply Forall2_fmap_r, Forall_Forall2_diag, Forall_forall.
    intros row Hrow%list_elem_of_In. unfold compose, decoded. cbn beta.
    specialize (Hparse row Hrow).
    change (CCFWriter.cell row j) with (default [] (row !! j)).
    destruct (default [] (row !! j)) as [|c t]; [by left|].
    right. cbn [str_empty]. change (DT_FLOAT64 =? DT_INT32) with false.
    change (DT_FLOAT64 =? DT_FLOAT64) with true. cbv iota.
    destruct Hparse as (b & Hb & Hfin); [done|].
    exists b. rewrite Hb. cbn [option_map]. repeat split; [done|].
    apply repr_law; [by eapply py_float_range | done].
  - intros f Hw.
    destruct (read_written_column zlib_lossless
                [(py "x", DT_FLOAT64)] S3_rows f 0 (py "x") DT_FLOAT64
                Hw eq_refl)
      as (r & Hr & _ & Hc); [intros; lia|].
    exists r. do 3 eexists.
    split; [reflexivity|]. split; [reflexivity|]. split; [reflexivity|].
    split; [exact Hr | exact Hc].
Qed.

Lemma float64_round_trip_witness :
  @CCFWriter.write stored_zlib sample_float sample_interpreter
    [(py "x", DT_FLOAT64)] S3_rows = OK S3_file /\
  (forall row, row ∈ S3_rows -> default [] (row !! 0%nat) <> [] ->
     exists b, @py_float sample_float sample_interpreter
                 (default [] (row !! 0%nat)) = Some b /\
               is_finite b = true) /\
  exists r out,
    CCFReader._read_header S3_file = OK r /\
    @CCFReader.read_column stored_zlib sample_float r (py "x") = OK out /\
    out = [Some (py "1.5"); Some (py "2.0"); None; Some (py "-3.25")] /\
    map (fun o => o ≫= @py_float sample_float sample_interpreter) out
    = [Some 0x3FF8000000000000; Some 0x4000000000000000; None;
       Some 0xC00A000000000000] /\
    Forall2 (fun row o =>
               (default [] (row !! 0%nat) = [] /\ o = None) \/
               exists b, default [] (row !! 0%nat) <> [] /\
                         @py_float sample_float sample_interpreter
                           (default [] (row !! 0%nat)) = Some b /\
                         o = Some (@float_repr sample_float b) /\
                         @py_float sample_float sample_interpreter
                           (@float_repr sample_float b) = Some b)
            S3_rows out.
Proof.
  assert (forall row, row ∈ S3_rows -> default [] (row !! 0%nat) <> [] ->
            exists b, @py_float sample_float sample_interpreter
                        (default [] (row !! 0%nat)) = Some b /\
                      is_finite b = true) as Hparse.
  { intros row Hrow Hne. unfold S3_rows in Hrow. elem_cases Hrow.
    - exists 0x3FF8000000000000. by split.
    - exists 0x4000000000000000. by split.
    - by destruct Hne.
    - exists 0xC00A000000000000. by split. }
  split; [reflexivity|]. split; [exact Hparse|].
  destruct (proj1 (@float64_round_trip stored_zlib sample_float
                     sample_interpreter stored_lossless)
              [(py "x", DT_FLOAT64)] S3_rows S3_file 0%nat (py "x")
              sample_repr_law eq_refl eq_refl)
    as (r & out & Hr & Hc & Hrows); [intros; lia | exact Hparse |].
  destruct (proj2 (@float64_round_trip stored_zlib sample_float
                     sample_interpreter stored_lossless)
              S3_file eq_refl)
    as (r' & x1 & x2 & x3 & H1 & H2 & H3 & Hr' & Hc').
  assert (r' = r) as -> by congruence.
  injection H1 as <-. injection H2 as <-. injection H3 as <-.
  assert (out = [Some (py "1.5"); Some (py "2.0"); None; Some (py "-3.25")])
    as Hout.
  { rewrite Hc' in Hc. injection Hc as <-. reflexivity. }
  exists r, out. split; [exact Hr|]. split; [exact Hc|].
  split; [exact Hout|]. split; [by rewrite Hout | exact Hrows].
Defined.

(** ** Layout of the directory *)

Lemma same_columns_names cols metas :
  same_columns cols metas -> map name metas = map fst cols.
Proof.
  induction 1 as [|col m cols metas [Hn _] _ IH]; cbn; [done|].
  by rewrite Hn, IH.
Qed.

(** C3.  In a written file the HEADER_SIZE field is the sum over the
    columns of [2 + len(name_utf8) + 1 + 8 + 8 + 8]; the directory lists
    the columns in schema order; the first recorded offset is
    [22 + HEADER_SIZE] and every next one is the previous offset plus the
    previous compressed size. *)
Theorem header_layout `{Zlib, Float, Interpreter} header_cols rows f :
  CCFWriter.write header_cols rows = OK f ->
  exists r,
    CCFReader._read_header f = OK r /\
    unpack_u 4 (slice f 8 12) = OK (directory_size header_cols) /\
    map name (CCFReader.columns_meta r) = map fst header_cols /\
    chained (22 + directory_size header_cols) (CCFReader.columns_meta r).
Proof.
  intros Hw.
  destruct (read_written_header _ _ _ Hw)
    as (encoded & hc & _ & Hsize & Hsame & _ & Hr).
  destruct (write_inv _ _ _ Hw)
    as (encoded' & hc' & _ & _ & Hsize' & _ & Bh & _ & _ & Hf).
  cbn zeta in *. eexists. split; [exact Hr|].
  cbn [CCFReader.columns_meta]. split; [|split].
  - assert (slice f 8 12 = le_bytes 4 (directory_size header_cols)) as ->.
    { rewrite Hf, Hsize'.
      eapply (slice_at _ (MAGIC ++ le_bytes 1 VERSION));
        [by rewrite <- app_assoc | done | by rewrite length_le_bytes]. }
    apply unpack_le_bytes. by rewrite <- Hsize'.
  - by apply same_columns_names.
  - rewrite <- Hsize. apply chained_assign_offsets.
Qed.

Lemma header_layout_witness :
  sample_write S6_schema S6_rows = OK S6_file /\
  exists r,
    CCFReader._read_header S6_file = OK r /\
    unpack_u 4 (slice S6_file 8 12) = OK (directory_size S6_schema) /\
    map name (CCFReader.columns_meta r) = map fst S6_schema /\
    chained (22 + directory_size S6_schema) (CCFReader.columns_meta r).
Proof.
  split; [reflexivity|].
  apply (@header_layout stored_zlib toy_float sample_interpreter S6_schema S6_rows S6_file).
  reflexivity.
Defined.

(** ** Integers beyond 32 bits *)

(** C7.  What the code does on the column ["3000000000"]: [int] accepts
    the value, which lies outside the signed 32-bit range, and [infer_type]
    answers INT32, not FLOAT64; writing the column under the inferred type
    then raises [struct.error]. *)
Theorem infer_type_out_of_range `{Zlib, Float, Interpreter} :
  py_int (py "3000000000") = Some 3000000000 /\
  ~ (- 2 ^ 31 <= 3000000000 < 2 ^ 31) /\
  infer_type [py "3000000000"] = DT_INT32 /\
  infer_type [py "3000000000"] <> DT_FLOAT64 /\
  CCFWriter.write [(py "n", infer_type [py "3000000000"])] [[py "3000000000"]]
  = Err StructError.
Proof.
  split; [reflexivity|]. split; [lia|]. split; [reflexivity|].
  split; [discriminate|]. reflexivity.
Qed.

(** ** The version byte *)

(** C5 as amended.  Construction reads the VERSION byte and does not
    compare it with anything.  Whatever the byte, construction succeeds or
    fails in the same way, with the same row count, column count and
    metadata, and every column whose block starts after the prefix is read
    to the same result.  In particular (with a lossless zlib) a written
    file whose VERSION byte is then set to any value is still constructed
    and its columns are read as written. *)
Theorem version_not_validated `{Zlib, Float, Interpreter} (v : Z) :
  (forall f,
     header_view (CCFReader._read_header (<[7%nat := v]> f))
     = header_view (CCFReader._read_header f)) /\
  (forall f r r' nm meta,
     CCFReader._read_header f = OK r ->
     CCFReader._read_header (<[7%nat := v]> f) = OK r' ->
     CCFReader.find_meta (CCFReader.columns_meta r) nm = Some meta ->
     8 <= offset meta ->
     CCFReader.read_column r' nm = CCFReader.read_column r nm) /\
  (lossless ->
   forall header_cols rows f j nm dt,
     CCFWriter.write header_cols rows = OK f ->
     header_cols !! j = Some (nm, dt) ->
     (forall k col, (k < j)%nat -> header_cols !! k = Some col ->
                    fst col <> nm) ->
     exists r,
       CCFReader._read_header (<[7%nat := v]> f) = OK r /\
       CCFReader.read_column r nm
       = OK (map (fun row => decoded dt (CCFWriter.cell row j)) rows)).
Proof.
  split; [intros f; apply read_header_any_version|]. split.
  - intros f r r' nm meta Hr Hr' Hfind Hoff.
    pose proof (read_header_any_version f v) as Hview.
    rewrite Hr, Hr' in Hview. injection Hview as Hrows Hcols Hmetas.
    unfold CCFReader.read_column.
    rewrite Hmetas, Hfind, Hrows, (read_header_file _ _ Hr),
      (read_header_file _ _ Hr').
    by rewrite drop_insert_lt by lia.
  - intros Hzlib header_cols rows f j nm dt Hw Hj Hfirst.
    destruct (read_written_column_version Hzlib _ _ _ _ _ _ v Hw Hj Hfirst)
      as (r & Hr & _ & Hc).
    by exists r.
Qed.

Lemma version_not_validated_witness :
  sample_write S1_schema S1_rows = OK S1_file /\
  CCFReader._read_header S1_file = OK S1_reader /\
  (forall r', CCFReader._read_header (<[7%nat := 2]> S1_file) = OK r' ->
     sample_read_column r' (py "age")
     = sample_read_column S1_reader (py "age")) /\
  exists r,
    CCFReader._read_header (<[7%nat := 2]> S1_file) = OK r /\
    sample_read_column r (py "age")
    = OK [Some (py "30"); None; Some (py "42"); Some (py "7")].
Proof.
  assert (CCFReader._read_header S1_file = OK S1_reader) as Hr
    by (vm_compute; reflexivity).
  pose proof (@version_not_validated stored_zlib toy_float sample_interpreter 2)
    as (_ & Hread & Hwritten).
  split; [reflexivity|]. split; [exact Hr|]. split.
  - intros r' Hr'.
    apply (Hread S1_file S1_reader r' (py "age") S1_meta Hr Hr').
    + vm_compute. reflexivity.
    + cbn [offset S1_meta]. lia.
  - apply (Hwritten stored_lossless S1_schema S1_rows S1_file 0%nat (py "age")
             DT_INT32); [reflexivity | reflexivity | intros; lia].
Defined.

(** A file with the right magic and VERSION byte 2 is accepted:
    construction succeeds and the column is read. *)
Lemma version2_accepted :
  take 7 version2_file = MAGIC /\
  version2_file !! 7%nat = Some 2 /\
  (r <- CCFReader._read_header version2_file ;;
   sample_read_column r (py "age"))
  = OK [Some (py "30"); None; Some (py "42"); Some (py "7")].
Proof. repeat split. Qed.

(** ** Offsets of a STRING block *)

(** Both files are accepted: the column is read, with an empty string
    for the inverted range and a clamped slice for the overlong one. *)
Lemma bad_offsets_accepted :
  (r <- CCFReader._read_header decreasing_offsets_file ;;
   sample_read_column r (py "s"))
  = OK [Some (py "abc"); Some (py "")] /\
  (r <- CCFReader._read_header overlong_offsets_file ;;
   sample_read_column r (py "s"))
  = OK [Some (py "ab"); Some (py "c")].
Proof. split; reflexivity. Qed.

Lemma decode_strings_total bm offsets payload : forall n i0,
  (i0 + n < length offsets)%nat ->
  (i0 + n <= 8 * length bm)%nat ->
  (forall i a b, (i0 <= i < i0 + n)%nat -> is_null bm i = OK false ->
     offsets !! i = Some a -> offsets !! S i = Some b ->
     is_ok (utf8_decode (slice payload (Z.to_nat a) (Z.to_nat b))) = true) ->
  exists out,
    decode_strings bm offsets payload i0 n = OK out /\ length out = n /\
    forall k, (k < n)%nat ->
      (is_null bm (i0 + k) = OK true -> out !! k = Some None) /\
      (is_null bm (i0 + k) = OK false ->
       exists a b s,
         offsets !! (i0 + k)%nat = Some a /\ offsets !! S (i0 + k) = Some b /\
         utf8_decode (slice payload (Z.to_nat a) (Z.to_nat b)) = OK s /\
         out !! k = Some (Some s)).
Proof.
  induction n as [|n IH]; intros i0 Hoff Hbm Hutf.
  - exists []. repeat split; intros; lia.
  - destruct (IH (S i0)) as (out & Hout & Hlen & Hk); [lia | lia | |].
    { intros i a b Hi. apply Hutf. lia. }
    cbn [decode_strings]. rewrite is_null_bit
      by (apply Nat.Div0.div_lt_upper_bound; lia).
    cbn [bind].
    destruct (lookup_lt_is_Some_2 offsets i0 ltac:(lia)) as [a Ha].
    destruct (lookup_lt_is_Some_2 offsets (S i0) ltac:(lia)) as [b Hb].
    pose proof (is_null_bit bm i0
                  ltac:(apply Nat.Div0.div_lt_upper_bound; lia)) as Hnull.
    destruct (bitmap_bit bm i0) eqn:Hbit.
    + cbn [bind]. rewrite Hout. cbn [bind]. eexists. split; [reflexivity|].
      split; [by cbn [length]; rewrite Hlen|].
      intros [|k] Hlt.
      * rewrite Nat.add_0_r, Hnull. split; [done | discriminate].
      * replace (i0 + S k)%nat with (S i0 + k)%nat by lia. apply Hk. lia.
    + unfold index. rewrite Ha, Hb. cbn [bind].
      specialize (Hutf i0 a b ltac:(lia) Hnull Ha Hb).
      destruct (utf8_decode (slice payload (Z.to_nat a) (Z.to_nat b)))
        as [s|] eqn:Hs; [|discriminate].
      cbn [bind]. rewrite Hout. cbn [bind]. eexists. split; [reflexivity|].
      split; [by cbn [length]; rewrite Hlen|].
      intros [|k] Hlt.
      * rewrite Nat.add_0_r, Hnull. split; [discriminate|].
        intros _. by exists a, b, s.
      * replace (i0 + S k)%nat with (S i0 + k)%nat by lia. apply Hk. lia.
Qed.

(** A STRING block is parsed into its bitmap, its offsets and its payload,
    whatever the offsets are. *)
Lemma decode_column_strings `{Float} bm offsets payload R nb offs :
  pack_u32 (len bm) = OK nb ->
  mapM pack_u32 offsets = OK offs ->
  length offsets = S R ->
  decode_column R DT_STRING (nb ++ bm ++ concat offs ++ payload)
  = decode_strings bm offsets payload 0 R.
Proof.
  intros Hnb Hoffs Hlen. unfold decode_column.
  rewrite read_app by (by eapply pack_u_length).
  rewrite (unpack_pack_u _ _ _ Hnb). cbn [bind].
  unfold len. rewrite Nat2Z.id, read_app by done.
  change (DT_STRING =? DT_INT32) with false.
  change (DT_STRING =? DT_FLOAT64) with false.
  change (DT_STRING =? DT_STRING) with true. cbv iota.
  replace (R + 1)%nat with (length offsets) by lia.
  by rewrite (read_offsets_pack _ _ _ Hoffs).
Qed.

(** C6 as amended.  Reading a STRING block checks neither that the offsets
    are non-decreasing nor that they stay within the payload.  For a block
    made of a bitmap covering [R] rows, [R + 1] offsets and a payload, it
    returns [R] values whenever the slice of every non-null row is valid
    UTF-8: a null for every null row, and for every other row the decoding
    of the clamped slice [payload[offsets[i]:offsets[i+1]]], which is the
    empty string when [offsets[i+1] <= offsets[i]]. *)
Theorem string_offsets_not_validated `{Float} (bm : bytes) (offsets : list Z)
    (payload : bytes) (R : nat) (nb : bytes) (offs : list bytes) :
  pack_u32 (len bm) = OK nb ->
  mapM pack_u32 offsets = OK offs ->
  length offsets = S R ->
  (R <= 8 * length bm)%nat ->
  (forall i a b, (i < R)%nat -> is_null bm i = OK false ->
     offsets !! i = Some a -> offsets !! S i = Some b ->
     is_ok (utf8_decode (slice payload (Z.to_nat a) (Z.to_nat b))) = true) ->
  exists out,
    decode_column R DT_STRING (nb ++ bm ++ concat offs ++ payload) = OK out /\
    length out = R /\
    forall i, (i < R)%nat ->
      (is_null bm i = OK true -> out !! i = Some None) /\
      (is_null bm i = OK false ->
       exists a b s,
         offsets !! i = Some a /\ offsets !! S i = Some b /\
         utf8_decode (slice payload (Z.to_nat a) (Z.to_nat b)) = OK s /\
         out !! i = Some (Some s) /\
         (b <= a -> s = [])).
Proof.
  intros Hnb Hoffs Hlen Hbm Hutf.
  rewrite (decode_column_strings _ _ _ _ _ _ Hnb Hoffs Hlen).
  destruct (decode_strings_total bm offsets payload R 0)
    as (out & Hout & Hl & Hk); [lia | lia | |].
  { intros i a b Hi. apply Hutf. lia. }
  exists out. split; [done|]. split; [done|].
  intros i Hi. destruct (Hk i Hi) as [Hnull Hval]. cbn [Nat.add] in *.
  split; [done|]. intros Hn.
  destruct (Hval Hn) as (a & b & s & Ha & Hb & Hs & Ho).
  exists a, b, s. repeat split; try done.
  intros Hle. unfold slice in Hs.
  replace (Z.to_nat b - Z.to_nat a)%nat with 0%nat in Hs by lia.
  cbn in Hs. by injection Hs as <-.
Qed.

Lemma string_offsets_not_validated_witness :
  exists out,
    @decode_column toy_float 2 DT_STRING (string_block [0; 3; 1] [97; 98; 99])
    = OK out /\
    length out = 2%nat /\
    forall i, (i < 2)%nat ->
      (is_null [0] i = OK true -> out !! i = Some None) /\
      (is_null [0] i = OK false ->
       exists a b s,
         [0; 3; 1] !! i = Some a /\ [0; 3; 1] !! S i = Some b /\
         utf8_decode (slice [97; 98; 99] (Z.to_nat a) (Z.to_nat b)) = OK s /\
         out !! i = Some (Some s) /\
         (b <= a -> s = [])).
Proof.
  apply (@string_offsets_not_validated toy_float [0] [0; 3; 1] [97; 98; 99] 2
           (le_bytes 4 1) (map (le_bytes 4) [0; 3; 1]));
    [reflexivity | reflexivity | reflexivity | cbn; lia |].
  intros i a b Hi _ Ha Hb.
  destruct i as [|[|i]]; [| |lia];
    cbn in Ha, Hb; injection Ha as <-; injection Hb as <-; reflexivity.
Defined.

(** * Reader, writer, inference and scripts as a whole *)

(** ** Shapes of what the reader returns *)

Lemma mapM_length {A B} (f : A -> result B) l ys :
  mapM f l = OK ys -> length ys = length l.
Proof.
  revert ys. induction l as [|x l IH]; intros ys Hm; cbn in Hm.
  - by injection Hm as <-.
  - inv_binds. cbn. f_equal. by apply IH.
Qed.

Lemma mapM_OK_map {A B} (g : A -> B) l :
  mapM (fun x => OK (g x)) l = OK (map g l).
Proof. induction l as [|x l IH]; cbn; [done|]. by rewrite IH. Qed.

Lemma mapM_ext_in {A B} (f g : A -> result B) l :
  (forall x, x ∈ l -> f x = g x) -> mapM f l = mapM g l.
Proof.
  induction l as [|x l IH]; intros Hfg; cbn; [done|].
  rewrite (Hfg x) by left. rewrite IH; [done|].
  intros y Hy. apply Hfg. by right.
Qed.


Section Shapes.
Context {fl : Float}.




End Shapes.

Lemma mapM_Forall2 {A B} (f : A -> result B) l ys :
  mapM f l = OK ys -> Forall2 (fun x y => f x = OK y) l ys.
Proof.
  revert ys. induction l as [|x l IH]; intros ys Hm; cbn in Hm.
  - injection Hm as <-. constructor.
  - inv_binds. constructor; [done | by apply IH].
Qed.

Lemma Forall2_compose {A B C} (P : A -> B -> Prop) (Q : B -> C -> Prop) l k m :
  Forall2 P l k -> Forall2 Q k m ->
  Forall2 (fun x z => exists y, P x y /\ Q y z) l m.
Proof.
  intros HP. revert m. induction HP as [|x y l k Hxy _ IH]; intros m HQ.
  - inversion HQ. constructor.
  - inversion HQ as [|? z ? m' Hyz HQ']; subst.
    constructor; [eauto | by apply IH].
Qed.



(** X2.  [read_table] returns the requested names (all the names of the
    directory by default) and one row per row of the header's row count; cell
    [k] of row [i] is value [i] of the column read under name [k], the empty
    string standing for a null. *)
Theorem read_table_cells `{Zlib, Float} r columns cs rows :
  CCFReader.read_table r columns = OK (cs, rows) ->
  cs = default (map name (CCFReader.columns_meta r)) columns /\
  length rows = Z.to_nat (CCFReader.num_rows r) /\
  forall i row, rows !! i = Some row ->
    Forall2 (fun nm v => exists col o,
               CCFReader.read_column r nm = OK col /\
               col !! i = Some o /\ v = text o) cs row.
Proof.
  unfold CCFReader.read_table. intros Ht. inv_binds.
  split; [by destruct columns|]. 
  pose proof (mapM_length _ _ _ Ha0) as Hlen. rewrite length_seq in Hlen.
  split; [done|]. intros i row Hrow.
  assert (i < Z.to_nat (CCFReader.num_rows r))%nat as Hi.
  { rewrite <- Hlen. by eapply lookup_lt_Some. }
  destruct (mapM_lookup _ _ _ i i Ha0) as (row' & Hrow' & Hcells).
  { by rewrite lookup_seq_lt. }
  assert (row' = row) as -> by congruence.
  apply mapM_Forall2 in Ha, Hcells.
  eapply Forall2_impl; [|exact (Forall2_compose _ _ _ _ _ Ha Hcells)].
  intros nm v (col & Hcol & Hv). cbn in Hv.
  destruct (col !! i) as [[val|]|] eqn:Hci; [| |done];
    injection Hv as <-; eauto.
Qed.

Lemma read_table_cells_witness :
  [py "age"] = default (map name (CCFReader.columns_meta S1_reader)) None /\
  length [[py "30"]; [py ""]; [py "42"]; [py "7"]]
  = Z.to_nat (CCFReader.num_rows S1_reader) /\
  forall i row, [[py "30"]; [py ""]; [py "42"]; [py "7"]] !! i = Some row ->
    Forall2 (fun nm v => exists col o,
               sample_read_column S1_reader nm = OK col /\
               col !! i = Some o /\ v = text o) [py "age"] row.
Proof.
  apply (@read_table_cells stored_zlib toy_float S1_reader None).
  vm_compute. reflexivity.
Defined.

(** ** Files that are not accepted *)

Lemma bind_Err {A B} (m : result A) (k : A -> result B) e :
  bind m k = Err e -> m = Err e \/ exists a, m = OK a /\ k a = Err e.
Proof. destruct m as [a|e']; cbn; [eauto | intros [= ->]; by left]. Qed.

Lemma unpack_u_Err w bs e : unpack_u w bs = Err e -> e = StructError.
Proof. unfold unpack_u. case_match; congruence. Qed.

Lemma unpack_u_short w bs : length bs <> w -> unpack_u w bs = Err StructError.
Proof.
  intros Hl. unfold unpack_u.
  by destruct (Nat.eqb_spec (length bs) w).
Qed.

Lemma unpack_u_exact w bs : length bs = w -> unpack_u w bs = OK (le_val bs).
Proof. intros Hl. unfold unpack_u. by rewrite Hl, Nat.eqb_refl. Qed.

Lemma unpack_u_OK_length w bs x : unpack_u w bs = OK x -> length bs = w.
Proof.
  unfold unpack_u. destruct (Nat.eqb_spec (length bs) w); [done|discriminate].
Qed.

Lemma utf8_decode_Err_length n : forall bs e,
  (length bs <= n)%nat -> utf8_decode bs = Err e -> e = UnicodeDecodeError.
Proof.
  induction n as [|n IH]; intros bs e Hn.
  { destruct bs; [done | cbn in Hn; lia]. }
  destruct bs as [|b0 t0]; [done|]. cbn in Hn. cbn [utf8_decode].
  repeat case_match; subst; cbn [length] in *;
    try (intros [= <-]; done);
    intros Hb; apply bind_Err in Hb as [Hb | (s & _ & Hb)];
    try discriminate Hb; (eapply IH; [|exact Hb]); lia.
Qed.

Lemma utf8_decode_Err bs e : utf8_decode bs = Err e -> e = UnicodeDecodeError.
Proof. by apply (utf8_decode_Err_length (length bs)). Qed.

Lemma read_metas_Err hb : forall n p e,
  CCFReader.read_metas hb n p = Err e ->
  e = StructError \/ e = UnicodeDecodeError.
Proof.
  induction n as [|n IH]; intros p e Hr; cbn in Hr; [done|].
  repeat match type of Hr with
         | bind (unpack_from_u _ _ _) _ = Err _ =>
             apply bind_Err in Hr as [Hr | (? & _ & Hr)];
             [left; by eapply unpack_u_Err|]
         | bind (utf8_decode _) _ = Err _ =>
             apply bind_Err in Hr as [Hr | (? & _ & Hr)];
             [right; by eapply utf8_decode_Err|]
         end.
  apply bind_Err in Hr as [Hr | (? & _ & Hr)]; [by eapply IH | done].
Qed.

Lemma read_metas_OK hb : forall n p metas,
  CCFReader.read_metas hb n p = OK metas ->
  length metas = n /\ (0 < n -> p + 27 * n <= length hb)%nat.
Proof.
  induction n as [|n IH]; intros p metas Hr; cbn in Hr.
  - injection Hr as <-. split; [done | lia].
  - inv_binds. destruct (IH _ _ Ha5) as [Hlen Hrest]. split; [cbn; lia|].
    intros _. apply unpack_u_OK_length in Ha4.
    unfold slice in Ha4. rewrite length_take, length_drop in Ha4.
    destruct n; lia.
Qed.

(** X3.  Construction raises the [ValueError] of the magic check when the
    first 7 bytes are not the magic, and only then: with the magic in place
    every failure is a [struct.error] or a [UnicodeDecodeError], and a file
    shorter than the 22 bytes of the prefix raises [struct.error]. *)
Theorem bad_magic_rejected (f : bytes) :
  (take 7 f <> MAGIC -> CCFReader._read_header f = Err ValueError) /\
  (take 7 f = MAGIC ->
   forall e, CCFReader._read_header f = Err e ->
             e = StructError \/ e = UnicodeDecodeError) /\
  (take 7 f = MAGIC -> (length f < 22)%nat ->
   CCFReader._read_header f = Err StructError).
Proof.
  unfold CCFReader._read_header, read, str_eqb.
  change (length MAGIC) with 7%nat.
  case_bool_decide as Hm; cbn [negb]; [|by split; [|split]].
  split; [done|]. split.
  - intros _ e Hr.
    repeat match type of Hr with
           | bind (unpack_u _ _) _ = Err _ =>
               apply bind_Err in Hr as [Hr | (? & _ & Hr)];
               [left; by apply unpack_u_Err in Hr|]
           end.
    apply bind_Err in Hr as [Hr | (? & _ & Hr)]; [|done].
    by apply read_metas_Err in Hr.
  - intros _ Hlen.
    assert (length (take 7 f) = 7%nat) as H7 by by rewrite Hm.
    rewrite length_take in H7.
    destruct (decide (length (drop 7 f) < 1)%nat) as [H1|H1].
    { rewrite (unpack_u_short 1); [done|]. rewrite length_take. lia. }
    rewrite (unpack_u_exact 1) by (rewrite length_take; lia). cbn [bind].
    destruct (decide (length (drop 1 (drop 7 f)) < 4)%nat) as [H4|H4].
    { rewrite (unpack_u_short 4); [done|]. rewrite length_take. lia. }
    rewrite (unpack_u_exact 4) by (rewrite length_take; lia). cbn [bind].
    destruct (decide (length (drop 4 (drop 1 (drop 7 f))) < 8)%nat) as [H8|H8].
    { rewrite (unpack_u_short 8); [done|]. rewrite length_take. lia. }
    rewrite (unpack_u_exact 8) by (rewrite length_take; lia). cbn [bind].
    rewrite (unpack_u_short 2); [done|].
    rewrite length_take, !length_drop in *. lia.
Qed.

Lemma bad_magic_rejected_witness :
  CCFReader._read_header [80; 75; 3; 4] = Err ValueError /\
  CCFReader._read_header (MAGIC ++ [1; 0; 0]) = Err StructError.
Proof.
  split.
  - apply (proj1 (bad_magic_rejected [80; 75; 3; 4])). discriminate.
  - apply (proj2 (proj2 (bad_magic_rejected (MAGIC ++ [1; 0; 0]))));
      [reflexivity | cbn; lia].
Defined.

(** X4.  A file that is accepted starts with the magic, has as many directory
    entries as its column count says, and is long enough for the prefix and
    for the 27 bytes that every entry takes besides its name. *)
Theorem accepted_header_shape (f : bytes) (r : CCFReader.t) :
  CCFReader._read_header f = OK r ->
  CCFReader.file r = f /\
  take 7 f = MAGIC /\
  length (CCFReader.columns_meta r) = Z.to_nat (CCFReader.num_cols r) /\
  22 + 27 * len (CCFReader.columns_meta r) <= len f.
Proof.
  intros Hr. split; [by apply read_header_file|].
  unfold CCFReader._read_header, read, str_eqb in Hr.
  change (length MAGIC) with 7%nat in Hr.
  case_bool_decide as Hm; cbn [negb] in Hr; [|done].
  split; [done|]. inv_binds. cbn.
  destruct (read_metas_OK _ _ _ _ Ha3) as [Hlen Hsize].
  split; [done|].
  apply unpack_u_OK_length in Ha, Ha0, Ha1, Ha2.
  rewrite length_take, !length_drop in *.
  unfold len. rewrite Hlen.
  destruct (Z.to_nat a2) as [|k] eqn:Hk; [lia|].
  specialize (Hsize ltac:(lia)). lia.
Qed.

Lemma accepted_header_shape_witness :
  CCFReader.file S1_reader = S1_file /\
  take 7 S1_file = MAGIC /\
  length (CCFReader.columns_meta S1_reader)
  = Z.to_nat (CCFReader.num_cols S1_reader) /\
  22 + 27 * len (CCFReader.columns_meta S1_reader) <= len S1_file.
Proof.
  apply (accepted_header_shape S1_file S1_reader). vm_compute. reflexivity.
Defined.

(** ** Tables read back from written files *)

Lemma str_eqb_eq (a b : str) : str_eqb a b = true <-> a = b.
Proof. unfold str_eqb. by rewrite bool_decide_eq_true. Qed.

Lemma first_named_spec header_cols nm : forall j0,
  match first_named header_cols nm j0 with
  | Some (j, dt) =>
      (j0 <= j)%nat /\ header_cols !! (j - j0)%nat = Some (nm, dt) /\
      forall k col, (k < j - j0)%nat -> header_cols !! k = Some col ->
                    fst col <> nm
  | None => nm ∉ map fst header_cols
  end.
Proof.
  induction header_cols as [|[n dt] cols IH]; intros j0; cbn.
  { apply not_elem_of_nil. }
  unfold str_eqb. case_bool_decide as Hn.
  - subst n. split; [lia|]. rewrite Nat.sub_diag. split; [done|]. intros; lia.
  - specialize (IH (S j0)). destruct (first_named cols nm (S j0)) as [[j dt']|].
    + destruct IH as (Hj & Hcol & Hfirst). split; [lia|].
      replace (j - j0)%nat with (S (j - S j0)) by lia. split; [done|].
      intros [|k] col Hk Hc; [by injection Hc as <-|].
      eapply Hfirst; [|exact Hc]. lia.
    + rewrite not_elem_of_cons. by split; [congruence|].
Qed.

Lemma first_named_elem header_cols nm :
  nm ∈ map fst header_cols -> is_Some (first_named header_cols nm 0).
Proof.
  intros Hin. pose proof (first_named_spec header_cols nm 0) as Hs.
  destruct (first_named header_cols nm 0) as [[j dt]|]; [by eexists | done].
Qed.

Lemma find_meta_None metas nm :
  nm ∉ map name metas -> CCFReader.find_meta metas nm = None.
Proof.
  induction metas as [|m ms IH]; cbn; [done|].
  rewrite not_elem_of_cons. intros [Hne Hin]. unfold str_eqb.
  case_bool_decide; [congruence | by apply IH].
Qed.

Lemma map_seq_lookup {A B} (F : option A -> B) (l : list A) :
  map (fun i => F (l !! i)) (seq 0 (length l)) = map (fun x => F (Some x)) l.
Proof.
  apply list_eq. intros i. rewrite !list_lookup_fmap.
  destruct (l !! i) as [x|] eqn:Hi.
  - rewrite lookup_seq_lt by (by eapply lookup_lt_Some). cbn. by rewrite Hi.
  - rewrite lookup_seq_ge; [done|]. by apply lookup_ge_None.
Qed.

Lemma Forall_elem {A} (P : A -> Prop) l x : Forall P l -> x ∈ l -> P x.
Proof.
  induction 1 as [|y l Hy _ IH]; intros Hx.
  - by apply elem_of_nil in Hx.
  - apply elem_of_cons in Hx as [->|Hx]; [done | by apply IH].
Qed.

Section Tables.
Context {zlib : Zlib} {fl : Float} {interp : Interpreter}.
Hypothesis zlib_lossless : lossless.
Import CCFWriter CCFReader.

(** What is read under each name of a written file. *)
Lemma read_written_names header_cols rows f :
  write header_cols rows = OK f ->
  exists r,
    _read_header f = OK r /\
    num_rows r = Z.of_nat (length rows) /\
    map name (columns_meta r) = map fst header_cols /\
    forall nm,
      read_column r nm =
      match first_named header_cols nm 0 with
      | Some (j, dt) => OK (map (fun row => decoded dt (cell row j)) rows)
      | None => Err KeyError
      end.
Proof.
  intros Hw.
  destruct (read_written_header _ _ _ Hw)
    as (encoded & hc & _ & _ & Hsame & _ & Hr).
  eexists. split; [exact Hr|]. cbn [num_rows columns_meta].
  split; [done|]. split; [by apply same_columns_names|].
  intros nm. pose proof (first_named_spec header_cols nm 0) as Hs.
  destruct (first_named header_cols nm 0) as [[j dt]|].
  - destruct Hs as (_ & Hj & Hfirst). rewrite Nat.sub_0_r in Hj, Hfirst.
    destruct (read_written_column zlib_lossless _ _ _ _ _ _ Hw Hj Hfirst)
      as (r' & Hr' & _ & Hc).
    rewrite Hr in Hr'. by injection Hr' as <-.
  - unfold read_column. cbn [columns_meta].
    rewrite find_meta_None; [done|].
    by rewrite (same_columns_names _ _ Hsame).
Qed.

Lemma read_table_rows (R : nat) rows (g : str -> list (option str))
    (h : list str -> str -> str) cs :
  R = length rows ->
  (forall nm i row, nm ∈ cs -> rows !! i = Some row ->
     exists o, g nm !! i = Some o /\ text o = h row nm) ->
  mapM (fun i =>
          mapM (fun col : list (option str) =>
                  match col !! i with
                  | Some None => OK []
                  | Some (Some val) => OK val
                  | None => Err IndexError
                  end) (map g cs))
       (seq 0 R)
  = OK (map (fun row => map (h row) cs) rows).
Proof.
  intros -> Hg.
  rewrite (mapM_ext_in _
             (fun i => OK (match rows !! i with
                           | Some row => map (h row) cs
                           | None => []
                           end))).
  - rewrite mapM_OK_map.
    by rewrite (map_seq_lookup
                  (fun o => match o with
                            | Some row => map (h row) cs
                            | None => []
                            end)).
  - intros i Hi. apply elem_of_seq in Hi.
    destruct (lookup_lt_is_Some_2 rows i) as [row Hrow]; [lia|].
    rewrite Hrow.
    rewrite (mapM_ext_in _ (fun col => OK (text (default None (col !! i))))).
    + rewrite mapM_OK_map, map_map. f_equal. apply map_ext_in.
      intros nm Hnm%list_elem_of_In.
      destruct (Hg nm i row Hnm Hrow) as (o & -> & <-). done.
    + intros col Hcol. apply list_elem_of_fmap in Hcol as (nm & -> & Hnm).
      destruct (Hg nm i row Hnm Hrow) as (o & -> & _). by destruct o.
Qed.

Lemma read_table_written header_cols rows f cs :
  write header_cols rows = OK f ->
  Forall (fun nm => nm ∈ map fst header_cols) cs ->
  exists r,
    _read_header f = OK r /\
    map name (columns_meta r) = map fst header_cols /\
    read_table r (Some cs)
    = OK (cs, map (fun row => map (read_back header_cols row) cs) rows).
Proof.
  intros Hw Hcs.
  destruct (read_written_names _ _ _ Hw) as (r & Hr & Hrows & Hnames & Hcol).
  exists r. split; [done|]. split; [done|].
  unfold read_table.
  rewrite (mapM_ext_in _
    (fun nm => OK (match first_named header_cols nm 0 with
                   | Some (j, dt) =>
                       map (fun row => decoded dt (cell row j)) rows
                   | None => []
                   end))).
  2:{ intros nm Hnm. rewrite Hcol.
      by destruct (first_named_elem header_cols nm (Forall_elem _ _ _ Hcs Hnm))
        as [[j dt] ->]. }
  rewrite mapM_OK_map. cbn [bind].
  rewrite (read_table_rows _ rows _ (read_back header_cols));
    [done | by rewrite Hrows, Nat2Z.id |].
  intros nm i row Hnm Hrow. unfold read_back.
  destruct (first_named_elem header_cols nm (Forall_elem _ _ _ Hcs Hnm))
    as [[j dt] ->].
  eexists. split; [|done]. by rewrite list_lookup_fmap, Hrow.
Qed.
End Tables.

Lemma first_named_NoDup header_cols j nm dt :
  NoDup (map fst header_cols) ->
  header_cols !! j = Some (nm, dt) ->
  first_named header_cols nm 0 = Some (j, dt).
Proof.
  intros Hnd Hj. pose proof (first_named_spec header_cols nm 0) as Hs.
  destruct (first_named header_cols nm 0) as [[j' dt']|].
  - destruct Hs as (_ & Hj' & _). rewrite Nat.sub_0_r in Hj'.
    assert (j' = j) as ->.
    { eapply (NoDup_lookup _ _ _ nm Hnd); rewrite list_lookup_fmap.
      - by rewrite Hj'.
      - by rewrite Hj. }
    congruence.
  - destruct Hs. apply list_elem_of_fmap. exists (nm, dt).
    split; [done | by eapply list_elem_of_lookup_2].
Qed.

Lemma read_back_NoDup `{Float, Interpreter} header_cols row :
  NoDup (map fst header_cols) ->
  map (read_back header_cols row) (map fst header_cols)
  = imap (fun j col => text (decoded (snd col) (CCFWriter.cell row j)))
         header_cols.
Proof.
  intros Hnd. apply list_eq. intros j.
  rewrite list_lookup_imap, !list_lookup_fmap.
  destruct (header_cols !! j) as [[nm dt]|] eqn:Hj; [|done].
  cbn. unfold read_back. by rewrite (first_named_NoDup _ _ _ _ Hnd Hj).
Qed.

Lemma fit_lookup n (r : list str) j :
  (j < n)%nat -> fit n r !! j = Some (CCFWriter.cell r j).
Proof.
  intros Hj. rewrite <- (cell_fit n r j Hj). unfold CCFWriter.cell.
  destruct (fit n r !! j) eqn:E; [done|].
  apply lookup_ge_None in E. unfold fit in E.
  rewrite length_app, length_take, length_replicate in E. lia.
Qed.

Lemma length_fit n (r : list str) : length (fit n r) = n.
Proof. unfold fit. rewrite length_app, length_take, length_replicate. lia. Qed.

Lemma fit_id n (r : list str) : length r = n -> fit n r = r.
Proof.
  intros <-. unfold fit. by rewrite take_ge, Nat.sub_diag, app_nil_r.
Qed.

Lemma text_decoded_string `{Float, Interpreter} v :
  text (decoded DT_STRING v) = v.
Proof. by destruct v. Qed.

(** The whole table of a written file, under names that are all different. *)
Lemma read_table_written_all `{Zlib, Float, Interpreter}
    (zlib_lossless : lossless) header_cols rows f :
  CCFWriter.write header_cols rows = OK f ->
  NoDup (map fst header_cols) ->
  exists r,
    CCFReader._read_header f = OK r /\
    CCFReader.read_table r None
    = OK (map fst header_cols,
          map (fun row =>
                 imap (fun j col =>
                         text (decoded (snd col) (CCFWriter.cell row j)))
                      header_cols) rows).
Proof.
  intros Hw Hnd.
  destruct (read_table_written zlib_lossless header_cols rows f
              (map fst header_cols) Hw) as (r & Hr & Hnames & Ht).
  { apply Forall_forall. intros nm Hnm. by apply list_elem_of_In. }
  exists r. split; [done|].
  change (CCFReader.read_table r None)
    with (CCFReader.read_table r (Some (map name (CCFReader.columns_meta r)))).
  rewrite Hnames, Ht. do 2 f_equal. apply map_ext. intros row.
  by apply read_back_NoDup.
Qed.

(** X5.  With a lossless zlib and a schema whose names are all different, the
    table read from a written file has the names of the schema and one row per
    input row; cell [j] of a row is the empty string where the input cell was
    empty or missing and otherwise what column [j] decodes to: the decimal
    text of the integer, the [repr] of the double, or the string itself. *)
Theorem read_table_round_trip `{Zlib, Float, Interpreter}
    (zlib_lossless : lossless) header_cols rows f :
  CCFWriter.write header_cols rows = OK f ->
  NoDup (map fst header_cols) ->
  exists r,
    CCFReader._read_header f = OK r /\
    CCFReader.read_table r None
    = OK (map fst header_cols,
          map (fun row =>
                 imap (fun j col =>
                         text (decoded (snd col) (CCFWriter.cell row j)))
                      header_cols) rows).
Proof.
  intros Hw Hnd. exact (read_table_written_all zlib_lossless _ _ _ Hw Hnd).
Qed.

Lemma read_table_round_trip_witness :
  exists r,
    CCFReader._read_header S6_file = OK r /\
    @CCFReader.read_table stored_zlib toy_float r None
    = OK ([py "a"; py "b"],
          [[py "1"; py ""]; [py "2"; py "hello"]; [py "3"; py "hi"]]).
Proof.
  apply (@read_table_round_trip stored_zlib toy_float sample_interpreter
           stored_lossless S6_schema S6_rows S6_file); [reflexivity|].
  apply (bool_decide_unpack _). vm_compute. reflexivity.
Defined.

(** X6.  With a lossless zlib, a table whose columns are all STRING, under
    names that are all different, comes back as it was written, every row cut
    or padded with empty strings to the width of the schema; a table whose
    rows have exactly that width comes back unchanged. *)
Theorem string_table_identity `{Zlib, Float, Interpreter}
    (zlib_lossless : lossless) header_cols rows f :
  CCFWriter.write header_cols rows = OK f ->
  NoDup (map fst header_cols) ->
  Forall (fun col => snd col = DT_STRING) header_cols ->
  exists r,
    CCFReader._read_header f = OK r /\
    CCFReader.read_table r None
    = OK (map fst header_cols, map (fit (length header_cols)) rows) /\
    (Forall (fun row => length row = length header_cols) rows ->
     CCFReader.read_table r None = OK (map fst header_cols, rows)).
Proof.
  intros Hw Hnd Hstr.
  destruct (read_table_written zlib_lossless header_cols rows f
              (map fst header_cols) Hw) as (r & Hr & Hnames & Ht).
  { apply Forall_forall. intros nm Hnm. by apply list_elem_of_In. }
  exists r. split; [done|].
  change (CCFReader.read_table r None)
    with (CCFReader.read_table r (Some (map name (CCFReader.columns_meta r)))).
  rewrite Hnames, Ht.
  assert (map (fun row => map (read_back header_cols row) (map fst header_cols))
              rows
          = map (fit (length header_cols)) rows) as ->.
  { apply map_ext. intros row. rewrite (read_back_NoDup _ _ Hnd).
    apply list_eq. intros j. rewrite list_lookup_imap.
    destruct (header_cols !! j) as [[nm dt]|] eqn:Hj; cbn.
    - rewrite fit_lookup by (by eapply lookup_lt_Some).
      pose proof (Forall_elem _ _ _ Hstr (list_elem_of_lookup_2 _ _ _ Hj))
        as Hd.
      cbn in Hd. subst dt. by rewrite text_decoded_string.
    - symmetry. apply lookup_ge_None. rewrite length_fit.
      by apply lookup_ge_None. }
  split; [done|]. intros Hrect. do 2 f_equal.
  rewrite <- (map_id rows) at 2. apply map_ext_in.
  intros row Hrow%list_elem_of_In. apply fit_id.
  exact (Forall_elem _ _ _ Hrect Hrow).
Qed.

Lemma string_table_identity_witness :
  exists r,
    CCFReader._read_header S2_file = OK r /\
    @CCFReader.read_table stored_zlib toy_float r None
    = OK ([py "name"], map (fit 1) (map (fun v => [v]) S2_values)) /\
    (Forall (fun row => length row = 1%nat) (map (fun v => [v]) S2_values) ->
     @CCFReader.read_table stored_zlib toy_float r None
     = OK ([py "name"], map (fun v => [v]) S2_values)).
Proof.
  apply (@string_table_identity stored_zlib toy_float sample_interpreter
           stored_lossless [(py "name", DT_STRING)]
           (map (fun v => [v]) S2_values) S2_file); [reflexivity | |].
  - apply (bool_decide_unpack _). vm_compute. reflexivity.
  - repeat constructor.
Defined.

Lemma first_named_first header_cols j nm dt :
  header_cols !! j = Some (nm, dt) ->
  (forall k col, (k < j)%nat -> header_cols !! k = Some col -> fst col <> nm) ->
  first_named header_cols nm 0 = Some (j, dt).
Proof.
  intros Hj Hfirst. pose proof (first_named_spec header_cols nm 0) as Hs.
  destruct (first_named header_cols nm 0) as [[j' dt']|].
  - destruct Hs as (_ & Hj' & Hfirst'). rewrite Nat.sub_0_r in Hj', Hfirst'.
    destruct (Nat.lt_trichotomy j' j) as [Hlt|[->|Hgt]].
    + by destruct (Hfirst _ _ Hlt Hj').
    + congruence.
    + by destruct (Hfirst' _ _ Hgt Hj).
  - destruct Hs. apply list_elem_of_fmap. exists (nm, dt).
    split; [done | by eapply list_elem_of_lookup_2].
Qed.

Lemma mapM_raises {A B} (f : A -> result B) l e :
  (forall x, x ∈ l -> is_ok (f x) = true \/ f x = Err e) ->
  (exists x, x ∈ l /\ f x = Err e) ->
  mapM f l = Err e.
Proof.
  induction l as [|x l IH]; intros Hall (y & Hy & Hfy).
  { by apply elem_of_nil in Hy. }
  cbn. apply elem_of_cons in Hy as [->|Hy]; [by rewrite Hfy|].
  destruct (Hall x ltac:(left)) as [Hx|Hx]; [|by rewrite Hx].
  destruct (f x) as [b|]; [|done]. cbn.
  rewrite IH; [done | | by exists y]. intros z Hz. apply Hall. by right.
Qed.

(** X7.  With a lossless zlib, in a written file [read_column] finds exactly
    the names of the schema: a name of the schema is read, with one value per
    row, and any other name raises [KeyError]. *)
Theorem missing_column_key_error `{Zlib, Float, Interpreter}
    (zlib_lossless : lossless) header_cols rows f :
  CCFWriter.write header_cols rows = OK f ->
  exists r,
    CCFReader._read_header f = OK r /\
    forall nm,
      (nm ∈ map fst header_cols ->
       exists vs, CCFReader.read_column r nm = OK vs /\
                  length vs = length rows) /\
      (nm ∉ map fst header_cols ->
       CCFReader.read_column r nm = Err KeyError).
Proof.
  intros Hw.
  destruct (read_written_names zlib_lossless _ _ _ Hw)
    as (r & Hr & _ & _ & Hcol).
  exists r. split; [done|]. intros nm. rewrite Hcol.
  pose proof (first_named_spec header_cols nm 0) as Hs. split.
  - intros Hin. destruct (first_named_elem _ _ Hin) as [[j dt] ->].
    eexists. split; [done|]. by rewrite length_map.
  - intros Hnin. destruct (first_named header_cols nm 0) as [[j dt]|]; [|done].
    destruct Hs as (_ & Hj & _). destruct Hnin.
    apply list_elem_of_fmap. exists (nm, dt).
    split; [done | by eapply list_elem_of_lookup_2].
Qed.

Lemma missing_column_key_error_witness :
  exists r,
    CCFReader._read_header S6_file = OK r /\
    (exists vs, sample_read_column r (py "b") = OK vs /\ length vs = 3%nat) /\
    sample_read_column r (py "c") = Err KeyError.
Proof.
  destruct (@missing_column_key_error stored_zlib toy_float sample_interpreter
              stored_lossless S6_schema S6_rows S6_file eq_refl)
    as (r & Hr & Hnm).
  exists r. split; [exact Hr|]. split.
  - apply (proj1 (Hnm (py "b"))). apply (bool_decide_unpack _).
    vm_compute. reflexivity.
  - apply (proj2 (Hnm (py "c"))). apply (bool_decide_unpack _).
    vm_compute. reflexivity.
Defined.

(** X8.  With a lossless zlib, [read_table] with a list of names returns, for
    a written file, these names in the order asked, repetitions included, and
    for every input row the cells read under them, each from the first column
    of the schema that carries the name; if one of the names is not in the
    schema it raises [KeyError]. *)
Theorem read_table_selected `{Zlib, Float, Interpreter}
    (zlib_lossless : lossless) header_cols rows f cs :
  CCFWriter.write header_cols rows = OK f ->
  exists r,
    CCFReader._read_header f = OK r /\
    (Forall (fun nm => nm ∈ map fst header_cols) cs ->
     CCFReader.read_table r (Some cs)
     = OK (cs, map (fun row => map (read_back header_cols row) cs) rows)) /\
    (~ Forall (fun nm => nm ∈ map fst header_cols) cs ->
     CCFReader.read_table r (Some cs) = Err KeyError).
Proof.
  intros Hw.
  destruct (read_written_names zlib_lossless _ _ _ Hw)
    as (r & Hr & _ & _ & Hcol).
  exists r. split; [done|]. split.
  - intros Hcs.
    destruct (read_table_written zlib_lossless _ _ _ cs Hw Hcs)
      as (r' & Hr' & _ & Ht).
    rewrite Hr in Hr'. by injection Hr' as <-.
  - intros Hcs. apply not_Forall_Exists in Hcs; [|intros nm; apply _].
    apply Exists_exists in Hcs as (nm & Hnm & Hnin).
    unfold CCFReader.read_table.
    rewrite (mapM_raises _ cs KeyError); [done| |].
    + intros x _. rewrite Hcol.
      destruct (first_named header_cols x 0) as [[j dt]|]; [by left | by right].
    + exists nm. split; [by apply list_elem_of_In|]. rewrite Hcol.
      pose proof (first_named_spec header_cols nm 0) as Hs.
      destruct (first_named header_cols nm 0) as [[j dt]|]; [|done].
      destruct Hs as (_ & Hj & _). destruct Hnin.
      apply list_elem_of_fmap. exists (nm, dt).
      split; [done | by eapply list_elem_of_lookup_2].
Qed.

Lemma read_table_selected_witness :
  exists r,
    CCFReader._read_header S6_file = OK r /\
    @CCFReader.read_table stored_zlib toy_float r
      (Some [py "b"; py "a"; py "b"])
    = OK ([py "b"; py "a"; py "b"],
          [[py ""; py "1"; py ""]; [py "hello"; py "2"; py "hello"];
           [py "hi"; py "3"; py "hi"]]).
Proof.
  destruct (@read_table_selected stored_zlib toy_float sample_interpreter
              stored_lossless S6_schema S6_rows S6_file
              [py "b"; py "a"; py "b"] eq_refl)
    as (r & Hr & Hsel & _).
  exists r. split; [exact Hr|]. apply Hsel.
  apply (bool_decide_unpack _). vm_compute. reflexivity.
Defined.

(** X9.  With a lossless zlib, when two columns of the schema have the same
    name, only the first is ever read: in the table read from the written
    file, the cells at the position of a later column with that name are those
    of the first one, decoded under the first one's type. *)
Theorem duplicate_name_shadowed `{Zlib, Float, Interpreter}
    (zlib_lossless : lossless) header_cols rows f j j' nm dt dt' :
  CCFWriter.write header_cols rows = OK f ->
  header_cols !! j = Some (nm, dt) ->
  (forall k col, (k < j)%nat -> header_cols !! k = Some col -> fst col <> nm) ->
  header_cols !! j' = Some (nm, dt') ->
  exists r cs rows2,
    CCFReader._read_header f = OK r /\
    CCFReader.read_table r None = OK (cs, rows2) /\
    cs !! j' = Some nm /\
    Forall2 (fun row row2 =>
               row2 !! j' = Some (text (decoded dt (CCFWriter.cell row j))))
            rows rows2.
Proof.
  intros Hw Hj Hfirst Hj'.
  destruct (read_table_written zlib_lossless header_cols rows f
              (map fst header_cols) Hw) as (r & Hr & Hnames & Ht).
  { apply Forall_forall. intros x Hx. by apply list_elem_of_In. }
  exists r. do 2 eexists. split; [done|]. split.
  { change (CCFReader.read_table r None)
      with (CCFReader.read_table r
              (Some (map name (CCFReader.columns_meta r)))).
    rewrite Hnames. exact Ht. }
  split; [by rewrite list_lookup_fmap, Hj'|].
  apply Forall2_fmap_r, Forall_Forall2_diag, Forall_forall. intros row _.
  unfold compose. cbn beta. rewrite !list_lookup_fmap, Hj'. cbn.
  unfold read_back.
  by rewrite (first_named_first _ _ _ _ Hj Hfirst).
Qed.

Lemma duplicate_name_shadowed_witness :
  exists r cs rows2,
    CCFReader._read_header twice_file = OK r /\
    @CCFReader.read_table stored_zlib toy_float r None = OK (cs, rows2) /\
    cs !! 1%nat = Some (py "a") /\
    Forall2 (fun row row2 =>
               row2 !! 1%nat
               = Some (text (@decoded toy_float sample_interpreter DT_INT32
                               (CCFWriter.cell row 0))))
            twice_rows rows2.
Proof.
  apply (@duplicate_name_shadowed stored_zlib toy_float sample_interpreter
           stored_lossless twice_schema twice_rows twice_file 0 1
           (py "a") DT_INT32 DT_STRING);
    [reflexivity | reflexivity | intros; lia | reflexivity].
Defined.

(** ** What the encoder of a column accepts and produces *)

Lemma utf8_encode_cp_Err c e :
  utf8_encode_cp c = Err e -> e = UnicodeEncodeError.
Proof. unfold utf8_encode_cp. repeat case_match; congruence. Qed.

Lemma utf8_encode_Err s e : utf8_encode s = Err e -> e = UnicodeEncodeError.
Proof.
  induction s as [|c s IH]; cbn; [done|]. intros Hb.
  apply bind_Err in Hb as [Hb | (b & _ & Hb)]; [by eapply utf8_encode_cp_Err|].
  apply bind_Err in Hb as [Hb | (bs & _ & Hb)]; [by apply IH | done].
Qed.

Lemma name_utf8_OK v b : utf8_encode v = OK b -> name_utf8 v = b.
Proof. unfold name_utf8. by intros ->. Qed.

Lemma str_empty_nil v : str_empty v = true -> v = [].
Proof. by destruct v. Qed.

Lemma last_snoc (l : list Z) x d : List.last (l ++ [x]) d = x.
Proof. apply last_last. Qed.

(** The STRING loop in closed form. *)
Lemma foldM_string_step values : forall pre x buf0,
  foldM string_step values (pre ++ [x], buf0)
  = if forallb (fun v => is_ok (utf8_encode v)) values
    then OK (pre ++ string_offsets x values,
             buf0 ++ concat (map name_utf8 values))
    else Err UnicodeEncodeError.
Proof.
  induction values as [|v vs IH]; intros pre x buf0.
  { cbn. by rewrite app_nil_r. }
  cbn [foldM string_step forallb]. rewrite last_snoc.
  destruct (str_empty v) eqn:Hv.
  - apply str_empty_nil in Hv as ->. cbn [bind utf8_encode is_ok andb].
    rewrite IH. cbn [string_offsets map concat].
    change (name_utf8 []) with (@nil Z). change (len (@nil Z)) with 0.
    rewrite Z.add_0_r. cbn [app]. by rewrite <- app_assoc.
  - destruct (utf8_encode v) as [b|e] eqn:Hb; cbn [bind is_ok andb].
    + rewrite IH. cbn [string_offsets map concat].
      rewrite (name_utf8_OK _ _ Hb). by rewrite <- !app_assoc.
    + by rewrite (utf8_encode_Err _ _ Hb).
Qed.

Lemma utf8_size_nonneg values : 0 <= utf8_size values.
Proof.
  induction values as [|v vs IH]; [done|].
  cbn [utf8_size fold_right]. fold (utf8_size vs). unfold len. lia.
Qed.

Lemma string_offsets_range values : forall x y,
  y ∈ string_offsets x values -> x <= y <= x + utf8_size values.
Proof.
  induction values as [|v vs IH]; intros x y Hy; cbn in Hy.
  - apply list_elem_of_singleton in Hy as ->. cbn. lia.
  - pose proof (utf8_size_nonneg vs). cbn [utf8_size fold_right].
    fold (utf8_size vs).
    apply elem_of_cons in Hy as [->|Hy]; [unfold len; lia|].
    apply IH in Hy. unfold len in *. lia.
Qed.

Lemma string_offsets_last values : forall x,
  x + utf8_size values ∈ string_offsets x values.
Proof.
  induction values as [|v vs IH]; intros x; cbn.
  - rewrite Z.add_0_r. by left.
  - right. fold (utf8_size vs). rewrite Z.add_assoc. apply IH.
Qed.

Lemma mapM_pack_u w (l : list Z) :
  Forall (fun x => 0 <= x < 256 ^ Z.of_nat w) l ->
  mapM (pack_u w) l = OK (map (le_bytes w) l).
Proof.
  induction 1 as [|x l Hx _ IH]; cbn; [done|]. rewrite IH.
  unfold pack_u.
  destruct (Z.leb_spec 0 x); [|lia].
  by destruct (Z.ltb_spec x (256 ^ Z.of_nat w)); [|lia].
Qed.

Lemma pack_u_cases w x :
  pack_u w x = if (0 <=? x) && (x <? 256 ^ Z.of_nat w) then OK (le_bytes w x)
               else Err StructError.
Proof. done. Qed.

(** The STRING encoder in closed form. *)
Lemma encode_strings_spec (values : list str) :
  encode_strings values
  = if negb (forallb (fun v => is_ok (utf8_encode v)) values)
    then Err UnicodeEncodeError
    else if 2 ^ 32 <=? utf8_size values then Err StructError
    else OK (concat (map (le_bytes 4) (string_offsets 0 values))
             ++ concat (map name_utf8 values)).
Proof.
  unfold encode_strings.
  change ([0], @nil Z) with (@nil Z ++ [0], @nil Z).
  rewrite (foldM_string_step values [] 0 []).
  destruct (forallb _ values); cbn [negb bind fst snd app]; [|done].
  destruct (Z.leb_spec (2 ^ 32) (utf8_size values)) as [Hbig|Hsmall].
  - rewrite (mapM_raises _ _ StructError); [done| |].
    + intros x _. unfold pack_u32. rewrite pack_u_cases.
      destruct (_ && _); [by left | by right].
    + exists (0 + utf8_size values). split; [apply string_offsets_last|].
      unfold pack_u32. rewrite pack_u_cases.
      destruct (Z.ltb_spec (0 + utf8_size values) (256 ^ Z.of_nat 4));
        [lia | by rewrite andb_false_r].
  - unfold pack_u32. rewrite mapM_pack_u; [done|].
    apply Forall_forall. intros y Hy%list_elem_of_In.
    apply string_offsets_range in Hy. change (256 ^ Z.of_nat 4) with (2 ^ 32).
    lia.
Qed.

(** X10.  The STRING encoder in closed form: a value that cannot be encoded in
    UTF-8 raises [UnicodeEncodeError]; otherwise [struct.error] is raised when
    the values take 2^32 bytes or more; otherwise the result is the running
    sums of the UTF-8 lengths, from 0, as 4-byte offsets, followed by the
    UTF-8 bytes of the values. *)
Theorem encode_strings_closed_form (values : list str) :
  encode_strings values
  = if negb (forallb (fun v => is_ok (utf8_encode v)) values)
    then Err UnicodeEncodeError
    else if 2 ^ 32 <=? utf8_size values then Err StructError
    else OK (concat (map (le_bytes 4) (string_offsets 0 values))
             ++ concat (map name_utf8 values)).
Proof. exact (encode_strings_spec values). Qed.

Lemma is_ok_mapM {A B} (f : A -> result B) l :
  is_ok (mapM f l) = forallb (fun x => is_ok (f x)) l.
Proof.
  induction l as [|x l IH]; cbn; [done|].
  destruct (f x); cbn; [|done]. rewrite <- IH. by destruct (mapM f l).
Qed.

Lemma is_ok_bind {A B} (m : result A) (k : A -> result B) :
  is_ok (bind m k) = match m with OK a => is_ok (k a) | Err _ => false end.
Proof. by destruct m. Qed.

Lemma is_ok_bind_OK {A B} (m : result A) (g : A -> B) :
  is_ok (x <- m ;; OK (g x)) = is_ok m.
Proof. by destruct m. Qed.

Lemma is_ok_true {A} (m : result A) : is_ok m = true <-> exists a, m = OK a.
Proof. destruct m; cbn; split; [eauto | done | done | by intros [? ?]]. Qed.

Lemma pack_i32_ok n : is_ok (pack_i32 n) = int32_range n.
Proof. unfold pack_i32, int32_range. by destruct (_ && _). Qed.

Lemma length_concat_chunks {A B} (f : A -> result (list B)) w l ys :
  (forall x y, f x = OK y -> length y = w) ->
  mapM f l = OK ys -> length (concat ys) = (w * length l)%nat.
Proof.
  intros Hw. revert ys. induction l as [|x l IH]; intros ys Hm; cbn in Hm.
  - injection Hm as <-. cbn. lia.
  - inv_binds. cbn. rewrite length_app, (Hw _ _ Ha), (IH _ Ha0). lia.
Qed.

Lemma length_string_offsets values : forall x,
  length (string_offsets x values) = S (length values).
Proof.
  induction values as [|v vs IH]; intros x; cbn; [done|]. by rewrite IH.
Qed.

Lemma length_concat_le_bytes w (l : list Z) :
  length (concat (map (le_bytes w) l)) = (w * length l)%nat.
Proof.
  induction l as [|x l IH]; cbn; [lia|].
  rewrite length_app, length_le_bytes, IH. lia.
Qed.

Lemma len_concat_name_utf8 values :
  len (concat (map name_utf8 values)) = utf8_size values.
Proof.
  induction values as [|v vs IH]; [done|].
  cbn [map concat utf8_size fold_right]. fold (utf8_size vs).
  unfold len in *. rewrite length_app. lia.
Qed.

Section ColumnBlocks.
Context {fl : Float} {interp : Interpreter}.

Lemma encode_int32_ok v : is_ok (encode_int32 v) = cell_ok DT_INT32 v.
Proof.
  unfold encode_int32, cell_ok, int_or_raise.
  change (DT_INT32 =? DT_INT32) with true. cbv iota.
  destruct (str_empty v); [done|]. cbn [orb].
  destruct (py_int v) as [n|]; cbn [bind is_ok]; [apply pack_i32_ok | done].
Qed.

Lemma encode_float64_ok v : is_ok (encode_float64 v) = cell_ok DT_FLOAT64 v.
Proof.
  unfold encode_float64, cell_ok, float_or_raise, py_float.
  change (DT_FLOAT64 =? DT_INT32) with false.
  change (DT_FLOAT64 =? DT_FLOAT64) with true. cbv iota.
  destruct (str_empty v); [done|]. cbn [orb].
  by destruct (py_float_ok v).
Qed.

Lemma cell_ok_string v : cell_ok DT_STRING v = is_ok (utf8_encode v).
Proof.
  unfold cell_ok. change (DT_STRING =? DT_INT32) with false.
  change (DT_STRING =? DT_FLOAT64) with false. cbv iota.
  by destruct v.
Qed.

(** When the encoder of a column succeeds. *)
Lemma is_ok_encode_column (R : nat) (dt : Z) (values : list str) :
  is_ok (encode_column R dt values)
  = (Z.of_nat ((R + 7) / 8) <? 2 ^ 32)
    && ((dt =? DT_INT32) || (dt =? DT_FLOAT64) || (dt =? DT_STRING))
    && forallb (cell_ok dt) values
    && (negb (dt =? DT_STRING) || (utf8_size values <? 2 ^ 32)).
Proof.
  unfold encode_column. rewrite is_ok_bind.
  unfold pack_u32 at 1. rewrite pack_u_cases.
  unfold len. rewrite length_build_null_bitmap.
  change (256 ^ Z.of_nat 4) with (2 ^ 32).
  destruct (Z.leb_spec 0 (Z.of_nat ((R + 7) / 8))); [|lia]. cbn [andb].
  destruct (Z.of_nat ((R + 7) / 8) <? 2 ^ 32); [|done]. cbn [andb].
  rewrite is_ok_bind_OK.
  destruct (Z.eqb_spec dt DT_INT32) as [->|Hi].
  { change (DT_INT32 =? DT_STRING) with false. cbn [orb negb].
    rewrite andb_true_r, is_ok_bind_OK, is_ok_mapM.
    apply forallb_pointwise, encode_int32_ok. }
  destruct (Z.eqb_spec dt DT_FLOAT64) as [->|Hf].
  { change (DT_FLOAT64 =? DT_STRING) with false. cbn [orb negb].
    rewrite andb_true_r, is_ok_bind_OK, is_ok_mapM.
    apply forallb_pointwise, encode_float64_ok. }
  destruct (Z.eqb_spec dt DT_STRING) as [->|Hs]; [|done].
  cbn [orb negb]. rewrite encode_strings_spec.
  rewrite (forallb_pointwise (cell_ok DT_STRING)
             (fun v => is_ok (utf8_encode v)))
    by apply cell_ok_string.
  destruct (forallb _ values); cbn [negb andb]; [|done].
  destruct (Z.leb_spec (2 ^ 32) (utf8_size values));
    destruct (Z.ltb_spec (utf8_size values) (2 ^ 32)); try lia; done.
Qed.

(** The size of an encoded column block. *)
Lemma encode_column_len (R : nat) (dt : Z) (values : list str) (un : bytes) :
  encode_column R dt values = OK un ->
  len un = 4 + Z.of_nat ((R + 7) / 8) + payload_size dt values.
Proof.
  unfold encode_column. intros He. inv_binds.
  apply pack_u_length in Ha.
  unfold len. rewrite !length_app, Ha, length_build_null_bitmap.
  enough (len a0 = payload_size dt values) as <- by (unfold len; lia).
  unfold payload_size.
  destruct (dt =? DT_INT32).
  { inv_binds. unfold len.
    rewrite (length_concat_chunks encode_int32 4 values); [lia| |done].
    intros x y Hy. by apply encode_int32_OK in Hy as [? _]. }
  destruct (dt =? DT_FLOAT64).
  { inv_binds. unfold len.
    rewrite (length_concat_chunks encode_float64 8 values); [lia| |done].
    intros x y Hy. by apply encode_float64_OK in Hy as [? _]. }
  destruct (dt =? DT_STRING); [|done].
  rewrite encode_strings_spec in Ha0.
  destruct (negb _); [done|]. destruct (2 ^ 32 <=? _); [done|].
  assert (a0 = concat (map (le_bytes 4) (string_offsets 0 values))
               ++ concat (map name_utf8 values)) as -> by congruence.
  rewrite <- len_concat_name_utf8. unfold len.
  rewrite length_app, length_concat_le_bytes, length_string_offsets. lia.
Qed.

(** X11.  The encoder of a column succeeds exactly when the bitmap length fits
    32 bits, the type is one of the three codes, every non-empty cell is
    acceptable for the type (an integer of the signed 32-bit range, a numeral
    that [float] accepts, a string that UTF-8 can encode) and, for STRING, the
    values take less than 2^32 bytes. *)
Theorem encode_column_accepts (R : nat) (dt : Z) (values : list str) :
  is_ok (encode_column R dt values)
  = (Z.of_nat ((R + 7) / 8) <? 2 ^ 32)
    && ((dt =? DT_INT32) || (dt =? DT_FLOAT64) || (dt =? DT_STRING))
    && forallb (cell_ok dt) values
    && (negb (dt =? DT_STRING) || (utf8_size values <? 2 ^ 32)).
Proof. exact (is_ok_encode_column R dt values). Qed.
End ColumnBlocks.

(** ** The blocks of a written file *)

Lemma total_compressed_app ms ms' :
  total_compressed (ms ++ ms') = total_compressed ms + total_compressed ms'.
Proof.
  induction ms as [|m ms IH]; [done|].
  cbn [app total_compressed fold_right]. fold (total_compressed (ms ++ ms')).
  fold (total_compressed ms). lia.
Qed.

Lemma total_compressed_assign ms : forall cur,
  total_compressed (CCFWriter.assign_offsets cur ms) = total_compressed ms.
Proof.
  induction ms as [|m ms IH]; intros cur; [done|].
  cbn [CCFWriter.assign_offsets total_compressed fold_right].
  fold (total_compressed
          (CCFWriter.assign_offsets (cur + compressed_size m) ms)).
  fold (total_compressed ms). by rewrite IH.
Qed.

Lemma assign_offsets_lookup ms : forall cur j m0,
  ms !! j = Some m0 ->
  CCFWriter.assign_offsets cur ms !! j
  = Some (CCFWriter.set_offset m0 (cur + total_compressed (take j ms))).
Proof.
  induction ms as [|m ms IH]; intros cur j m0 Hj; [done|].
  destruct j as [|j]; cbn in Hj |- *.
  - injection Hj as ->. by rewrite Z.add_0_r.
  - etrans; [by apply IH|]. fold (total_compressed (take j ms)).
    do 2 f_equal. lia.
Qed.

Lemma total_compressed_blocks (encoded : list (bytes * ColumnMeta)) :
  Forall (fun bm => compressed_size (snd bm) = len (fst bm)) encoded ->
  total_compressed (map snd encoded) = len (concat (map fst encoded)).
Proof.
  induction 1 as [|[blk m] encoded Hm _ IH]; [done|].
  cbn [map concat total_compressed fold_right fst snd] in *.
  fold (total_compressed (map snd encoded)).
  unfold len in *. rewrite length_app. lia.
Qed.

Section Blocks.
Context {zlib : Zlib} {fl : Float} {interp : Interpreter}.
Import CCFWriter CCFReader.

Lemma encode_block_inv R nm dt values blk m :
  encode_block R ((nm, dt), values) = OK (blk, m) ->
  exists un,
    encode_column R dt values = OK un /\ blk = compress un /\
    m = {| name := nm; dtype := dt; offset := 0;
           compressed_size := len blk; uncompressed_size := len un |}.
Proof.
  unfold encode_block. intros He. inv_bind He.
  injection He as <- <-. eauto.
Qed.

Lemma column_lookup (header_cols : list (str * Z)) (rows : list (list str))
    j col :
  header_cols !! j = Some col ->
  zip header_cols (transpose (length header_cols) rows) !! j
  = Some (col, map (fun r => cell r j) rows).
Proof.
  intros Hj. apply lookup_zip_with_Some. do 2 eexists.
  split; [done|]. split; [done|].
  apply transpose_lookup. by eapply lookup_lt_Some.
Qed.

(** The block of column [j] in a written file. *)
Lemma written_block header_cols rows f j nm dt :
  write header_cols rows = OK f ->
  header_cols !! j = Some (nm, dt) ->
  exists r un pre post,
    _read_header f = OK r /\
    encode_column (length rows) dt (map (fun row => cell row j) rows) = OK un /\
    f = pre ++ compress un ++ post /\
    22 + directory_size header_cols <= len pre /\
    len f = 22 + directory_size header_cols
            + total_compressed (columns_meta r) /\
    columns_meta r !! j
    = Some {| name := nm; dtype := dt; offset := len pre;
              compressed_size := len (compress un);
              uncompressed_size := len un |}.
Proof.
  intros Hw Hj.
  destruct (read_written_header _ _ _ Hw)
    as (encoded & hc & Henc & Hsize & _ & Hf & Hr).
  cbn zeta in *.
  destruct (mapM_lookup _ _ _ j _ Henc (column_lookup _ rows _ _ Hj))
    as ([blk m0] & Hej & Hblk).
  apply encode_block_inv in Hblk as (un & Hun & -> & ->).
  pose proof (encoded_sizes _ _ _ Henc) as Hsizes.
  set (head := MAGIC ++ le_bytes 1 VERSION ++ le_bytes 4 (len hc)
               ++ le_bytes 8 (Z.of_nat (length rows))
               ++ le_bytes 2 (len (assign_offsets (prefix_size + len hc)
                                                  (map snd encoded)))
               ++ hc) in *.
  assert (len head = 22 + directory_size header_cols) as Hhead.
  { unfold head, len. rewrite !length_app, !length_le_bytes.
    change (length MAGIC) with 7%nat. unfold len in Hsize. lia. }
  exists {| file := f; num_rows := Z.of_nat (length rows);
            num_cols := len (assign_offsets (prefix_size + len hc)
                                            (map snd encoded));
            columns_meta := assign_offsets (prefix_size + len hc)
                                           (map snd encoded) |},
    un, (head ++ concat (map fst (take j encoded))),
    (concat (map fst (drop (S j) encoded))).
  split; [done|]. split; [done|]. cbn [columns_meta].
  assert (concat (map fst encoded)
          = concat (map fst (take j encoded)) ++ compress un
            ++ concat (map fst (drop (S j) encoded))) as Hsplit.
  { rewrite <- (take_drop_middle _ _ _ Hej) at 1.
    by rewrite map_app, concat_app. }
  split; [by rewrite Hf, Hsplit, <- app_assoc|].
  split; [unfold len in *; rewrite length_app; lia|].
  split.
  { rewrite Hf. unfold len at 1. rewrite length_app.
    rewrite total_compressed_assign, (total_compressed_blocks _ Hsizes).
    unfold len in *. lia. }
  assert (map snd encoded !! j
          = Some {| name := nm; dtype := dt; offset := 0;
                    compressed_size := len (compress un);
                    uncompressed_size := len un |}) as Hmj
    by (by rewrite list_lookup_fmap, Hej).
  rewrite (assign_offsets_lookup _ _ _ _ Hmj).
  unfold set_offset. cbn [name dtype compressed_size uncompressed_size].
  do 2 f_equal.
  rewrite firstn_map, total_compressed_blocks.
  - unfold prefix_size. change (len MAGIC) with 7.
    unfold len in *. rewrite length_app. lia.
  - by apply Forall_take.
Qed.
End Blocks.

(** X12.  With a lossless zlib, the blocks of a written file follow the
    directory and fill the file to its end: the file is as long as the 22-byte
    prefix, the directory and the recorded compressed sizes together; the
    entry of column [j] has the name and the type of the schema, and its
    offset and compressed size delimit, within the file and after the
    directory, a zlib stream whose decompressed length is the recorded
    uncompressed size. *)
Theorem written_blocks_tile `{Zlib, Float, Interpreter}
    (zlib_lossless : lossless) header_cols rows f j nm dt :
  CCFWriter.write header_cols rows = OK f ->
  header_cols !! j = Some (nm, dt) ->
  exists r m un,
    CCFReader._read_header f = OK r /\
    len f = 22 + directory_size header_cols
            + total_compressed (CCFReader.columns_meta r) /\
    CCFReader.columns_meta r !! j = Some m /\
    name m = nm /\ dtype m = dt /\
    22 + directory_size header_cols <= offset m /\
    0 <= compressed_size m /\
    offset m + compressed_size m <= len f /\
    decompress (slice f (Z.to_nat (offset m))
                      (Z.to_nat (offset m + compressed_size m))) = OK un /\
    len un = uncompressed_size m.
Proof.
  intros Hw Hj.
  destruct (written_block _ _ _ _ _ _ Hw Hj)
    as (r & un & pre & post & Hr & Hun & Hf & Hpre & Hlen & Hm).
  exists r. eexists. exists un. split; [done|]. split; [done|].
  split; [exact Hm|]. cbn.
  split; [done|]. split; [done|]. split; [done|].
  split; [unfold len; lia|].
  split; [rewrite Hf; unfold len; rewrite !length_app; lia|].
  split; [|done].
  rewrite (slice_at f pre (compress un) post);
    [apply zlib_lossless | done | unfold len; lia | unfold len; lia].
Qed.

Lemma written_blocks_tile_witness :
  exists r m un,
    CCFReader._read_header S6_file = OK r /\
    len S6_file = 22 + directory_size S6_schema
                  + total_compressed (CCFReader.columns_meta r) /\
    CCFReader.columns_meta r !! 1%nat = Some m /\
    name m = py "b" /\ dtype m = DT_STRING /\
    22 + directory_size S6_schema <= offset m /\
    0 <= compressed_size m /\
    offset m + compressed_size m <= len S6_file /\
    stored_decompress (slice S6_file (Z.to_nat (offset m))
                             (Z.to_nat (offset m + compressed_size m)))
    = OK un /\
    len un = uncompressed_size m.
Proof.
  apply (@written_blocks_tile stored_zlib toy_float sample_interpreter
           stored_lossless S6_schema S6_rows S6_file 1 (py "b") DT_STRING);
    reflexivity.
Defined.

(** X13.  In a written file the recorded uncompressed size of column [j] is 4
    bytes, one bitmap byte for every 8 rows and the payload of the type: 4
    bytes per row for INT32, 8 for FLOAT64 and, for STRING, one 4-byte offset
    more than there are rows plus the UTF-8 bytes of the cells. *)
Theorem recorded_uncompressed_size `{Zlib, Float, Interpreter}
    header_cols rows f j nm dt :
  CCFWriter.write header_cols rows = OK f ->
  header_cols !! j = Some (nm, dt) ->
  exists r m,
    CCFReader._read_header f = OK r /\
    CCFReader.columns_meta r !! j = Some m /\
    uncompressed_size m
    = 4 + Z.of_nat ((length rows + 7) / 8)
      + payload_size dt (map (fun row => CCFWriter.cell row j) rows).
Proof.
  intros Hw Hj.
  destruct (written_block _ _ _ _ _ _ Hw Hj)
    as (r & un & pre & post & Hr & Hun & _ & _ & _ & Hm).
  exists r. eexists. split; [done|]. split; [exact Hm|]. cbn.
  by apply encode_column_len.
Qed.

Lemma recorded_uncompressed_size_witness :
  exists r m,
    CCFReader._read_header S6_file = OK r /\
    CCFReader.columns_meta r !! 1%nat = Some m /\
    uncompressed_size m
    = 4 + Z.of_nat ((length S6_rows + 7) / 8)
      + payload_size DT_STRING (map (fun row => CCFWriter.cell row 1) S6_rows).
Proof.
  apply (@recorded_uncompressed_size stored_zlib toy_float sample_interpreter
           S6_schema S6_rows S6_file 1 (py "b") DT_STRING); reflexivity.
Defined.

(** ** When the writer succeeds *)

Lemma mapM_total {A B} (f : A -> result B) l :
  (forall x, x ∈ l -> is_ok (f x) = true) -> exists ys, mapM f l = OK ys.
Proof.
  intros Hall. apply is_ok_true. rewrite is_ok_mapM.
  apply forallb_forall. intros x Hx%list_elem_of_In. by apply Hall.
Qed.

Lemma total_compressed_bound B ms :
  Forall (fun m => 0 <= compressed_size m < B) ms ->
  0 <= total_compressed ms <= B * len ms.
Proof.
  induction 1 as [|m ms Hm _ IH].
  { unfold total_compressed, len. cbn [fold_right length]. lia. }
  cbn [total_compressed fold_right]. fold (total_compressed ms).
  unfold len in *. cbn [length]. rewrite Nat2Z.inj_succ. nia.
Qed.

Lemma pack_u_is_ok w x :
  0 <= x < 256 ^ Z.of_nat w -> pack_u w x = OK (le_bytes w x).
Proof.
  intros Hx. rewrite pack_u_cases.
  destruct (Z.leb_spec 0 x); [|lia].
  by destruct (Z.ltb_spec x (256 ^ Z.of_nat w)); [|lia].
Qed.

(** Decide the comparisons between type codes. *)
Ltac eval_dt :=
  repeat match goal with
         | |- context [DT_INT32 =? ?b] =>
             let v := eval vm_compute in (DT_INT32 =? b) in
             change (DT_INT32 =? b) with v
         | |- context [DT_FLOAT64 =? ?b] =>
             let v := eval vm_compute in (DT_FLOAT64 =? b) in
             change (DT_FLOAT64 =? b) with v
         | |- context [DT_STRING =? ?b] =>
             let v := eval vm_compute in (DT_STRING =? b) in
             change (DT_STRING =? b) with v
         end; cbv iota.

Section Totality.
Context {zlib : Zlib} {fl : Float} {interp : Interpreter}.
Import CCFWriter CCFReader.

Lemma encode_column_accepts_iff R dt values :
  (exists un, encode_column R dt values = OK un) <->
  Z.of_nat ((R + 7) / 8) < 2 ^ 32 /\
  (dt = DT_INT32 \/ dt = DT_FLOAT64 \/ dt = DT_STRING) /\
  Forall (fun v => cell_ok dt v = true) values /\
  (dt = DT_STRING -> utf8_size values < 2 ^ 32).
Proof.
  rewrite <- is_ok_true, is_ok_encode_column, !andb_true_iff, !orb_true_iff.
  rewrite Z.ltb_lt, !Z.eqb_eq, negb_true_iff, Z.eqb_neq, Z.ltb_lt.
  rewrite forallb_forall, Forall_forall.
  split.
  - intros [[[H1 H2] H3] H4]. split; [done|]. split; [tauto|]. split; [done|].
    intros Hs. by destruct H4.
  - intros (H1 & H2 & H3 & H4). split; [split; [split|]|]; [done|tauto|done|].
    destruct (decide (dt = DT_STRING)); [right; auto | by left].
Qed.

Lemma is_ok_encode_block R nm dt values :
  is_ok (encode_block R ((nm, dt), values)) = is_ok (encode_column R dt values).
Proof. unfold encode_block. by destruct (encode_column R dt values). Qed.

Lemma header_entry_is_ok nm dt off m b :
  utf8_encode nm = OK b -> len b < 2 ^ 16 -> 0 <= dt < 256 ->
  0 <= off < 2 ^ 64 -> 0 <= compressed_size m < 2 ^ 64 ->
  0 <= uncompressed_size m < 2 ^ 64 ->
  is_ok (header_entry (nm, dt) off m) = true.
Proof.
  intros Hb Hl Hd Ho Hc Hu. unfold header_entry. cbn [fst snd].
  rewrite Hb. cbn [bind].
  unfold pack_u16, pack_u8, pack_u64.
  rewrite !pack_u_is_ok; [done|..];
    try (change (256 ^ Z.of_nat 8) with (2 ^ 64); lia);
    try (change (256 ^ Z.of_nat 1) with 256; lia).
  change (256 ^ Z.of_nat 2) with (2 ^ 16). unfold len in *. lia.
Qed.

(** One pass over the directory succeeds when every field fits. *)
Lemma header_pass_OK (off_of : ColumnMeta -> Z) header_cols metas :
  length metas = length header_cols ->
  (forall j col m, header_cols !! j = Some col -> metas !! j = Some m ->
     (exists b, utf8_encode (fst col) = OK b /\ len b < 2 ^ 16) /\
     0 <= snd col < 256 /\ 0 <= off_of m < 2 ^ 64 /\
     0 <= compressed_size m < 2 ^ 64 /\ 0 <= uncompressed_size m < 2 ^ 64) ->
  exists es,
    mapM (fun '(col, m) => header_entry col (off_of m) m)
         (zip header_cols metas)
    = OK es /\
    len (concat es) = directory_size header_cols.
Proof.
  intros Hlen Hall.
  destruct (mapM_total (fun '(col, m) => header_entry col (off_of m) m)
              (zip header_cols metas)) as [es Hes].
  { intros [[nm dt] m] Hin. apply list_elem_of_lookup in Hin as [j Hj].
    apply lookup_zip_with_Some in Hj as (c & m' & [= <- <-] & Hc & Hm).
    destruct (Hall _ _ _ Hc Hm) as ((b & Hb & Hl) & Hd & Ho & Hcs & Hus).
    by eapply header_entry_is_ok. }
  exists es. split; [done|].
  by apply (directory_size_entries (fun _ m => off_of m) _ metas).
Qed.

Lemma write_OK_columns header_cols rows f :
  write header_cols rows = OK f ->
  len header_cols < 2 ^ 16 /\ Z.of_nat (length rows) < 2 ^ 64 /\
  directory_size header_cols < 2 ^ 32 /\
  forall j col, header_cols !! j = Some col -> writable_column rows j col.
Proof.
  intros Hw.
  destruct (write_inv _ _ _ Hw)
    as (encoded & hc & Henc & Hhc & Hsize & Hsame & Bh & Br & Bc & Hf).
  cbn zeta in *. pose proof (Forall2_length Hsame) as Hlen.
  split; [unfold len in *; lia|]. split; [lia|]. split; [lia|].
  intros j [nm dt] Hj.
  destruct (written_block _ _ _ _ _ _ Hw Hj)
    as (_ & un & _ & _ & _ & Hun & _).
  destruct (proj1 (encode_column_accepts_iff _ _ _) (ex_intro _ un Hun))
    as (H1 & H2 & H3 & H4).
  unfold writable_column. cbn [fst snd].
  split; [done|]. split; [done|]. split; [|split; [|done]].
  - destruct (Forall2_lookup_l _ _ _ _ _ Hsame Hj) as (m & Hm & _).
    unfold header_final in Hhc. inv_bind Hhc.
    destruct (mapM_lookup _ _ _ j ((nm, dt), m) Ha) as (e & _ & He).
    { apply lookup_zip_with_Some. eauto. }
    unfold header_entry in He. cbn [fst snd] in He. inv_binds.
    apply pack_u_OK in Ha1 as [_ Hrange].
    eexists. split; [done|]. change (256 ^ Z.of_nat 2) with (2 ^ 16) in Hrange.
    lia.
  - by apply Forall_fmap in H3.
Qed.

Lemma write_total (Hbound : compress_bound) header_cols rows :
  len header_cols < 2 ^ 16 -> Z.of_nat (length rows) < 2 ^ 64 ->
  directory_size header_cols < 2 ^ 32 ->
  (forall j col, header_cols !! j = Some col -> writable_column rows j col) ->
  exists f, write header_cols rows = OK f.
Proof.
  intros Hcols Hrows Hdir Hcol.
  destruct (mapM_total (encode_block (length rows))
              (zip header_cols (transpose (length header_cols) rows)))
    as [encoded Henc].
  { intros [[nm dt] vals] Hin. apply list_elem_of_lookup in Hin as [j Hj].
    apply lookup_zip_with_Some in Hj as (c & v & [= <- <-] & Hc & Hv).
    rewrite transpose_lookup in Hv by (by eapply lookup_lt_Some).
    injection Hv as <-.
    rewrite is_ok_encode_block. apply is_ok_true, encode_column_accepts_iff.
    destruct (Hcol _ _ Hc) as (H1 & H2 & _ & H4 & H5). cbn [fst snd] in *.
    split; [done|]. split; [done|]. split; [by apply Forall_fmap | done]. }
  pose proof (mapM_length _ _ _ Henc) as Hlen.
  rewrite length_zip_with, length_transpose, Nat.min_id in Hlen.
  assert (Forall (fun m => 0 <= compressed_size m < 2 ^ 42 /\
                           0 <= uncompressed_size m < 2 ^ 40)
                 (map snd encoded)) as Hsizes.
  { apply Forall_fmap, Forall_lookup. intros j [blk m] Hj.
    destruct (Forall2_lookup_r _ _ _ _ _ (mapM_Forall2 _ _ _ Henc) Hj)
      as ([[nm dt] vals] & Hz & Hb).
    apply lookup_zip_with_Some in Hz as (c & v & [= <- <-] & Hc & Hv).
    rewrite transpose_lookup in Hv by (by eapply lookup_lt_Some).
    injection Hv as <-.
    apply encode_block_inv in Hb as (un & Hun & -> & ->).
    pose proof (encode_column_len _ _ _ _ Hun) as Hsz.
    destruct (Hcol _ _ Hc) as (H1 & H2 & _ & _ & H5). cbn [fst snd] in *.
    rewrite Nat2Z.inj_div in H1, Hsz.
    assert (payload_size dt (map (fun r => cell r j) rows) < 2 ^ 39) as Hp.
    { pose proof (utf8_size_nonneg (map (fun r => cell r j) rows)).
      unfold payload_size, len. rewrite length_map.
      destruct H2 as [-> | [-> | ->]]; eval_dt;
        try specialize (H5 eq_refl);
        change (Z.of_nat 8) with 8 in *; change (Z.of_nat 7) with 7 in *;
        rewrite Nat2Z.inj_add in H1; change (Z.of_nat 7) with 7 in *;
        Z.div_mod_to_equations; lia. }
    assert (0 <= payload_size dt (map (fun r => cell r j) rows)) as Hp0.
    { pose proof (utf8_size_nonneg (map (fun r => cell r j) rows)).
      unfold payload_size, len.
      destruct H2 as [-> | [-> | ->]]; eval_dt; lia. }
    specialize (Hbound un).
    cbn [compressed_size uncompressed_size fst snd compose].
    rewrite Nat2Z.inj_add in H1, Hsz.
    change (Z.of_nat 8) with 8 in *; change (Z.of_nat 7) with 7 in *.
    unfold len in *.
    split; [split; [lia|]|split; [lia|]].
    - Z.div_mod_to_equations; lia.
    - Z.div_mod_to_equations; lia. }
  assert (length (map snd encoded) = length header_cols) as Hlm
    by (by rewrite length_map).
  assert (forall j col, header_cols !! j = Some col ->
            (exists b, utf8_encode (fst col) = OK b /\ len b < 2 ^ 16) /\
            0 <= snd col < 256) as Hnames.
  { intros j col Hc. destruct (Hcol _ _ Hc) as (_ & H2 & H3 & _).
    split; [done|]. destruct H2 as [-> | [-> | ->]]; by vm_compute. }
  destruct (header_pass_OK (fun _ => 0) header_cols (map snd encoded) Hlm)
    as (es0 & Hes0 & Hl0).
  { intros j col m Hc Hm. destruct (Hnames _ _ Hc) as [Hn Hd].
    pose proof (Forall_lookup_1 _ _ _ _ Hsizes Hm) as [? ?].
    split; [done|]. split; [done|]. lia. }
  set (metas := assign_offsets (prefix_size + len (concat es0))
                               (map snd encoded)).
  destruct (header_pass_OK offset header_cols metas) as (es & Hes & Hl).
  { unfold metas. by rewrite length_assign_offsets. }
  { intros j col m Hc Hm. destruct (Hnames _ _ Hc) as [Hn Hd].
    destruct (lookup_lt_is_Some_2 (map snd encoded) j) as [m0 Hm0].
    { rewrite Hlm. by eapply lookup_lt_Some. }
    unfold metas in Hm. rewrite (assign_offsets_lookup _ _ _ _ Hm0) in Hm.
    injection Hm as <-. unfold set_offset.
    cbn [offset compressed_size uncompressed_size].
    pose proof (Forall_lookup_1 _ _ _ _ Hsizes Hm0) as [? ?].
    pose proof (total_compressed_bound (2 ^ 42) (take j (map snd encoded)))
      as Ht.
    destruct Ht as [Ht0 Ht1].
    { apply Forall_take. eapply Forall_impl; [|exact Hsizes].
      by intros ? [? _]. }
    assert (len (take j (map snd encoded)) < 2 ^ 16) as Hj.
    { unfold len in *. rewrite length_take. lia. }
    assert (0 <= len (take j (map snd encoded))) as Hj0 by (unfold len; lia).
    unfold prefix_size. change (len MAGIC) with 7.
    assert (0 <= len (concat es0)) by (unfold len; lia).
    split; [done|]. split; [done|]. split; [|lia]. nia. }
  eexists. unfold write. cbn zeta. rewrite Henc. cbn [bind].
  unfold header_placeholder. cbv beta in Hes0. rewrite Hes0. cbn [bind].
  unfold header_final. fold metas. rewrite Hes. cbn [bind].
  unfold pack_u8, pack_u32, pack_u64, pack_u16.
  rewrite !pack_u_is_ok; [reflexivity|..].
  - unfold metas, len in *. rewrite length_assign_offsets, Hlm.
    change (256 ^ Z.of_nat 2) with (2 ^ 16). lia.
  - change (256 ^ Z.of_nat 8) with (2 ^ 64). lia.
  - change (256 ^ Z.of_nat 4) with (2 ^ 32). unfold len in *. lia.
  - by vm_compute.
Qed.
End Totality.

Lemma length_stored_blocks_le f : forall data,
  (length (stored_blocks f data) <= length data + 5 * f)%nat.
Proof.
  induction f as [|f IH]; intros data; cbn [stored_blocks]; [cbn; lia|].
  destruct (Z.leb_spec (len data) 65535) as [Hs|Hb].
  - rewrite !length_app, !length_le_bytes. cbn [length]. lia.
  - rewrite !length_app, !length_le_bytes, length_take. cbn [length].
    specialize (IH (drop block_max data)). rewrite length_drop in IH.
    pose proof block_max_Z. unfold len in Hb. lia.
Qed.

Lemma stored_compress_bound : @compress_bound stored_zlib.
Proof.
  intros b. cbn [compress stored_zlib]. unfold stored_compress, len.
  rewrite !length_app, length_rev, length_le_bytes. cbn [length].
  pose proof (length_stored_blocks_le (S (length b / block_max)) b) as Hl.
  assert (Z.of_nat (length b / block_max) = Z.of_nat (length b) / 65535) as Hd.
  { by rewrite Nat2Z.inj_div, block_max_Z. }
  assert (Z.of_nat (length (stored_blocks (S (length b / block_max)) b))
          <= Z.of_nat (length b) + 5 * (Z.of_nat (length b) / 65535 + 1)) as Hz.
  { rewrite <- Hd. lia. }
  clear Hl Hd.
  Z.div_mod_to_equations. lia.
Qed.

(** X14.  When zlib keeps within its bound on the size of its output, the
    writer succeeds exactly when there are fewer than 2^16 columns and 2^64
    rows, the directory takes less than 2^32 bytes and every column can be
    written: its bitmap length fits 32 bits, its type is one of the three
    codes, its name has a UTF-8 encoding shorter than 2^16 bytes, every
    non-empty cell is acceptable for the type and, for STRING, the cells take
    less than 2^32 bytes. *)
Theorem write_succeeds_iff `{Zlib, Float, Interpreter}
    (zlib_bound : compress_bound) header_cols rows :
  (exists f, CCFWriter.write header_cols rows = OK f) <->
  len header_cols < 2 ^ 16 /\ Z.of_nat (length rows) < 2 ^ 64 /\
  directory_size header_cols < 2 ^ 32 /\
  forall j col, header_cols !! j = Some col -> writable_column rows j col.
Proof.
  split.
  - intros [f Hw]. by eapply write_OK_columns.
  - intros (Hc & Hr & Hd & Hcol). by apply write_total.
Qed.

Lemma write_succeeds_iff_witness :
  (exists f, sample_write S6_schema S6_rows = OK f) <->
  len S6_schema < 2 ^ 16 /\ Z.of_nat (length S6_rows) < 2 ^ 64 /\
  directory_size S6_schema < 2 ^ 32 /\
  forall j col, S6_schema !! j = Some col ->
                @writable_column sample_interpreter S6_rows j col.
Proof.
  exact (@write_succeeds_iff stored_zlib toy_float sample_interpreter
           stored_compress_bound S6_schema S6_rows).
Defined.

(** ** Inference over a whole column *)

Section InferenceLaws.
Context {interp : Interpreter}.

Lemma int_or_empty_float v : int_or_empty v = true -> float_or_empty v = true.
Proof.
  intros Hi. rewrite <- int_or_float_or_empty. by rewrite Hi.
Qed.

Lemma all_int_all_float values :
  forallb int_or_empty values = true -> forallb float_or_empty values = true.
Proof.
  rewrite !forallb_forall. intros Hall v Hv. by apply int_or_empty_float, Hall.
Qed.

Lemma cell_ok_float v : cell_ok DT_FLOAT64 v = float_or_empty v.
Proof. done. Qed.

Lemma cell_ok_int v :
  int_or_empty v = true ->
  cell_ok DT_INT32 v = match py_int v with
                       | Some n => int32_range n
                       | None => true
                       end.
Proof.
  unfold int_or_empty, cell_ok. change (DT_INT32 =? DT_INT32) with true.
  cbv iota. destruct v as [|c v]; [done|]. cbn [str_empty orb].
  by destruct (py_int (c :: v)).
Qed.

(** X15.  The inferred type of two lists of values put together is the larger
    of their inferred types, in the order INT32, FLOAT64, STRING. *)
Theorem infer_type_app (values1 values2 : list str) :
  infer_type (values1 ++ values2)
  = Z.max (infer_type values1) (infer_type values2).
Proof.
  rewrite !infer_type_spec, !forallb_app.
  pose proof (all_int_all_float values1) as H1.
  pose proof (all_int_all_float values2) as H2.
  destruct (forallb int_or_empty values1), (forallb int_or_empty values2),
    (forallb float_or_empty values1), (forallb float_or_empty values2);
    try done; try (by discriminate H1); by discriminate H2.
Qed.

(** X16.  The inferred type does not depend on the order of the values. *)
Theorem infer_type_permutation (values1 values2 : list str) :
  Permutation values1 values2 -> infer_type values1 = infer_type values2.
Proof.
  intros Hp. rewrite !infer_type_spec.
  assert (forall f : str -> bool, forallb f values1 = forallb f values2) as Hf.
  { intros f. apply eq_true_iff_eq. rewrite !forallb_forall.
    split; intros Hall v Hv; apply Hall.
    - eapply Permutation_in; [symmetry; exact Hp | done].
    - eapply Permutation_in; [exact Hp | done]. }
  by rewrite !Hf.
Qed.

(** X17.  A column whose inferred type is FLOAT64 has only cells that the
    FLOAT64 encoder accepts; a column whose inferred type is INT32 has only
    cells that the INT32 encoder accepts exactly when every integer in it lies
    in the signed 32-bit range. *)
Theorem inferred_type_cells (values : list str) :
  (infer_type values = DT_FLOAT64 ->
   Forall (fun v => cell_ok DT_FLOAT64 v = true) values) /\
  (infer_type values = DT_INT32 ->
   (Forall (fun v => cell_ok DT_INT32 v = true) values <->
    forall v n, v ∈ values -> py_int v = Some n -> - 2 ^ 31 <= n < 2 ^ 31)).
Proof.
  rewrite infer_type_spec. split.
  - destruct (forallb int_or_empty values); [done|].
    destruct (forallb float_or_empty values) eqn:Hf; [|done].
    intros _. rewrite forallb_forall in Hf. apply Forall_forall.
    intros v Hv. rewrite cell_ok_float. by apply Hf.
  - destruct (forallb int_or_empty values) eqn:Hi;
      [|by destruct (forallb float_or_empty values)].
    intros _. rewrite forallb_forall in Hi. rewrite Forall_forall. split.
    + intros Hall v n Hv%list_elem_of_In Hn.
      specialize (Hall v Hv). rewrite (cell_ok_int v (Hi v Hv)), Hn in Hall.
      unfold int32_range in Hall. lia.
    + intros Hall v Hv. rewrite (cell_ok_int v (Hi v Hv)).
      destruct (py_int v) as [n|] eqn:Hn; [|done].
      specialize (Hall v n ltac:(by apply list_elem_of_In) Hn).
      unfold int32_range. lia.
Qed.
End InferenceLaws.

Lemma infer_type_permutation_witness :
  @infer_type sample_interpreter [py "1"; py "x"]
  = @infer_type sample_interpreter [py "x"; py "1"].
Proof.
  apply (@infer_type_permutation sample_interpreter). apply perm_swap.
Defined.

Lemma inferred_type_cells_witness :
  Forall (fun v => @cell_ok sample_interpreter DT_FLOAT64 v = true)
         float_values /\
  (Forall (fun v => @cell_ok sample_interpreter DT_INT32 v = true)
          int_values <->
   forall v n, v ∈ int_values -> @py_int sample_interpreter v = Some n ->
               - 2 ^ 31 <= n < 2 ^ 31).
Proof.
  split.
  - apply (proj1 (@inferred_type_cells sample_interpreter float_values)).
    reflexivity.
  - apply (proj2 (@inferred_type_cells sample_interpreter int_values)).
    reflexivity.
Defined.

(** ** The [--schema] option *)

Lemma split_plain sep s :
  forallb (fun c => negb (c =? sep)) s = true -> split sep s = [s].
Proof.
  induction s as [|c s IH]; cbn; [done|].
  destruct (c =? sep); cbn; [done|]. intros Hs. by rewrite IH.
Qed.

Lemma split_app_sep sep p rest :
  forallb (fun c => negb (c =? sep)) p = true ->
  split sep (p ++ sep :: rest) = p :: split sep rest.
Proof.
  induction p as [|c p IH]; cbn.
  - by rewrite Z.eqb_refl.
  - destruct (c =? sep); cbn; [done|]. intros Hp. by rewrite IH.
Qed.

Lemma split_join sep parts :
  parts <> [] ->
  Forall (fun p => forallb (fun c => negb (c =? sep)) p = true) parts ->
  split sep (join sep parts) = parts.
Proof.
  intros Hne Hall. induction Hall as [|p ps Hp Hps IH]; [done|].
  destruct ps as [|q ps].
  - cbn. rewrite app_nil_r. by apply split_plain.
  - change (join sep (p :: q :: ps)) with (p ++ sep :: join sep (q :: ps)).
    rewrite split_app_sep by done. by rewrite IH.
Qed.


Lemma plain_no_comma s :
  plain s = true -> forallb (fun c => negb (c =? 44)) s = true.
Proof.
  unfold plain. rewrite !forallb_forall. intros Hs c Hc.
  by destruct (andb_prop _ _ (Hs c Hc)).
Qed.

Lemma plain_no_colon s :
  plain s = true -> forallb (fun c => negb (c =? 58)) s = true.
Proof.
  unfold plain. rewrite !forallb_forall. intros Hs c Hc.
  by destruct (andb_prop _ _ (Hs c Hc)).
Qed.

Lemma schema_entry_render e :
  plain (fst e) = true -> plain (snd e) = true ->
  schema_entry (render_entry e) = OK (fst e, schema_type (snd e)).
Proof.
  intros Hn Ht. unfold schema_entry, render_entry. cbn [app].
  rewrite split_app_sep by by apply plain_no_colon.
  by rewrite split_plain by by apply plain_no_colon.
Qed.

Lemma render_entry_no_comma e :
  plain (fst e) = true -> plain (snd e) = true ->
  forallb (fun c => negb (c =? 44)) (render_entry e) = true.
Proof.
  intros Hn Ht. unfold render_entry. rewrite !forallb_app.
  by rewrite (plain_no_comma _ Hn), (plain_no_comma _ Ht).
Qed.

Lemma parse_schema_render entries :
  entries <> [] ->
  Forall (fun e => plain (fst e) = true /\ plain (snd e) = true) entries ->
  parse_schema (join 44 (map render_entry entries))
  = OK (map (fun e => (fst e, schema_type (snd e))) entries).
Proof.
  intros Hne Hall. unfold parse_schema. rewrite split_join.
  - rewrite <- mapM_OK_map.
    induction Hall as [|e es [Hn Ht] _ IH]; [done|].
    cbn [map mapM]. rewrite schema_entry_render by done. cbn [bind].
    destruct es as [|e' es]; [done|]. by rewrite IH.
  - by destruct entries.
  - apply Forall_fmap. eapply Forall_impl; [|exact Hall].
    intros e [Hn Ht]. by apply render_entry_no_comma.
Qed.






(** X19.  With [--schema] given as entries [name:word] separated by commas,
    where no name and no word contains a comma or a colon, [csv_to_custom_cli]
    writes the data rows under exactly these names, whatever the header row of
    the input; the word gives the type, any word other than [int], [int32],
    [float] and [float64] meaning STRING. *)
Theorem schema_option_used `{Zlib, Float, Interpreter}
    (entries : list (str * str)) (header : list str)
    (data_rows : list (list str)) :
  entries <> [] ->
  Forall (fun e => plain (fst e) = true /\ plain (snd e) = true) entries ->
  csv_to_custom_cli (header :: data_rows)
                    (Some (join 44 (map render_entry entries)))
  = (f <- CCFWriter.write (map (fun e => (fst e, schema_type (snd e))) entries)
                          data_rows ;;
     OK (Some f)).
Proof.
  intros Hne Hall. unfold csv_to_custom_cli.
  destruct (join 44 (map render_entry entries)) as [|c s] eqn:Hj.
  { destruct entries as [|[n t] es]; [done|]. cbn in Hj.
    unfold render_entry in Hj. cbn in Hj.
    by destruct n. }
  by rewrite <- Hj, (parse_schema_render _ Hne Hall).
Qed.

Lemma schema_option_used_witness :
  @csv_to_custom_cli stored_zlib toy_float sample_interpreter
    ([py "x"; py "y"] :: S6_rows) (Some (py "a:int,b:text"))
  = (f <- sample_write S6_schema S6_rows ;; OK (Some f)).
Proof.
  apply (@schema_option_used stored_zlib toy_float sample_interpreter
           [(py "a", py "int"); (py "b", py "text")]); [done|].
  repeat constructor.
Defined.

(** ** The inferred schema *)

Lemma heads_nonempty (its : list (list str)) :
  Forall (fun r => r <> []) its ->
  heads its = Some (map (fun r => CCFWriter.cell r 0) its, map (drop 1) its).
Proof.
  induction 1 as [|r its Hr _ IH]; [done|].
  destruct r as [|x t]; [done|]. cbn [heads]. by rewrite IH.
Qed.

Lemma heads_empty (its : list (list str)) :
  Exists (fun r => r = []) its -> heads its = None.
Proof.
  induction 1 as [r its ->|r its _ IH]; [done|].
  destruct r as [|x t]; [done|]. cbn [heads]. by rewrite IH.
Qed.

(** The minimum of [a] and of the lengths of the rows. *)
Lemma shortest_fold r rs :
  shortest (r :: rs)
  = fold_right (fun r' acc => Nat.min (length r') acc) (length r) rs.
Proof. done. Qed.

Lemma min_len_le a (rs : list (list str)) :
  (fold_right (fun r' acc => Nat.min (length r') acc) a rs <= a)%nat.
Proof. induction rs as [|r rs IH]; cbn [fold_right]; lia. Qed.

Lemma min_len_drop a (rs : list (list str)) :
  Forall (fun r => r <> []) rs -> (0 < a)%nat ->
  fold_right (fun r' acc => Nat.min (length r') acc) a rs
  = S (fold_right (fun r' acc => Nat.min (length r') acc) (a - 1)%nat
                  (map (drop 1) rs)).
Proof.
  intros Hall Ha. induction Hall as [|r rs Hr _ IH]; cbn [fold_right map].
  - lia.
  - rewrite IH, length_drop. destruct r; [done|]. cbn [length]. lia.
Qed.

Lemma min_len_zero a (rs : list (list str)) :
  a = 0%nat \/ Exists (fun r => r = []) rs ->
  fold_right (fun r' acc => Nat.min (length r') acc) a rs = 0%nat.
Proof.
  intros Hz. induction rs as [|r rs IH]; cbn [fold_right].
  - destruct Hz as [->|Hz]; [done | by inversion Hz].
  - destruct Hz as [->|Hz].
    + rewrite IH by by left. lia.
    + inversion Hz as [? ? ->|? ? Hz']; subst; [done|].
      rewrite IH by by right. lia.
Qed.

Lemma min_len_ge a k (rs : list (list str)) :
  (k <= a)%nat -> Forall (fun r => (k <= length r)%nat) rs ->
  (k <= fold_right (fun r' acc => Nat.min (length r') acc) a rs)%nat.
Proof.
  intros Ha. induction 1 as [|r rs Hr _ IH]; cbn [fold_right]; lia.
Qed.

Lemma cell_drop (r : list str) i :
  CCFWriter.cell (drop 1 r) i = CCFWriter.cell r (S i).
Proof. unfold CCFWriter.cell. by rewrite lookup_drop. Qed.

Lemma transpose_S k (its : list (list str)) :
  CCFWriter.transpose (S k) its
  = map (fun r => CCFWriter.cell r 0) its
    :: CCFWriter.transpose k (map (drop 1) its).
Proof.
  unfold CCFWriter.transpose. cbn [seq map]. f_equal.
  rewrite <- seq_shift, map_map. apply map_ext. intros i.
  rewrite map_map. apply map_ext. intros r. by rewrite cell_drop.
Qed.

Lemma nonempty_or_empty (its : list (list str)) :
  Forall (fun r => r <> []) its \/ Exists (fun r => r = []) its.
Proof.
  induction its as [|r its IH]; [by left|].
  destruct r as [|x t]; [right; by left|].
  destruct IH as [IH|IH]; [left; by constructor | right; by right].
Qed.

Lemma zip_rows_transpose : forall fuel (its : list (list str)),
  its <> [] -> (shortest its <= fuel)%nat ->
  zip_rows fuel its = CCFWriter.transpose (shortest its) its.
Proof.
  induction fuel as [|fuel IH]; intros its Hne Hs.
  { by replace (shortest its) with 0%nat by lia. }
  destruct its as [|r rs]; [done|]. cbn [zip_rows].
  destruct (nonempty_or_empty (r :: rs)) as [Hall|Hex'].
  - rewrite (heads_nonempty _ Hall).
    assert (shortest (r :: rs) = S (shortest (map (drop 1) (r :: rs)))) as Hsh.
    { cbn [map]. rewrite !shortest_fold, length_drop.
      inversion Hall as [|? ? Hr Hrs]; subst.
      apply min_len_drop; [done|]. destruct r; [done | cbn; lia]. }
    rewrite Hsh, transpose_S. f_equal. apply IH; [done | lia].
  - rewrite (heads_empty _ Hex').
    assert (shortest (r :: rs) = 0%nat) as ->; [|done].
    rewrite shortest_fold. apply min_len_zero.
    inversion Hex' as [? ? ->|? ? Hz]; subst; [by left | by right].
Qed.

Lemma zip_star_transpose (rows : list (list str)) :
  zip_star rows = CCFWriter.transpose (shortest rows) rows.
Proof.
  destruct rows as [|r rs]; [done|]. unfold zip_star.
  apply zip_rows_transpose; [done|]. rewrite shortest_fold. apply min_len_le.
Qed.

Lemma infer_type_nulls `{Interpreter} n :
  infer_type (replicate n []) = DT_INT32.
Proof.
  rewrite infer_type_spec.
  assert (forallb int_or_empty (replicate n []) = true) as ->; [|done].
  apply forallb_forall. intros v Hv%list_elem_of_In.
  by apply elem_of_replicate in Hv as [-> _].
Qed.

(** The inferred schema in closed form. *)
Lemma infer_schema_take `{Interpreter}
    (header : list str) (data_rows : list (list str)) :
  (data_rows = [] ->
   infer_schema header data_rows = map (fun nm => (nm, DT_INT32)) header) /\
  (data_rows <> [] ->
   infer_schema header data_rows
   = imap (fun j nm =>
             (nm, infer_type (map (fun r => CCFWriter.cell r j) data_rows)))
          (take (shortest data_rows) header)).
Proof.
  split.
  - intros ->. unfold infer_schema. apply list_eq. intros j.
    rewrite !list_lookup_fmap, lookup_zip_with.
    destruct (header !! j) as [nm|] eqn:Hj; [|done]. cbn.
    rewrite lookup_replicate_2 by (by eapply lookup_lt_Some). cbn.
    by rewrite infer_type_nulls.
  - intros Hne. unfold infer_schema.
    assert (match data_rows with
            | [] => replicate (length header) (replicate (length header) [])
            | _ :: _ => zip_star data_rows
            end = CCFWriter.transpose (shortest data_rows) data_rows) as ->.
    { destruct data_rows; [done|]. apply zip_star_transpose. }
    apply list_eq. intros j.
    rewrite list_lookup_fmap, lookup_zip_with, list_lookup_imap.
    destruct (decide (j < shortest data_rows)%nat) as [Hlt|Hge].
    + rewrite lookup_take_lt by done.
      destruct (header !! j) as [nm|]; [|done]. cbn.
      by rewrite transpose_lookup.
    + rewrite lookup_take_ge by lia.
      destruct (header !! j) as [nm|]; [|done]. cbn.
      rewrite (proj2 (lookup_ge_None _ _)); [done|].
      rewrite length_transpose. lia.
Qed.

(** X20.  The schema inferred from a header and data rows has the names of the
    header, in order, up to the width of the shortest data row: the columns
    that the shortest row does not reach are dropped. Column [j] gets the type
    inferred from cell [j] of every row. Without data rows every name of the
    header is kept, with type INT32. *)
Theorem infer_schema_columns `{Interpreter}
    (header : list str) (data_rows : list (list str)) :
  (data_rows = [] ->
   infer_schema header data_rows = map (fun nm => (nm, DT_INT32)) header) /\
  (data_rows <> [] ->
   infer_schema header data_rows
   = imap (fun j nm =>
             (nm, infer_type (map (fun r => CCFWriter.cell r j) data_rows)))
          (take (shortest data_rows) header)).
Proof. exact (infer_schema_take header data_rows). Qed.

Lemma infer_schema_columns_witness :
  @infer_schema sample_interpreter [py "a"; py "b"; py "c"]
    [[py "1"; py "x"; py "2.5"]; [py "2"; py "y"]]
  = [(py "a", DT_INT32); (py "b", DT_STRING)].
Proof.
  rewrite (proj2 (@infer_schema_columns sample_interpreter
                    [py "a"; py "b"; py "c"]
                    [[py "1"; py "x"; py "2.5"]; [py "2"; py "y"]]));
    [reflexivity | discriminate].
Defined.

(** ** The two conversions in a row and the benchmark *)

Lemma infer_schema_wide `{Interpreter} (header : list str)
    (data_rows : list (list str)) :
  Forall (fun row => (length header <= length row)%nat) data_rows ->
  infer_schema header data_rows
  = imap (fun j nm =>
            (nm, infer_type (map (fun r => CCFWriter.cell r j) data_rows)))
         header.
Proof.
  intros Hwide. destruct data_rows as [|r rs].
  - rewrite (proj1 (infer_schema_take header []) eq_refl).
    apply list_eq. intros j. rewrite list_lookup_fmap, list_lookup_imap.
    by destruct (header !! j).
  - rewrite (proj2 (infer_schema_take header (r :: rs))) by done.
    rewrite take_ge; [done|]. rewrite shortest_fold.
    inversion Hwide; subst. by apply min_len_ge.
Qed.

Lemma list_index_OK (l : list str) x i :
  list_index l x = OK i ->
  l !! i = Some x /\ forall k y, (k < i)%nat -> l !! k = Some y -> y <> x.
Proof.
  revert i. induction l as [|y l IH]; intros i Hi; cbn in Hi; [done|].
  unfold str_eqb in Hi. case_bool_decide as Hy.
  - injection Hi as <-. split; [by subst|]. intros; lia.
  - inv_binds. destruct (IH _ Ha) as [Hl Hfirst]. split; [done|].
    intros [|k] z Hk Hz; [by injection Hz as <-|].
    eapply Hfirst; [|exact Hz]. lia.
Qed.

Lemma lookup_imap_schema `{Interpreter} (header : list str) (g : nat -> Z) j :
  imap (fun j nm => (nm, g j)) header !! j
  = (fun nm => (nm, g j)) <$> header !! j.
Proof. by rewrite list_lookup_imap. Qed.

(** X21.  With a lossless zlib, on a CSV input whose data rows all have the
    width of the header and whose header names are all different: when
    [csv_to_custom_cli] without [--schema] has written a file,
    [custom_to_csv_cli] without [--columns] succeeds on it and hands to the
    CSV writer the header unchanged followed by one row per data row, every
    cell rendered as the type inferred for its column decodes it (the empty
    string staying empty). *)
Theorem cli_round_trip `{Zlib, Float, Interpreter}
    (zlib_lossless : lossless) (header : list str)
    (data_rows : list (list str)) (f : bytes) :
  NoDup header ->
  Forall (fun row => length row = length header) data_rows ->
  csv_to_custom_cli (header :: data_rows) None = OK (Some f) ->
  custom_to_csv_cli f None
  = OK (header ::
        map (fun row =>
               imap (fun j v =>
                       text (decoded
                               (infer_type
                                  (map (fun r => default [] (r !! j))
                                       data_rows))
                               v)) row) data_rows).
Proof.
  intros Hnd Hrect Hcli. unfold csv_to_custom_cli in Hcli.
  cbn [bind] in Hcli.
  destruct (CCFWriter.write (infer_schema header data_rows) data_rows)
    as [f'|e] eqn:Hw; [|done]. cbn [bind] in Hcli.
  assert (f' = f) as -> by congruence. clear Hcli.
  unfold custom_to_csv_cli.
  assert (infer_schema header data_rows
          = imap (fun j nm =>
                    (nm, infer_type (map (fun r => CCFWriter.cell r j)
                                         data_rows)))
                 header) as Hschema.
  { apply infer_schema_wide. eapply Forall_impl; [|exact Hrect].
    intros row Hrow. cbn in Hrow. lia. }
  assert (map fst (infer_schema header data_rows) = header) as Hnames.
  { rewrite Hschema. apply list_eq. intros j.
    rewrite list_lookup_fmap, list_lookup_imap. by destruct (header !! j). }
  destruct (read_table_written_all zlib_lossless _ _ _ Hw) as (r & Hr & Ht).
  { by rewrite Hnames. }
  rewrite Hr. cbn [bind]. rewrite Ht. cbn [bind fst snd].
  rewrite Hnames. do 2 f_equal. apply map_ext_in.
  intros row Hrow%list_elem_of_In.
  pose proof (Forall_elem _ _ _ Hrect Hrow) as Hlen. cbn in Hlen.
  rewrite Hschema. apply list_eq. intros j.
  rewrite !list_lookup_imap.
  destruct (row !! j) as [v|] eqn:Hv.
  - destruct (lookup_lt_is_Some_2 header j) as [nm Hnm].
    { rewrite <- Hlen. by eapply lookup_lt_Some. }
    rewrite Hnm. cbn.
    assert (CCFWriter.cell row j = v) as ->; [|done].
    unfold CCFWriter.cell. by rewrite Hv.
  - rewrite (proj2 (lookup_ge_None header j)); [done|].
    rewrite <- Hlen. by apply lookup_ge_None.
Qed.

Lemma cli_round_trip_witness :
  @csv_to_custom_cli stored_zlib toy_float sample_interpreter sample_csv None
  = OK (Some sample_ccf) /\
  @custom_to_csv_cli stored_zlib toy_float sample_ccf None
  = OK [[py "name"; py "age"]; [py "alice"; py "30"]; [py ""; py "42"];
        [py "carol"; py "7"]].
Proof.
  split; [reflexivity|].
  rewrite (@cli_round_trip stored_zlib toy_float sample_interpreter
             stored_lossless [py "name"; py "age"]
             [[py "alice"; py "30"]; [py ""; py "42"]; [py "carol"; py "+7"]]
             sample_ccf).
  - vm_compute. reflexivity.
  - apply (bool_decide_unpack _). vm_compute. reflexivity.
  - repeat constructor.
  - reflexivity.
Defined.

(** X22.  With a lossless zlib, when the CCF file was produced from the CSV
    input by [csv_to_custom_cli] without [--schema] and every data row is at
    least as wide as the header, the two sides of the benchmark agree: the
    column read from the CCF file is the column of CSV cells found under the
    first header name equal to [COLUMN], each cell decoded under the type
    inferred for the column and null where it is empty. *)
Theorem benchmark_columns_agree `{Zlib, Float, Interpreter}
    (zlib_lossless : lossless) (header : list str) (data_rows : list (list str))
    (COLUMN : str) (f : bytes) (values : list str) :
  csv_to_custom_cli (header :: data_rows) None = OK (Some f) ->
  csv_column header data_rows COLUMN = OK values ->
  Forall (fun row => (length header <= length row)%nat) data_rows ->
  exists r,
    CCFReader._read_header f = OK r /\
    CCFReader.read_column r COLUMN
    = OK (map (decoded (infer_type values)) values).
Proof.
  intros Hcli Hcsv Hwide. unfold csv_to_custom_cli in Hcli. cbn [bind] in Hcli.
  destruct (CCFWriter.write (infer_schema header data_rows) data_rows)
    as [f'|e] eqn:Hw; [|done]. cbn [bind] in Hcli.
  assert (f' = f) as -> by congruence.
  unfold csv_column in Hcsv. inv_binds.
  destruct (list_index_OK _ _ _ Ha) as [Hidx Hfirst].
  rewrite (infer_schema_wide _ _ Hwide) in Hw.
  destruct (read_written_column zlib_lossless _ _ _ a COLUMN
              (infer_type (map (fun r => CCFWriter.cell r a) data_rows)) Hw)
    as (r & Hr & _ & Hc).
  { by rewrite list_lookup_imap, Hidx. }
  { intros k [nm dt] Hk Hcol. rewrite list_lookup_imap in Hcol.
    destruct (header !! k) as [y|] eqn:Hy; [|done]. injection Hcol as <- _.
    by eapply Hfirst. }
  exists r. split; [done|]. by rewrite Hc, map_map.
Qed.

Lemma benchmark_columns_agree_witness :
  exists r,
    CCFReader._read_header sample_ccf = OK r /\
    sample_read_column r (py "age")
    = OK (map (@decoded toy_float sample_interpreter
                 (@infer_type sample_interpreter [py "30"; py "42"; py "+7"]))
              [py "30"; py "42"; py "+7"]).
Proof.
  apply (@benchmark_columns_agree stored_zlib toy_float sample_interpreter
           stored_lossless [py "name"; py "age"]
           [[py "alice"; py "30"]; [py ""; py "42"]; [py "carol"; py "+7"]]
           (py "age") sample_ccf [py "30"; py "42"; py "+7"]).
  - vm_compute. reflexivity.
  - vm_compute. reflexivity.
  - repeat constructor.
Defined.

(** ** The null bitmap *)

Lemma lor_bit_byte b k :
  0 <= b < 256 -> 0 <= k < 8 -> 0 <= Z.lor b (Z.shiftl 1 k) < 256.
Proof.
  intros Hb Hk.
  assert (0 <= Z.shiftl 1 k) as Hs by (apply Z.shiftl_nonneg; lia).
  assert (0 <= Z.lor b (Z.shiftl 1 k)) as Hl by (apply Z.lor_nonneg; lia).
  split; [done|].
  destruct (Z.eq_dec (Z.lor b (Z.shiftl 1 k)) 0) as [->|Hne]; [lia|].
  change 256 with (2 ^ 8). apply Z.log2_lt_pow2; [lia|].
  rewrite Z.log2_lor by lia.
  rewrite Z.log2_shiftl by lia. change (Z.log2 1) with 0.
  destruct (Z.eq_dec b 0) as [->|Hb0]; [cbn; lia|].
  assert (Z.log2 b < 8) by (apply Z.log2_lt_pow2; lia). lia.
Qed.

Lemma mark_nulls_bytes values : forall i bm,
  Forall (fun b => 0 <= b < 256) bm ->
  Forall (fun b => 0 <= b < 256) (mark_nulls i values bm).
Proof.
  induction values as [|v vs IH]; intros i bm Hbm; cbn [mark_nulls]; [done|].
  apply IH. destruct (str_empty v); [|done].
  apply Forall_alter; [done|]. intros b _ Hb. apply lor_bit_byte; [done|].
  pose proof (Nat.mod_upper_bound i 8). lia.
Qed.

(** X23.  The bitmap that the writer builds for a column has one byte for
    every 8 rows, rounded up; every byte is in [0, 255]; read as the reader
    reads it, bit [j] says whether value [j] is the empty string, and the bits
    past the last row are clear. *)
Theorem null_bitmap_layout (values : list str) :
  let bm := build_null_bitmap (length values) values in
  length bm = ((length values + 7) / 8)%nat /\
  Forall (fun b => 0 <= b < 256) bm /\
  forall j, (j < 8 * length bm)%nat ->
    is_null bm j = OK (match values !! j with
                       | Some v => str_empty v
                       | None => false
                       end).
Proof.
  cbn zeta. split; [apply length_build_null_bitmap|]. split.
  - apply mark_nulls_bytes, Forall_replicate. lia.
  - intros j Hj. rewrite is_null_bit.
    2:{ apply Nat.Div0.div_lt_upper_bound. lia. }
    unfold build_null_bitmap. rewrite mark_nulls_bit.
    + rewrite bitmap_bit_zero, Nat.sub_0_r. cbn [orb].
      destruct (decide (0 <= j)%nat); [done | lia].
    + rewrite length_replicate.
      pose proof (Nat.div_mod_eq (length values + 7) 8).
      pose proof (Nat.mod_upper_bound (length values + 7) 8). lia.
Qed.

Lemma null_bitmap_layout_witness :
  is_null (build_null_bitmap 3 [py "a"; py ""; py "b"]) 1 = OK true /\
  is_null (build_null_bitmap 3 [py "a"; py ""; py "b"]) 7 = OK false.
Proof.
  destruct (null_bitmap_layout [py "a"; py ""; py "b"]) as (_ & _ & Hbit).
  split; [exact (Hbit 1%nat ltac:(cbn; lia))|].
  exact (Hbit 7%nat ltac:(cbn; lia)).
Defined.

(** ** Blocks that the reader accepts *)

Lemma unpack_u_is_ok w bs : is_ok (unpack_u w bs) = (length bs =? w)%nat.
Proof. unfold unpack_u. by destruct (length bs =? w)%nat. Qed.

Lemma is_null_is_ok bm i :
  is_ok (is_null bm i) = true <-> (i / 8 < length bm)%nat.
Proof.
  unfold is_null. destruct (bm !! (i / 8)%nat) eqn:E; cbn [is_ok].
  - split; [|done]. intros _. by eapply lookup_lt_Some.
  - split; [done|]. intros Hlt. apply lookup_ge_None in E. lia.
Qed.

Lemma div8_mono (a b : nat) : (a <= b)%nat -> (a / 8 <= b / 8)%nat.
Proof. intros. by apply Nat.Div0.div_le_mono. Qed.

Section Accepted.
Context {fl : Float}.

Lemma decode_int32_is_ok bm : forall n i buf,
  is_ok (decode_int32 bm i n buf) = true <->
  (4 * n <= length buf)%nat /\ (n = 0%nat \/ ((i + n - 1) / 8 < length bm)%nat).
Proof.
  induction n as [|n IH]; intros i buf.
  { cbn. split; [intros _; split; [lia | by left] | done]. }
  cbn [decode_int32 read]. unfold unpack_i32.
  destruct (unpack_u 4 (take 4 buf)) as [u|e] eqn:Hu; cbn [bind is_ok].
  2:{ split; [done|]. intros [Hlen _].
      rewrite unpack_u_exact in Hu; [done|]. rewrite length_take. lia. }
  apply unpack_u_OK_length in Hu. rewrite length_take in Hu.
  destruct (is_null bm i) as [nul|e] eqn:Hnul; cbn [bind is_ok].
  2:{ split; [done|]. intros [_ [?|Hbm]]; [done|].
      assert (is_ok (is_null bm i) = true) as Hok.
      { apply is_null_is_ok. pose proof (div8_mono i (i + S n - 1)). lia. }
      by rewrite Hnul in Hok. }
  assert (i / 8 < length bm)%nat as Hi.
  { apply is_null_is_ok. by rewrite Hnul. }
  rewrite is_ok_bind_OK, IH, length_drop.
  replace (S i + n - 1)%nat with (i + S n - 1)%nat by lia.
  split.
  - intros [Hlen Hbm]. split; [lia|]. right.
    destruct Hbm as [->|Hbm]; [by rewrite Nat.add_sub | done].
  - intros [Hlen [?|Hbm]]; [done|]. split; [lia|].
    destruct n; [by left | by right].
Qed.

Lemma decode_float64_is_ok bm : forall n i buf,
  is_ok (decode_float64 bm i n buf) = true <->
  (8 * n <= length buf)%nat /\ (n = 0%nat \/ ((i + n - 1) / 8 < length bm)%nat).
Proof.
  induction n as [|n IH]; intros i buf.
  { cbn. split; [intros _; split; [lia | by left] | done]. }
  cbn [decode_float64 read]. unfold unpack_d.
  destruct (unpack_u 8 (take 8 buf)) as [u|e] eqn:Hu; cbn [bind is_ok].
  2:{ split; [done|]. intros [Hlen _].
      rewrite unpack_u_exact in Hu; [done|]. rewrite length_take. lia. }
  apply unpack_u_OK_length in Hu. rewrite length_take in Hu.
  destruct (is_null bm i) as [nul|e] eqn:Hnul; cbn [bind is_ok].
  2:{ split; [done|]. intros [_ [?|Hbm]]; [done|].
      assert (is_ok (is_null bm i) = true) as Hok.
      { apply is_null_is_ok. pose proof (div8_mono i (i + S n - 1)). lia. }
      by rewrite Hnul in Hok. }
  assert (i / 8 < length bm)%nat as Hi.
  { apply is_null_is_ok. by rewrite Hnul. }
  rewrite is_ok_bind_OK, IH, length_drop.
  replace (S i + n - 1)%nat with (i + S n - 1)%nat by lia.
  split.
  - intros [Hlen Hbm]. split; [lia|]. right.
    destruct Hbm as [->|Hbm]; [by rewrite Nat.add_sub | done].
  - intros [Hlen [?|Hbm]]; [done|]. split; [lia|].
    destruct n; [by left | by right].
Qed.
End Accepted.

(** X24.  An INT32 or FLOAT64 block is decoded exactly when it holds the 4
    bytes of the bitmap length and, if the file has rows, a bitmap with at
    least one bit per row followed by at least one value of the type's width
    (4 or 8 bytes) per row; what follows the last value is ignored. *)
Theorem fixed_width_block_accepted `{Float} (n : nat) (dt : Z) (un : bytes) :
  dt = DT_INT32 \/ dt = DT_FLOAT64 ->
  let w := if dt =? DT_INT32 then 4%nat else 8%nat in
  let nb := Z.to_nat (le_val (take 4 un)) in
  (exists vs, decode_column n dt un = OK vs) <->
  (4 <= length un)%nat /\
  (n = 0%nat \/ ((n <= 8 * nb)%nat /\ (4 + nb + w * n <= length un)%nat)).
Proof.
  intros Hdt. cbn zeta. rewrite <- is_ok_true.
  unfold decode_column. cbn [read].
  destruct (unpack_u 4 (take 4 un)) as [nb_len|e] eqn:Hu; cbn [bind is_ok].
  2:{ split; [done|]. intros [Hlen _].
      rewrite unpack_u_exact in Hu; [done|]. rewrite length_take. lia. }
  pose proof (unpack_u_OK_length _ _ _ Hu) as Hl. rewrite length_take in Hl.
  rewrite unpack_u_exact in Hu by (rewrite length_take; lia).
  injection Hu as <-.
  set (nb := Z.to_nat (le_val (take 4 un))).
  pose proof (Nat.div_mod_eq (0 + n - 1) 8) as Hdm.
  pose proof (Nat.mod_upper_bound (0 + n - 1) 8 ltac:(lia)) as Hmod.
  destruct Hdt as [-> | ->]; eval_dt.
  - rewrite decode_int32_is_ok, length_take, !length_drop.
    split.
    + intros [Hlen [-> | Hbm]]; [split; [lia | by left]|].
      split; [lia|]. destruct n; [by left|]. right. lia.
    + intros [Hlen [-> | [Hbm Hsz]]]; [split; [cbn; lia | by left]|].
      split; [lia|]. destruct n; [by left|]. right. lia.
  - rewrite decode_float64_is_ok, length_take, !length_drop.
    split.
    + intros [Hlen [-> | Hbm]]; [split; [lia | by left]|].
      split; [lia|]. destruct n; [by left|]. right. lia.
    + intros [Hlen [-> | [Hbm Hsz]]]; [split; [cbn; lia | by left]|].
      split; [lia|]. destruct n; [by left|]. right. lia.
Qed.

Lemma fixed_width_block_accepted_witness :
  (exists vs, @decode_column toy_float 2 DT_INT32
                (le_bytes 4 1 ++ [2] ++ le_bytes 4 7 ++ le_bytes 4 0 ++ [9])
              = OK vs) <->
  (4 <= 14)%nat /\
  (2%nat = 0%nat \/ ((2 <= 8 * 1)%nat /\ (4 + 1 + 4 * 2 <= 14)%nat)).
Proof.
  exact (@fixed_width_block_accepted toy_float 2 DT_INT32
           (le_bytes 4 1 ++ [2] ++ le_bytes 4 7 ++ le_bytes 4 0 ++ [9])
           (or_introl eq_refl)).
Defined.

(** ** Writing again what was read *)

Lemma mark_nulls_ext vs : forall vs' i bm,
  map str_empty vs = map str_empty vs' ->
  mark_nulls i vs bm = mark_nulls i vs' bm.
Proof.
  induction vs as [|v vs IH]; intros [|v' vs'] i bm Hm; try done.
  cbn in Hm. injection Hm as Hv Hvs. cbn [mark_nulls]. rewrite Hv.
  by apply IH.
Qed.

Lemma mapM_fmap {A B C} (f : B -> result C) (g : A -> B) l :
  mapM f (map g l) = mapM (fun x => f (g x)) l.
Proof. induction l as [|x l IH]; cbn; [done|]. by rewrite IH. Qed.

Lemma mapM_OK_in {A B} (f : A -> result B) l ys x :
  mapM f l = OK ys -> x ∈ l -> exists y, f x = OK y.
Proof.
  intros Hm Hx. apply list_elem_of_lookup in Hx as [i Hi].
  destruct (mapM_lookup _ _ _ _ _ Hm Hi) as (y & _ & Hy). eauto.
Qed.

Lemma mapM_pointwise {A B} (f : A -> result B) l1 l2 :
  Forall2 (fun x y => f x = f y) l1 l2 -> mapM f l1 = mapM f l2.
Proof.
  induction 1 as [|x y l1 l2 Hxy _ IH]; cbn; [done|]. by rewrite Hxy, IH.
Qed.

Section WriteAgain.
Context {zlib : Zlib} {fl : Float} {interp : Interpreter}.
Hypothesis repr_law :
  forall b, 0 <= b < 2 ^ 64 -> is_finite b = true ->
            py_float (float_repr b) = Some b.

Lemma encode_int32_norm v c :
  encode_int32 v = OK c ->
  encode_int32 (text (decoded DT_INT32 v)) = OK c /\
  str_empty (text (decoded DT_INT32 v)) = str_empty v.
Proof.
  unfold encode_int32, decoded. change (DT_INT32 =? DT_INT32) with true.
  cbv iota. destruct (str_empty v) eqn:Hv; [done|].
  unfold int_or_raise. destruct (py_int v) as [n|] eqn:Hn; [|done].
  cbn [bind option_map text]. intros Hp.
  rewrite py_str_nonempty.
  assert (- 2 ^ 31 <= n < 2 ^ 31) as Hr.
  { unfold pack_i32 in Hp.
    destruct (Z.leb_spec (- 2 ^ 31) n); [|done].
    destruct (Z.ltb_spec n (2 ^ 31)); [lia | done]. }
  by rewrite (py_int_py_str n (log2_abs_int32 n Hr)).
Qed.

Lemma py_float_nonempty v b : py_float v = Some b -> str_empty v = false.
Proof. destruct v; [|done]. by vm_compute. Qed.

Lemma encode_float64_norm v c :
  encode_float64 v = OK c ->
  (v <> [] -> exists b, py_float v = Some b /\ is_finite b = true) ->
  encode_float64 (text (decoded DT_FLOAT64 v)) = OK c /\
  str_empty (text (decoded DT_FLOAT64 v)) = str_empty v.
Proof.
  unfold encode_float64, decoded. change (DT_FLOAT64 =? DT_INT32) with false.
  change (DT_FLOAT64 =? DT_FLOAT64) with true. cbv iota.
  destruct (str_empty v) eqn:Hv; [done|]. intros Hc Hfin.
  destruct Hfin as (b & Hb & Hf); [by intros ->|].
  unfold float_or_raise in *. rewrite Hb in *. cbn [bind option_map text] in *.
  pose proof (repr_law b (py_float_range _ _ Hb) Hf) as Hrepr.
  by rewrite (py_float_nonempty _ _ Hrepr), Hrepr.
Qed.

Lemma encode_int32_column R vs vs' :
  mapM encode_int32 vs = mapM encode_int32 vs' ->
  map str_empty vs = map str_empty vs' ->
  encode_column R DT_INT32 vs = encode_column R DT_INT32 vs'.
Proof.
  intros Hm Hs. unfold encode_column, build_null_bitmap.
  rewrite (mark_nulls_ext vs vs') by done. eval_dt. by rewrite Hm.
Qed.

Lemma encode_float64_column R vs vs' :
  mapM encode_float64 vs = mapM encode_float64 vs' ->
  map str_empty vs = map str_empty vs' ->
  encode_column R DT_FLOAT64 vs = encode_column R DT_FLOAT64 vs'.
Proof.
  intros Hm Hs. unfold encode_column, build_null_bitmap.
  rewrite (mark_nulls_ext vs vs') by done. eval_dt. by rewrite Hm.
Qed.

Lemma encode_column_norm R dt values un :
  encode_column R dt values = OK un ->
  (dt = DT_FLOAT64 ->
   Forall (fun v => v <> [] ->
                    exists b, py_float v = Some b /\ is_finite b = true)
          values) ->
  encode_column R dt (map (fun v => text (decoded dt v)) values) = OK un.
Proof.
  intros He Hfin. rewrite <- He.
  destruct (proj1 (encode_column_accepts_iff _ _ _) (ex_intro _ un He))
    as (_ & Hdt & Hok & _).
  destruct Hdt as [-> | [-> | ->]].
  - assert (forall v, v ∈ values ->
              encode_int32 (text (decoded DT_INT32 v)) = encode_int32 v /\
              str_empty (text (decoded DT_INT32 v)) = str_empty v) as Hall.
    { intros v Hv. pose proof (Forall_elem _ _ _ Hok Hv) as Hc. cbn beta in Hc.
      rewrite <- encode_int32_ok in Hc. apply is_ok_true in Hc as [c Hc].
      destruct (encode_int32_norm _ _ Hc) as [H1 H2]. by rewrite H1, Hc. }
    apply encode_int32_column.
    + rewrite mapM_fmap. apply mapM_ext_in. intros v Hv. by apply Hall.
    + rewrite map_map. apply map_ext_in. intros v Hv%list_elem_of_In.
      by apply Hall.
  - specialize (Hfin eq_refl).
    assert (forall v, v ∈ values ->
              encode_float64 (text (decoded DT_FLOAT64 v)) = encode_float64 v /\
              str_empty (text (decoded DT_FLOAT64 v)) = str_empty v) as Hall.
    { intros v Hv. pose proof (Forall_elem _ _ _ Hok Hv) as Hc. cbn beta in Hc.
      rewrite <- encode_float64_ok in Hc. apply is_ok_true in Hc as [c Hc].
      destruct (encode_float64_norm _ _ Hc (Forall_elem _ _ _ Hfin Hv))
        as [H1 H2].
      by rewrite H1, Hc. }
    apply encode_float64_column.
    + rewrite mapM_fmap. apply mapM_ext_in. intros v Hv. by apply Hall.
    + rewrite map_map. apply map_ext_in. intros v Hv%list_elem_of_In.
      by apply Hall.
  - f_equal. rewrite <- (map_id values) at 2. apply map_ext.
    intros v. apply text_decoded_string.
Qed.
End WriteAgain.

Lemma cell_imap {A} (f : nat -> A -> str) (l : list A) j x :
  l !! j = Some x -> CCFWriter.cell (imap f l) j = f j x.
Proof. intros Hj. unfold CCFWriter.cell. by rewrite list_lookup_imap, Hj. Qed.

(** X25.  With a lossless zlib and the guarantee that [float(repr(x)) == x]
    for every finite double: when a table is written under a schema whose
    names are all different and whose FLOAT64 cells parse to finite doubles,
    writing the table read back from the file, under the same schema, produces
    the same file byte for byte. *)
Theorem written_table_is_fixpoint `{Zlib, Float, Interpreter}
    (zlib_lossless : lossless)
    (repr_law : forall b, 0 <= b < 2 ^ 64 -> is_finite b = true ->
                          py_float (float_repr b) = Some b)
    header_cols rows f :
  CCFWriter.write header_cols rows = OK f ->
  NoDup (map fst header_cols) ->
  (forall j nm row,
     header_cols !! j = Some (nm, DT_FLOAT64) -> row ∈ rows ->
     CCFWriter.cell row j <> [] ->
     exists b,
       py_float (CCFWriter.cell row j) = Some b /\ is_finite b = true) ->
  exists r rows2,
    CCFReader._read_header f = OK r /\
    CCFReader.read_table r None = OK (map fst header_cols, rows2) /\
    CCFWriter.write header_cols rows2 = OK f.
Proof.
  intros Hw Hnd Hfin.
  destruct (read_table_written_all zlib_lossless _ _ _ Hw Hnd) as (r & Hr & Ht).
  exists r. eexists. split; [done|]. split; [exact Ht|].
  destruct (write_inv _ _ _ Hw) as (encoded & _ & Henc & _).
  rewrite <- Hw. unfold CCFWriter.write. rewrite length_map.
  match goal with
  | |- bind ?m1 _ = bind ?m2 _ => assert (m1 = m2) as ->; [|done]
  end.
  apply mapM_pointwise, Forall2_same_length_lookup_2.
  { by rewrite !length_zip_with, !length_transpose. }
  intros j x y Hx Hy.
  apply lookup_zip_with_Some in Hx as (col & vals2 & -> & Hcol & Hv2).
  apply lookup_zip_with_Some in Hy as (col' & vals & -> & Hcol' & Hv).
  assert (col' = col) as -> by congruence. destruct col as [nm dt].
  pose proof (lookup_lt_Some _ _ _ Hcol) as Hj.
  rewrite transpose_lookup in Hv, Hv2 by done.
  injection Hv as <-. injection Hv2 as <-.
  destruct (mapM_lookup _ _ _ j _ Henc (column_lookup _ rows _ _ Hcol))
    as ([blk m] & _ & Hblk).
  pose proof Hblk as Hblk'.
  apply encode_block_inv in Hblk' as (un & Hun & _ & _).
  assert (map (fun r0 => CCFWriter.cell r0 j)
              (map (fun row =>
                      imap (fun j0 col =>
                              text (decoded (snd col) (CCFWriter.cell row j0)))
                           header_cols) rows)
          = map (fun v => text (decoded dt v))
                (map (fun r0 => CCFWriter.cell r0 j) rows)) as ->.
  { rewrite !map_map. apply map_ext. intros row.
    by rewrite (cell_imap _ _ _ _ Hcol). }
  unfold CCFWriter.encode_block.
  rewrite (encode_column_norm repr_law _ _ _ _ Hun), Hun; [done|].
  intros ->. apply Forall_fmap, Forall_forall.
  intros row Hrow%list_elem_of_In. cbn. by eapply Hfin.
Qed.

Lemma written_table_is_fixpoint_witness :
  exists r rows2,
    CCFReader._read_header mixed_file = OK r /\
    @CCFReader.read_table stored_zlib toy_float r None
    = OK (map fst mixed_schema, rows2) /\
    sample_write mixed_schema rows2 = OK mixed_file.
Proof.
  apply (@written_table_is_fixpoint stored_zlib toy_float sample_interpreter
           stored_lossless toy_repr_law mixed_schema mixed_rows mixed_file).
  - reflexivity.
  - apply (bool_decide_unpack _). vm_compute. reflexivity.
  - intros j nm row Hj Hrow Hne.
    destruct j as [|[|[|j]]]; try discriminate Hj.
    unfold mixed_rows in Hrow.
    repeat (apply elem_of_cons in Hrow as [->|Hrow]);
      [exists 2 | by destruct Hne | exists 10 | by apply elem_of_nil in Hrow];
      by vm_compute.
Defined.

(** ** The directory of a written file *)

(** X26.  Constructing a reader on a written file gives back the counts and
    the schema: the row count is the number of rows, the column count the
    number of columns, and [list_columns] lists the columns of the schema in
    order, each with its index, its name and its type. *)
Theorem list_columns_written `{Zlib, Float, Interpreter} header_cols rows f :
  CCFWriter.write header_cols rows = OK f ->
  exists r,
    CCFReader._read_header f = OK r /\
    CCFReader.num_rows r = Z.of_nat (length rows) /\
    CCFReader.num_cols r = Z.of_nat (length header_cols) /\
    CCFReader.list_columns r
    = imap (fun i col => (Z.of_nat i, fst col, snd col)) header_cols.
Proof.
  intros Hw.
  destruct (read_written_header _ _ _ Hw)
    as (encoded & hc & _ & _ & Hsame & _ & Hr).
  cbn zeta in *. eexists. split; [exact Hr|].
  cbn [CCFReader.num_rows CCFReader.num_cols]. split; [done|].
  pose proof (Forall2_length Hsame) as Hlen.
  split; [unfold len at 1; by rewrite Hlen|].
  unfold CCFReader.list_columns. cbn [CCFReader.columns_meta].
  apply list_eq. intros j. rewrite !list_lookup_imap.
  destruct (header_cols !! j) as [col|] eqn:Hj.
  - destruct (Forall2_lookup_l _ _ _ _ _ Hsame Hj) as (m & -> & Hn & Hd).
    cbn. by rewrite Hn, Hd.
  - rewrite (proj2 (lookup_ge_None _ j)); [done|].
    rewrite <- Hlen. by apply lookup_ge_None.
Qed.

Lemma list_columns_written_witness :
  exists r,
    CCFReader._read_header mixed_file = OK r /\
    CCFReader.num_rows r = 3 /\
    CCFReader.num_cols r = 3 /\
    CCFReader.list_columns r
    = [(0, py "n", DT_INT32); (1, py "x", DT_FLOAT64); (2, py "s", DT_STRING)].
Proof.
  apply (@list_columns_written stored_zlib toy_float sample_interpreter
           mixed_schema mixed_rows mixed_file).
  reflexivity.
Defined.

(** ** Selective reads *)

Lemma take_drop_prefix {A} (a b k : nat) (f f' : list A) :
  take k f = take k f' -> (b + a <= k)%nat ->
  take a (drop b f) = take a (drop b f').
Proof.
  intros Hk Hab. rewrite !take_drop_commute.
  replace (take (b + a) f) with (take (b + a) (take k f))
    by (rewrite take_take; f_equal; lia).
  replace (take (b + a) f') with (take (b + a) (take k f'))
    by (rewrite take_take; f_equal; lia).
  by rewrite Hk.
Qed.

(** Construction looks at nothing beyond the directory. *)
Lemma read_header_prefix (f f' : bytes) (k : nat) :
  take k f = take k f' ->
  (22 + Z.to_nat (le_val (take 4 (drop 8 f))) <= k)%nat ->
  header_view (CCFReader._read_header f')
  = header_view (CCFReader._read_header f).
Proof.
  intros Hk Hlen. unfold CCFReader._read_header, read.
  change (length MAGIC) with 7%nat. rewrite !drop_drop.
  cbn [Nat.add].
  pose proof (take_drop_prefix 7 0 k f f' Hk ltac:(lia)) as H7.
  rewrite !drop_0 in H7. rewrite <- H7.
  rewrite <- (take_drop_prefix 1 7 k f f' Hk) by lia.
  rewrite <- (take_drop_prefix 4 8 k f f' Hk) by lia.
  rewrite <- (take_drop_prefix 8 12 k f f' Hk) by lia.
  rewrite <- (take_drop_prefix 2 20 k f f' Hk) by lia.
  destruct (negb _); [done|].
  destruct (unpack_u 1 _); [|done]. cbn [bind].
  destruct (unpack_u 4 (take 4 (drop 8 f))) as [hs|] eqn:Hhs; [|done].
  cbn [bind].
  assert (hs = le_val (take 4 (drop 8 f))) as ->.
  { pose proof (unpack_u_OK_length _ _ _ Hhs) as Hl.
    rewrite unpack_u_exact in Hhs by done. congruence. }
  destruct (unpack_u 8 _); [|done]. cbn [bind].
  destruct (unpack_u 2 _); [|done]. cbn [bind].
  rewrite <- (take_drop_prefix _ 22 k f f' Hk) by lia.
  by destruct (CCFReader.read_metas _ _ _).
Qed.

Lemma directory_size_nonneg header_cols : 0 <= directory_size header_cols.
Proof.
  induction header_cols as [|col cols IH]; [done|].
  cbn [directory_size fold_right]. fold (directory_size cols).
  unfold entry_size, len. lia.
Qed.

(** X27.  With a lossless zlib, reading a column depends only on the header
    and on the column's own block: in any file that agrees with a written file
    on the 22-byte prefix and the directory and on the bytes that the
    directory assigns to the column, the column reads as in the written file,
    whatever the other bytes are. *)
Theorem selective_read `{Zlib, Float, Interpreter}
    (zlib_lossless : lossless) header_cols rows f j nm dt :
  CCFWriter.write header_cols rows = OK f ->
  header_cols !! j = Some (nm, dt) ->
  (forall k col, (k < j)%nat -> header_cols !! k = Some col -> fst col <> nm) ->
  exists r m,
    CCFReader._read_header f = OK r /\
    CCFReader.columns_meta r !! j = Some m /\
    forall f',
      take (Z.to_nat (22 + directory_size header_cols)) f'
      = take (Z.to_nat (22 + directory_size header_cols)) f ->
      slice f' (Z.to_nat (offset m)) (Z.to_nat (offset m + compressed_size m))
      = slice f (Z.to_nat (offset m))
              (Z.to_nat (offset m + compressed_size m)) ->
      exists r',
        CCFReader._read_header f' = OK r' /\
        CCFReader.read_column r' nm
        = OK (map (fun row => decoded dt (CCFWriter.cell row j)) rows).
Proof.
  intros Hw Hj Hfirst.
  destruct (written_block _ _ _ _ _ _ Hw Hj)
    as (r & un & pre & post & Hr & Hun & Hf & Hpre & _ & Hm).
  destruct (read_written_names zlib_lossless _ _ _ Hw)
    as (r2 & Hr2 & Hrows & Hnames & _).
  assert (r2 = r) as -> by congruence.
  exists r. eexists. split; [done|]. split; [exact Hm|].
  cbn [offset compressed_size]. intros f' Hhead Hblk.
  assert (le_val (take 4 (drop 8 f)) = directory_size header_cols) as Hhs.
  { destruct (write_inv _ _ _ Hw)
      as (encoded & hc & _ & _ & Hsize & _ & Bh & _ & _ & Hf').
    change (take 4 (drop 8 f)) with (slice f 8 12).
    assert (slice f 8 12 = le_bytes 4 (directory_size header_cols)) as ->.
    { rewrite Hf', Hsize.
      eapply (slice_at _ (MAGIC ++ le_bytes 1 VERSION));
        [by rewrite <- app_assoc | done | by rewrite length_le_bytes]. }
    apply le_val_le_bytes. by rewrite <- Hsize. }
  pose proof (read_header_prefix f f' _ (eq_sym Hhead)) as Hview.
  rewrite Hhs, Hr in Hview.
  pose proof (directory_size_nonneg header_cols) as Hd0.
  specialize (Hview ltac:(lia)).
  destruct (CCFReader._read_header f') as [r'|] eqn:Hr'; [|done].
  cbn in Hview. injection Hview as Hnr _ Hmetas.
  exists r'. split; [done|].
  unfold CCFReader.read_column. rewrite Hmetas, Hnr.
  rewrite (find_meta_first _ nm j _ Hm eq_refl).
  2:{ intros k m' Hk Hm'.
      assert (map name (CCFReader.columns_meta r) !! k = Some (name m')) as Hn
        by (by rewrite list_lookup_fmap, Hm').
      rewrite Hnames, list_lookup_fmap in Hn.
      destruct (header_cols !! k) as [col|] eqn:Hcol; [|done].
      injection Hn as <-. by eapply Hfirst. }
  cbn [offset compressed_size dtype read].
  rewrite (read_header_file _ _ Hr').
  assert (take (Z.to_nat (len (compress un))) (drop (Z.to_nat (len pre)) f')
          = compress un) as ->.
  { transitivity (slice f' (Z.to_nat (len pre))
                         (Z.to_nat (len pre + len (compress un)))).
    { unfold slice. f_equal. unfold len. lia. }
    rewrite Hblk. apply (slice_at f pre (compress un) post);
      [done | unfold len; lia | unfold len; lia]. }
  rewrite zlib_lossless. cbn [bind].
  rewrite Hrows, Nat2Z.id.
  rewrite <- (length_map (fun row => CCFWriter.cell row j) rows) in Hun |- *.
  rewrite (decode_encode_column _ _ _ Hun). by rewrite map_map.
Qed.

Lemma selective_read_witness :
  exists r m,
    CCFReader._read_header S6_file = OK r /\
    CCFReader.columns_meta r !! 0%nat = Some m /\
    forall f',
      take (Z.to_nat (22 + directory_size S6_schema)) f'
      = take (Z.to_nat (22 + directory_size S6_schema)) S6_file ->
      slice f' (Z.to_nat (offset m)) (Z.to_nat (offset m + compressed_size m))
      = slice S6_file (Z.to_nat (offset m))
              (Z.to_nat (offset m + compressed_size m)) ->
      exists r',
        CCFReader._read_header f' = OK r' /\
        sample_read_column r' (py "a")
        = OK (map (fun row => @decoded toy_float sample_interpreter DT_INT32
                                (CCFWriter.cell row 0)) S6_rows).
Proof.
  apply (@selective_read stored_zlib toy_float sample_interpreter
           stored_lossless S6_schema S6_rows S6_file 0 (py "a") DT_INT32);
    [reflexivity | reflexivity | intros; lia].
Defined.

(** ** The [--columns] option *)

(** X28.  With a lossless zlib, on a written file [custom_to_csv_cli] with
    [--columns] given as names of the schema separated by commas (no name
    containing a comma, the option not being empty) hands to the CSV writer
    these names, in the order given, followed by one row per row of the table
    holding the cells read under them. *)
Theorem columns_option_used `{Zlib, Float, Interpreter}
    (zlib_lossless : lossless) header_cols rows f (cs : list str) :
  CCFWriter.write header_cols rows = OK f ->
  join 44 cs <> [] ->
  Forall (fun c => forallb (fun x => negb (x =? 44)) c = true) cs ->
  Forall (fun nm => nm ∈ map fst header_cols) cs ->
  custom_to_csv_cli f (Some (join 44 cs))
  = OK (cs :: map (fun row => map (read_back header_cols row) cs) rows).
Proof.
  intros Hw Hne Hplain Hcs.
  destruct (read_table_written zlib_lossless _ _ _ cs Hw Hcs)
    as (r & Hr & _ & Ht).
  unfold custom_to_csv_cli. rewrite Hr. cbn [bind].
  destruct (join 44 cs) as [|c s] eqn:Hj; [done|].
  rewrite <- Hj, split_join; [|by intros -> | done].
  by rewrite Ht.
Qed.

Lemma columns_option_used_witness :
  @custom_to_csv_cli stored_zlib toy_float S6_file (Some (py "b,a"))
  = OK [[py "b"; py "a"]; [py ""; py "1"]; [py "hello"; py "2"];
        [py "hi"; py "3"]].
Proof.
  apply (@columns_option_used stored_zlib toy_float sample_interpreter
           stored_lossless S6_schema S6_rows S6_file [py "b"; py "a"]).
  - reflexivity.
  - discriminate.
  - repeat constructor.
  - apply (bool_decide_unpack _). vm_compute. reflexivity.
Defined.
